(** * SalinLive: the real-time audio session pipeline of [src/App.tsx]

    A shallow embedding of the conversation state machine of the SalinLive
    translator: the React component [App] of [src/App.tsx], its earlier
    sibling kept under [src/unnamed/part_000], and the enumerations of
    [src/types.ts].

    Conventions of the embedding.
    - React state ([state], [mood], [transcripts], [errorMessage]) and the
      [useRef] cells are the fields of one record [St]; a [setX(v)] call
      writes the field (the value the next render shows).
    - Every callback is a function from [St] to a new [St] and the list of
      calls it makes on its collaborators (transport, audio devices,
      recogniser, console), in program order.
    - What a callback reads from its environment (the device clock, the wall
      clock, whether a Web Audio call throws) is an explicit argument.
    - A closure that captured the [state] constant of an earlier render takes
      that captured value as an argument.
    - JavaScript strings are modelled by ASCII strings; device-clock times
      and buffer durations are counted in sample frames of the 24 kHz output
      context, so they are integers and the rounding of doubles is left out. *)

From Stdlib Require Import String Ascii List ZArith Bool Lia.
Import ListNotations.
Open Scope string_scope.

(** ** JavaScript strings *)

Module Js.

(** [if (s)] on a string: the empty string is falsy. *)
Definition truthy (s : string) : bool :=
  match s with
  | EmptyString => false
  | String _ _ => true
  end.

(** [s.includes(t)]: [t] occurs in [s] as a contiguous substring. *)
Fixpoint includes (s t : string) : bool :=
  if String.prefix t s then true
  else match s with
       | EmptyString => false
       | String _ s' => includes s' t
       end.

Definition lowerChar (c : ascii) : ascii :=
  let n := nat_of_ascii c in
  if (65 <=? n)%nat && (n <=? 90)%nat then ascii_of_nat (n + 32) else c.

(** [s.toLowerCase()] on ASCII text. *)
Fixpoint toLowerCase (s : string) : string :=
  match s with
  | EmptyString => EmptyString
  | String c s' => String (lowerChar c) (toLowerCase s')
  end.

(** The ASCII members of WhiteSpace and LineTerminator: TAB, LF, VT, FF,
    CR and SPACE. *)
Definition isWhiteSpace (c : ascii) : bool :=
  let n := nat_of_ascii c in
  ((9 <=? n)%nat && (n <=? 13)%nat) || (n =? 32)%nat.

Fixpoint trimStart (s : string) : string :=
  match s with
  | EmptyString => EmptyString
  | String c s' => if isWhiteSpace c then trimStart s' else s
  end.

Fixpoint trimEnd (s : string) : string :=
  match s with
  | EmptyString => EmptyString
  | String c s' =>
      match trimEnd s' with
      | EmptyString => if isWhiteSpace c then EmptyString else String c EmptyString
      | r => String c r
      end
  end.

(** [s.trim()]. *)
Definition trim (s : string) : string := trimEnd (trimStart s).

(** [a || ''] on an optional string. *)
Definition orEmpty (a : option string) : string :=
  match a with
  | Some s => s
  | None => EmptyString
  end.

(** [xs.some(p)]. *)
Definition some {A} (p : A -> bool) (xs : list A) : bool := existsb p xs.

End Js.

(** ** [src/types.ts] *)

Inductive AppState :=
| IDLE | SLEEP | STANDBY | CONNECTING | LISTENING | SPEAKING | RECONNECTING | ERROR.

Inductive Mood :=
| NEUTRAL | HAPPY | SAD | SURPRISED | THINKING | ANGRY | EXCITED | CONFUSED.

Definition AppState_eqb (a b : AppState) : bool :=
  match a, b with
  | IDLE, IDLE | SLEEP, SLEEP | STANDBY, STANDBY | CONNECTING, CONNECTING
  | LISTENING, LISTENING | SPEAKING, SPEAKING | RECONNECTING, RECONNECTING
  | ERROR, ERROR => true
  | _, _ => false
  end.

(** The compiled string enum is the object
    [{NEUTRAL: 'NEUTRAL', HAPPY: 'HAPPY', ...}]: its own keys. *)
Definition Mood_own (k : string) : option Mood :=
  if k =? "NEUTRAL" then Some NEUTRAL
  else if k =? "HAPPY" then Some HAPPY
  else if k =? "SAD" then Some SAD
  else if k =? "SURPRISED" then Some SURPRISED
  else if k =? "THINKING" then Some THINKING
  else if k =? "ANGRY" then Some ANGRY
  else if k =? "EXCITED" then Some EXCITED
  else if k =? "CONFUSED" then Some CONFUSED
  else None.

Definition Mood_name (m : Mood) : string :=
  match m with
  | NEUTRAL => "NEUTRAL" | HAPPY => "HAPPY" | SAD => "SAD"
  | SURPRISED => "SURPRISED" | THINKING => "THINKING" | ANGRY => "ANGRY"
  | EXCITED => "EXCITED" | CONFUSED => "CONFUSED"
  end.

(** Property names every plain object inherits from [Object.prototype];
    each of them holds a function or an object, hence a truthy value. *)
Definition Object_prototype_keys : list string :=
  [ "constructor"; "hasOwnProperty"; "isPrototypeOf"; "propertyIsEnumerable";
    "toLocaleString"; "toString"; "valueOf"; "__proto__";
    "__defineGetter__"; "__defineSetter__"; "__lookupGetter__";
    "__lookupSetter__" ].

(** The value of the property read [Mood[k]]. *)
Inductive EnumLookup :=
| LookupUndefined
| LookupMember (m : Mood)
| LookupInherited.

Definition Mood_get (k : string) : EnumLookup :=
  match Mood_own k with
  | Some m => LookupMember m
  | None =>
      if existsb (String.eqb k) Object_prototype_keys
      then LookupInherited else LookupUndefined
  end.

(** What the [mood] state holds at run time: a member of the enumeration,
    or some other JavaScript value (the model does not tell these apart). *)
Inductive MoodValue :=
| MoodOf (m : Mood)
| NotAMood.

Inductive Role := RoleUser | RoleModel.

Record TranscriptEntry := {
  role : Role;
  text : string;
  timestamp : Z;
  entry_mood : MoodValue
}.

(** ** [services/audioUtils] (not part of the available sources) *)

Module AudioUtils.

Definition Uint8Array := list Byte.byte.

Definition byteOfN (n : N) : Byte.byte := byte_of_ascii (ascii_of_N n).

(** Position of a character in the base64 alphabet [A-Za-z0-9+/]. *)
Definition sextet (c : ascii) : option N :=
  let n := N_of_ascii c in
  if (65 <=? n)%N && (n <=? 90)%N then Some (n - 65)%N
  else if (97 <=? n)%N && (n <=? 122)%N then Some (n - 71)%N
  else if (48 <=? n)%N && (n <=? 57)%N then Some (n + 4)%N
  else if (n =? 43)%N then Some 62%N
  else if (n =? 47)%N then Some 63%N
  else None.

Definition isPad (c : ascii) : bool := (N_of_ascii c =? 61)%N.

(** Four characters of the alphabet give three bytes. *)
Definition quad (a b c d : ascii) : option Uint8Array :=
  match sextet a, sextet b, sextet c, sextet d with
  | Some x, Some y, Some z, Some w =>
      Some [byteOfN (x * 4 + y / 16)%N;
            byteOfN ((y mod 16) * 16 + z / 4)%N;
            byteOfN ((z mod 4) * 64 + w)%N]
  | _, _, _, _ => None
  end.

(** The last group of four may end in one or two [=]: it then gives two
    bytes or one, and the bits no byte takes are 0, as the encoder leaves
    them. *)
Definition lastQuad (a b c d : ascii) : option Uint8Array :=
  if isPad d then
    if isPad c then
      match sextet a, sextet b with
      | Some x, Some y =>
          if (y mod 16 =? 0)%N then Some [byteOfN (x * 4 + y / 16)%N] else None
      | _, _ => None
      end
    else
      match sextet a, sextet b, sextet c with
      | Some x, Some y, Some z =>
          if (z mod 4 =? 0)%N
          then Some [byteOfN (x * 4 + y / 16)%N; byteOfN ((y mod 16) * 16 + z / 4)%N]
          else None
      | _, _, _ => None
      end
  else quad a b c d.

Fixpoint decodeQuads (l : list ascii) : option Uint8Array :=
  match l with
  | [] => Some []
  | a :: b :: c :: d :: rest =>
      match rest with
      | [] => lastQuad a b c d
      | _ :: _ =>
          match quad a b c d, decodeQuads rest with
          | Some bytes, Some more => Some (bytes ++ more)%list
          | _, _ => None
          end
      end
  | _ => None
  end.

(** Modelled from the spec: [decode] of [services/audioUtils] is missing.
    The spec's [decodeFrame] is the inverse of the base64 layer of the
    encoder, with no sample interpretation, and fails with [DecodeError] on
    malformed base64.  A text is well formed when it is what the encoder
    writes for some bytes: groups of four characters of the alphabet, the
    last one padded with [=]; any other text is malformed.  [None] stands
    for the thrown error. *)
Definition decode (base64 : string) : option Uint8Array :=
  decodeQuads (list_ascii_of_string base64).

(** An [AudioBuffer], by what the scheduler reads of it: its duration, in
    sample frames. *)
Record AudioBuffer := { duration : Z }.

(** Modelled from the spec: [decodeAudioData] of [services/audioUtils] is
    missing.  The spec's [buildPlayableBuffer] reads the bytes as signed
    16-bit little-endian PCM split over [numChannels] channels, fails with
    [FormatError] when the byte length is not a multiple of
    [2 * numChannels], and turns zero-length input into a zero-duration
    buffer.  [None] stands for the thrown error. *)
Definition decodeAudioData (data : Uint8Array) (numChannels : nat)
  : option AudioBuffer :=
  let n := length data in
  if (n mod (2 * numChannels) =? 0)%nat
  then Some {| duration := Z.of_nat (n / (2 * numChannels)) |}
  else None.

End AudioUtils.

(** ** Handles of the external collaborators *)

(** The object [ai.live.connect] resolves to. *)
Record Session := { session_id : nat }.

(** An [AudioContext], by the sample rate it was opened with. *)
Record AudioContext := { sampleRate : Z }.

(** An [AudioBufferSourceNode], by identity. *)
Definition SourceId := nat.

(** A [SpeechRecognition] object together with the [state] constant its
    [onend] and [onerror] closures captured when [enableWakeWord] built it. *)
Record Recognition := { rec_id : nat; rec_state : AppState }.

(** The payload [createPcmBlob] builds for [sendRealtimeInput]. *)
Record PcmBlob := { blob_data : string; blob_mimeType : string }.

Record FunctionResponse := {
  fr_id : option string;
  fr_name : option string;
  fr_result : string
}.

(** The [functionResponses] field: one object in [src/App.tsx], an array
    in [src/unnamed/part_000]. *)
Inductive FunctionResponses :=
| ResponseObject (r : FunctionResponse)
| ResponseArray (rs : list FunctionResponse).

(** The calls on the collaborators that the trace records: those that
    reach the transport, close a device context, start or stop a playback
    handle or the recogniser, set a timer, call [startConversation] or
    write to the console.  Calls that only build or wire an object
    ([createBufferSource], [connect], [createMediaStreamSource],
    [createScriptProcessor], [getUserMedia], [ctx.resume()]) are not
    recorded; how they fail is read from [Env]. *)
Inductive Effect :=
| SessionClose (s : Session)
| AudioContextClose (c : AudioContext)
| SourceStart (h : SourceId) (buffer : AudioUtils.AudioBuffer) (when : Z)
| SourceStop (h : SourceId)
| SendRealtimeInput (media : PcmBlob)
| SendToolResponse (functionResponses : FunctionResponses)
| RecognitionStart (r : Recognition)
| RecognitionStop (r : Recognition)
| CallStartConversation
| SetTimeout (ms : Z)
| ConsoleError.

(** ** The state of the component *)

Record St := {
  state : AppState;
  mood : MoodValue;
  transcripts : list TranscriptEntry;
  errorMessage : option string;
  moodRef : MoodValue;
  sessionRef : option Session;
  audioContextRef : option AudioContext;
  outputAudioContextRef : option AudioContext;
  sourcesRef : list SourceId;
  nextStartTimeRef : Z;
  currentInputTranscription : string;
  currentOutputTranscription : string;
  recognitionRef : option Recognition;
  isClosingRef : bool;
  nextSourceId : SourceId
}.

(** [useState] initial values and [useRef] initial contents. *)
Definition initial : St := {|
  state := IDLE;
  mood := MoodOf NEUTRAL;
  transcripts := [];
  errorMessage := None;
  moodRef := MoodOf NEUTRAL;
  sessionRef := None;
  audioContextRef := None;
  outputAudioContextRef := None;
  sourcesRef := [];
  nextStartTimeRef := 0%Z;
  currentInputTranscription := EmptyString;
  currentOutputTranscription := EmptyString;
  recognitionRef := None;
  isClosingRef := false;
  nextSourceId := 0%nat
|}.

Definition setState (v : AppState) (st : St) : St :=
  {| state := v;
     mood := mood st;
     transcripts := transcripts st;
     errorMessage := errorMessage st;
     moodRef := moodRef st;
     sessionRef := sessionRef st;
     audioContextRef := audioContextRef st;
     outputAudioContextRef := outputAudioContextRef st;
     sourcesRef := sourcesRef st;
     nextStartTimeRef := nextStartTimeRef st;
     currentInputTranscription := currentInputTranscription st;
     currentOutputTranscription := currentOutputTranscription st;
     recognitionRef := recognitionRef st;
     isClosingRef := isClosingRef st;
     nextSourceId := nextSourceId st |}.

Definition setMood (v : MoodValue) (st : St) : St :=
  {| state := state st;
     mood := v;
     transcripts := transcripts st;
     errorMessage := errorMessage st;
     moodRef := moodRef st;
     sessionRef := sessionRef st;
     audioContextRef := audioContextRef st;
     outputAudioContextRef := outputAudioContextRef st;
     sourcesRef := sourcesRef st;
     nextStartTimeRef := nextStartTimeRef st;
     currentInputTranscription := currentInputTranscription st;
     currentOutputTranscription := currentOutputTranscription st;
     recognitionRef := recognitionRef st;
     isClosingRef := isClosingRef st;
     nextSourceId := nextSourceId st |}.

Definition setTranscripts (v : list TranscriptEntry) (st : St) : St :=
  {| state := state st;
     mood := mood st;
     transcripts := v;
     errorMessage := errorMessage st;
     moodRef := moodRef st;
     sessionRef := sessionRef st;
     audioContextRef := audioContextRef st;
     outputAudioContextRef := outputAudioContextRef st;
     sourcesRef := sourcesRef st;
     nextStartTimeRef := nextStartTimeRef st;
     currentInputTranscription := currentInputTranscription st;
     currentOutputTranscription := currentOutputTranscription st;
     recognitionRef := recognitionRef st;
     isClosingRef := isClosingRef st;
     nextSourceId := nextSourceId st |}.

Definition setErrorMessage (v : option string) (st : St) : St :=
  {| state := state st;
     mood := mood st;
     transcripts := transcripts st;
     errorMessage := v;
     moodRef := moodRef st;
     sessionRef := sessionRef st;
     audioContextRef := audioContextRef st;
     outputAudioContextRef := outputAudioContextRef st;
     sourcesRef := sourcesRef st;
     nextStartTimeRef := nextStartTimeRef st;
     currentInputTranscription := currentInputTranscription st;
     currentOutputTranscription := currentOutputTranscription st;
     recognitionRef := recognitionRef st;
     isClosingRef := isClosingRef st;
     nextSourceId := nextSourceId st |}.

Definition set_moodRef (v : MoodValue) (st : St) : St :=
  {| state := state st;
     mood := mood st;
     transcripts := transcripts st;
     errorMessage := errorMessage st;
     moodRef := v;
     sessionRef := sessionRef st;
     audioContextRef := audioContextRef st;
     outputAudioContextRef := outputAudioContextRef st;
     sourcesRef := sourcesRef st;
     nextStartTimeRef := nextStartTimeRef st;
     currentInputTranscription := currentInputTranscription st;
     currentOutputTranscription := currentOutputTranscription st;
     recognitionRef := recognitionRef st;
     isClosingRef := isClosingRef st;
     nextSourceId := nextSourceId st |}.

Definition set_sessionRef (v : option Session) (st : St) : St :=
  {| state := state st;
     mood := mood st;
     transcripts := transcripts st;
     errorMessage := errorMessage st;
     moodRef := moodRef st;
     sessionRef := v;
     audioContextRef := audioContextRef st;
     outputAudioContextRef := outputAudioContextRef st;
     sourcesRef := sourcesRef st;
     nextStartTimeRef := nextStartTimeRef st;
     currentInputTranscription := currentInputTranscription st;
     currentOutputTranscription := currentOutputTranscription st;
     recognitionRef := recognitionRef st;
     isClosingRef := isClosingRef st;
     nextSourceId := nextSourceId st |}.

Definition set_audioContextRef (v : option AudioContext) (st : St) : St :=
  {| state := state st;
     mood := mood st;
     transcripts := transcripts st;
     errorMessage := errorMessage st;
     moodRef := moodRef st;
     sessionRef := sessionRef st;
     audioContextRef := v;
     outputAudioContextRef := outputAudioContextRef st;
     sourcesRef := sourcesRef st;
     nextStartTimeRef := nextStartTimeRef st;
     currentInputTranscription := currentInputTranscription st;
     currentOutputTranscription := currentOutputTranscription st;
     recognitionRef := recognitionRef st;
     isClosingRef := isClosingRef st;
     nextSourceId := nextSourceId st |}.

Definition set_outputAudioContextRef (v : option AudioContext) (st : St) : St :=
  {| state := state st;
     mood := mood st;
     transcripts := transcripts st;
     errorMessage := errorMessage st;
     moodRef := moodRef st;
     sessionRef := sessionRef st;
     audioContextRef := audioContextRef st;
     outputAudioContextRef := v;
     sourcesRef := sourcesRef st;
     nextStartTimeRef := nextStartTimeRef st;
     currentInputTranscription := currentInputTranscription st;
     currentOutputTranscription := currentOutputTranscription st;
     recognitionRef := recognitionRef st;
     isClosingRef := isClosingRef st;
     nextSourceId := nextSourceId st |}.

Definition set_sourcesRef (v : list SourceId) (st : St) : St :=
  {| state := state st;
     mood := mood st;
     transcripts := transcripts st;
     errorMessage := errorMessage st;
     moodRef := moodRef st;
     sessionRef := sessionRef st;
     audioContextRef := audioContextRef st;
     outputAudioContextRef := outputAudioContextRef st;
     sourcesRef := v;
     nextStartTimeRef := nextStartTimeRef st;
     currentInputTranscription := currentInputTranscription st;
     currentOutputTranscription := currentOutputTranscription st;
     recognitionRef := recognitionRef st;
     isClosingRef := isClosingRef st;
     nextSourceId := nextSourceId st |}.

Definition set_nextStartTimeRef (v : Z) (st : St) : St :=
  {| state := state st;
     mood := mood st;
     transcripts := transcripts st;
     errorMessage := errorMessage st;
     moodRef := moodRef st;
     sessionRef := sessionRef st;
     audioContextRef := audioContextRef st;
     outputAudioContextRef := outputAudioContextRef st;
     sourcesRef := sourcesRef st;
     nextStartTimeRef := v;
     currentInputTranscription := currentInputTranscription st;
     currentOutputTranscription := currentOutputTranscription st;
     recognitionRef := recognitionRef st;
     isClosingRef := isClosingRef st;
     nextSourceId := nextSourceId st |}.

Definition set_currentInputTranscription (v : string) (st : St) : St :=
  {| state := state st;
     mood := mood st;
     transcripts := transcripts st;
     errorMessage := errorMessage st;
     moodRef := moodRef st;
     sessionRef := sessionRef st;
     audioContextRef := audioContextRef st;
     outputAudioContextRef := outputAudioContextRef st;
     sourcesRef := sourcesRef st;
     nextStartTimeRef := nextStartTimeRef st;
     currentInputTranscription := v;
     currentOutputTranscription := currentOutputTranscription st;
     recognitionRef := recognitionRef st;
     isClosingRef := isClosingRef st;
     nextSourceId := nextSourceId st |}.

Definition set_currentOutputTranscription (v : string) (st : St) : St :=
  {| state := state st;
     mood := mood st;
     transcripts := transcripts st;
     errorMessage := errorMessage st;
     moodRef := moodRef st;
     sessionRef := sessionRef st;
     audioContextRef := audioContextRef st;
     outputAudioContextRef := outputAudioContextRef st;
     sourcesRef := sourcesRef st;
     nextStartTimeRef := nextStartTimeRef st;
     currentInputTranscription := currentInputTranscription st;
     currentOutputTranscription := v;
     recognitionRef := recognitionRef st;
     isClosingRef := isClosingRef st;
     nextSourceId := nextSourceId st |}.

Definition set_recognitionRef (v : option Recognition) (st : St) : St :=
  {| state := state st;
     mood := mood st;
     transcripts := transcripts st;
     errorMessage := errorMessage st;
     moodRef := moodRef st;
     sessionRef := sessionRef st;
     audioContextRef := audioContextRef st;
     outputAudioContextRef := outputAudioContextRef st;
     sourcesRef := sourcesRef st;
     nextStartTimeRef := nextStartTimeRef st;
     currentInputTranscription := currentInputTranscription st;
     currentOutputTranscription := currentOutputTranscription st;
     recognitionRef := v;
     isClosingRef := isClosingRef st;
     nextSourceId := nextSourceId st |}.

Definition set_isClosingRef (v : bool) (st : St) : St :=
  {| state := state st;
     mood := mood st;
     transcripts := transcripts st;
     errorMessage := errorMessage st;
     moodRef := moodRef st;
     sessionRef := sessionRef st;
     audioContextRef := audioContextRef st;
     outputAudioContextRef := outputAudioContextRef st;
     sourcesRef := sourcesRef st;
     nextStartTimeRef := nextStartTimeRef st;
     currentInputTranscription := currentInputTranscription st;
     currentOutputTranscription := currentOutputTranscription st;
     recognitionRef := recognitionRef st;
     isClosingRef := v;
     nextSourceId := nextSourceId st |}.

Definition set_nextSourceId (v : SourceId) (st : St) : St :=
  {| state := state st;
     mood := mood st;
     transcripts := transcripts st;
     errorMessage := errorMessage st;
     moodRef := moodRef st;
     sessionRef := sessionRef st;
     audioContextRef := audioContextRef st;
     outputAudioContextRef := outputAudioContextRef st;
     sourcesRef := sourcesRef st;
     nextStartTimeRef := nextStartTimeRef st;
     currentInputTranscription := currentInputTranscription st;
     currentOutputTranscription := currentOutputTranscription st;
     recognitionRef := recognitionRef st;
     isClosingRef := isClosingRef st;
     nextSourceId := v |}.

(** ** Inbound events *)

(** One element of [message.toolCall.functionCalls] once its [args] have
    been read: [fc_mood] is [(fc.args as any).mood].  The SDK leaves
    [args] optional; [SdkFunctionCall] below is the call with that field
    as declared, and [handleSdkCalls] the loop with the [TypeError] of a
    call that lacks it. *)
Record FunctionCall := {
  fc_id : option string;
  fc_name : option string;
  fc_mood : option string
}.

Record Transcription := { transcription_text : option string }.

(** [message.serverContent]; [inlineData] is
    [modelTurn?.parts?.[0]?.inlineData?.data]. *)
Record ServerContent := {
  inlineData : option string;
  outputTranscription : option Transcription;
  inputTranscription : option Transcription;
  turnComplete : bool;
  interrupted : bool
}.

Record LiveServerMessage := {
  functionCalls : option (list FunctionCall);
  serverContent : option ServerContent
}.

(** The argument of the transport's [onerror]; [err_message] is
    [err?.message]. *)
Record TransportError := { err_message : option string }.

Record SpeechRecognitionResult := {
  isFinal : bool;
  transcript : string
}.

Record SpeechRecognitionEvent := {
  resultIndex : nat;
  results : list SpeechRecognitionResult
}.

(** The Web Audio call of the playback block that throws, if any. *)
Inductive PlaybackFault :=
| FaultCreateBufferSource
| FaultConnect
| FaultStart.

(** What [onmessage] reads from its environment: [ctx.currentTime] of the
    output context, [Date.now()], a failing Web Audio call, and (read by
    [src/unnamed/part_000] only) [ctx.state === 'running'] and whether
    [ctx.resume()] rejects. *)
Record Env := {
  currentTime : Z;
  dateNow : Z;
  fault : option PlaybackFault;
  ctxRunning : bool;
  resumeRejects : bool
}.

(** ** Actions *)

Definition Action := St -> St * list Effect.

Definition skip : Action := fun st => (st, []).

Definition andThen (a b : Action) : Action :=
  fun st =>
    let (st1, e1) := a st in
    let (st2, e2) := b st1 in
    (st2, e1 ++ e2)%list.

Definition pure (f : St -> St) : Action := fun st => (f st, []).

Definition emit (e : Effect) : Action := fun st => (st, [e]).

Declare Scope action_scope.
Delimit Scope action_scope with action.
Notation "a ;; b" := (andThen a b) (at level 61, right associativity) : action_scope.

(** ** [cleanupResources] (the same text in both files)

    The function is asynchronous: it runs up to each
    [await ctx.close()] and resumes when the promise settles.  Its
    segments are given one by one; [cleanupResources] is the run with no
    other callback in between. *)

(** [isClosingRef.current = true] and the closing of the transport. *)
Definition cleanup_enter : Action :=
  fun st =>
    let st1 := set_isClosingRef true st in
    match sessionRef st1 with
    | Some s => (set_sessionRef None st1, [SessionClose s])
    | None => (st1, [])
    end.

Definition cleanup_input : Action :=
  fun st =>
    match audioContextRef st with
    | Some c => (set_audioContextRef None st, [AudioContextClose c])
    | None => (st, [])
    end.

Definition cleanup_output : Action :=
  fun st =>
    match outputAudioContextRef st with
    | Some c => (set_outputAudioContextRef None st, [AudioContextClose c])
    | None => (st, [])
    end.

(** [forEach(source => source.stop())], [clear()] and
    [isClosingRef.current = false]. *)
Definition cleanup_exit : Action :=
  fun st =>
    (set_isClosingRef false (set_sourcesRef [] st),
     map SourceStop (sourcesRef st)).

Definition cleanupResources : Action :=
  (cleanup_enter ;; cleanup_input ;; cleanup_output ;; cleanup_exit)%action.

(** [useEffect(() => { moodRef.current = mood; }, [mood])]. *)
Definition syncMoodRef (st : St) : St := set_moodRef (mood st) st.

(** [stopConversation(forceSleep)], and the body of its timer. *)
Definition stopConversation (forceSleep : bool) : Action :=
  (cleanupResources ;;
   if forceSleep
   then (pure (setState SLEEP) ;; emit (SetTimeout 5000))
   else pure (fun st => setMood (MoodOf NEUTRAL) (setState IDLE st)))%action.

Definition sleepTimeout (st : St) : St :=
  setMood (MoodOf NEUTRAL) (setState IDLE st).

(** ** The parts of [onmessage] the two files share *)

(** [if (detectedMood && Mood[detectedMood]) setMood(Mood[detectedMood])].
    A member of the enumeration is stored.  A name found on
    [Object.prototype] is truthy as well, so [setMood] receives that
    inherited value (React stores it, or what calling it as an updater
    returns): the state leaves the enumeration. *)
Definition applyDetectedMood (detectedMood : option string) (st : St) : St :=
  match detectedMood with
  | Some k =>
      if Js.truthy k then
        match Mood_get k with
        | LookupUndefined => st
        | LookupMember m => setMood (MoodOf m) st
        | LookupInherited => setMood NotAMood st
        end
      else st
  | None => st
  end.

Definition isSetMood (fc : FunctionCall) : bool :=
  match fc_name fc with
  | Some n => n =? "setMood"
  | None => false
  end.

Definition acknowledgement (fc : FunctionCall) : FunctionResponse :=
  {| fr_id := fc_id fc; fr_name := fc_name fc; fr_result := "ok" |}.

(** The body of [for (const fc of functionCalls)] on a call whose [args]
    have been read; [wrap] is the shape of [functionResponses].  The
    acknowledgement is sent from [sessionPromise.then], with no test other
    than the session being there.  The [TypeError] of a [setMood] call
    without [args] is in [handleSdkCalls]. *)
Definition handleFunctionCall (wrap : FunctionResponse -> FunctionResponses)
    (fc : FunctionCall) : Action :=
  fun st =>
    if isSetMood fc
    then (applyDetectedMood (fc_mood fc) st,
          [SendToolResponse (wrap (acknowledgement fc))])
    else (st, []).

Fixpoint handleFunctionCalls (wrap : FunctionResponse -> FunctionResponses)
    (fcs : list FunctionCall) : Action :=
  match fcs with
  | [] => skip
  | fc :: rest =>
      (handleFunctionCall wrap fc ;; handleFunctionCalls wrap rest)%action
  end.

Definition handleToolCall (wrap : FunctionResponse -> FunctionResponses)
    (message : LiveServerMessage) : Action :=
  match functionCalls message with
  | Some fcs => handleFunctionCalls wrap fcs
  | None => skip
  end.

(** [source.onended]. *)
Definition onended (source : SourceId) (st : St) : St :=
  let st1 :=
    set_sourcesRef (filter (fun h => negb (h =? source)%nat) (sourcesRef st)) st in
  match sourcesRef st1 with
  | [] => if negb (isClosingRef st1) then setState LISTENING st1 else st1
  | _ :: _ => st1
  end.

(** From [ctx.createBufferSource()] to [sourcesRef.current.add(source)]:
    the tail of the [try] block, once the buffer is built. *)
Definition scheduleBuffer (env : Env) (buffer : AudioUtils.AudioBuffer) : Action :=
  fun st =>
    match fault env with
    | Some FaultCreateBufferSource => (st, [ConsoleError])
    | _ =>
        let source := nextSourceId st in
        let st1 := set_nextSourceId (S source) st in
        match fault env with
        | Some FaultConnect => (st1, [ConsoleError])
        | _ =>
            let st2 :=
              set_nextStartTimeRef
                (Z.max (nextStartTimeRef st1) (currentTime env)) st1 in
            match fault env with
            | Some FaultStart => (st2, [ConsoleError])
            | _ =>
                let st3 :=
                  set_nextStartTimeRef
                    (nextStartTimeRef st2 + AudioUtils.duration buffer)%Z st2 in
                (set_sourcesRef (sourcesRef st3 ++ [source])%list st3,
                 [SourceStart source buffer (nextStartTimeRef st2)])
            end
        end
    end.

(** [if (serverContent?.turnComplete) { ... }]. *)
Definition handleTurnComplete (env : Env) (st : St) : St :=
  let output := Js.trim (currentOutputTranscription st) in
  let st1 :=
    if Js.truthy output
    then setTranscripts
           (transcripts st ++
            [{| role := RoleModel; text := output;
                timestamp := dateNow env; entry_mood := moodRef st |}])%list st
    else st in
  let st2 := set_currentInputTranscription EmptyString st1 in
  let st3 := set_currentOutputTranscription EmptyString st2 in
  match sourcesRef st3 with
  | [] => setState LISTENING st3
  | _ :: _ => st3
  end.

(** [if (serverContent?.interrupted) { ... }]. *)
Definition handleInterrupted : Action :=
  fun st =>
    (setState LISTENING (set_nextStartTimeRef 0%Z (set_sourcesRef [] st)),
     map SourceStop (sourcesRef st)).

(** The two blocks that close [onmessage]. *)
Definition handleTurnEnd (env : Env) (sc : option ServerContent) : Action :=
  fun st =>
    match sc with
    | None => (st, [])
    | Some c =>
        let st1 := if turnComplete c then handleTurnComplete env st else st in
        if interrupted c then handleInterrupted st1 else (st1, [])
    end.

(** [serverContent?.modelTurn?.parts?.[0]?.inlineData?.data]. *)
Definition audioDataOf (sc : option ServerContent) : option string :=
  match sc with
  | Some c => inlineData c
  | None => None
  end.

(** The head of the audio block, with the [try] body [play] and the test
    [resume] made before [setState(SPEAKING)] as parameters.  The boolean
    of the result is [false] when the handler has returned (or its promise
    has rejected) and the blocks after the audio block are not run. *)
Definition playAudio (resume : bool) (play : string -> Action)
    (sc : option ServerContent) (st : St) : St * list Effect * bool :=
  match audioDataOf sc with
  | Some audioData =>
      if Js.truthy audioData && negb (isClosingRef st) then
        match outputAudioContextRef st with
        | None => (st, [], false)
        | Some _ =>
            if resume then
              let (st1, e1) := play audioData (setState SPEAKING st) in
              (st1, e1, true)
            else (st, [], false)
        end
      else (st, [], true)
  | None => (st, [], true)
  end.

(** [onmessage], with what differs between the two files as parameters:
    the shape of the acknowledgement, how the transcription fragments are
    accumulated, and the audio block. *)
Definition onmessageWith (wrap : FunctionResponse -> FunctionResponses)
    (accumulate : option ServerContent -> St -> St)
    (audio : option ServerContent -> St -> St * list Effect * bool)
    (env : Env) (message : LiveServerMessage) : Action :=
  fun st =>
    if isClosingRef st then (st, [])
    else
      let (st1, e1) := handleToolCall wrap message st in
      let sc := serverContent message in
      let st2 := accumulate sc st1 in
      let '(st3, e3, continue) := audio sc st2 in
      if continue then
        let (st4, e4) := handleTurnEnd env sc st3 in
        (st4, e1 ++ e3 ++ e4)%list
      else (st3, e1 ++ e3)%list.

(** ** Tool calls with [args] as the SDK declares it *)

(** The [args] object of a call; [args_mood] is [args.mood]. *)
Record FunctionArgs := { args_mood : option string }.

(** One element of [message.toolCall.functionCalls], its [args] optional
    as in the type of the SDK. *)
Record SdkFunctionCall := {
  sdk_id : option string;
  sdk_name : option string;
  sdk_args : option FunctionArgs
}.

Record SdkMessage := {
  sdk_functionCalls : option (list SdkFunctionCall);
  sdk_serverContent : option ServerContent
}.

(** The call as the loop body has it once [fc.args] is read. *)
Definition withArgs (fc : SdkFunctionCall) : FunctionCall :=
  {| fc_id := sdk_id fc;
     fc_name := sdk_name fc;
     fc_mood := match sdk_args fc with
                | Some args => args_mood args
                | None => None
                end |}.

(** [(fc.args as any).mood] is evaluated for a call named [setMood]
    only, and throws a [TypeError] when that call has no [args]. *)
Definition throws (fc : SdkFunctionCall) : bool :=
  isSetMood (withArgs fc) &&
  match sdk_args fc with
  | Some _ => false
  | None => true
  end.

(** [for (const fc of functionCalls)] on the calls of the SDK.  The
    boolean is [false] when the [TypeError] has left the loop: what the
    calls before it did stays done, their acknowledgements are queued
    behind the session promise and are sent. *)
Fixpoint handleSdkCalls (wrap : FunctionResponse -> FunctionResponses)
    (fcs : list SdkFunctionCall) (st : St) : St * list Effect * bool :=
  match fcs with
  | [] => (st, [], true)
  | fc :: rest =>
      if throws fc then (st, [], false)
      else
        let (st1, e1) := handleFunctionCall wrap (withArgs fc) st in
        let '(st2, e2, completed) := handleSdkCalls wrap rest st1 in
        (st2, (e1 ++ e2)%list, completed)
  end.

(** [onmessage] on a message of the SDK.  The handler is an [async]
    function: the [TypeError] rejects its promise, and nothing that
    follows the loop is run. *)
Definition onmessageSdkWith (wrap : FunctionResponse -> FunctionResponses)
    (accumulate : option ServerContent -> St -> St)
    (audio : option ServerContent -> St -> St * list Effect * bool)
    (env : Env) (message : SdkMessage) : Action :=
  fun st =>
    if isClosingRef st then (st, [])
    else
      let '(st1, e1, completed) :=
        match sdk_functionCalls message with
        | Some fcs => handleSdkCalls wrap fcs st
        | None => (st, [], true)
        end in
      if completed then
        let sc := sdk_serverContent message in
        let st2 := accumulate sc st1 in
        let '(st3, e3, continue) := audio sc st2 in
        if continue then
          let (st4, e4) := handleTurnEnd env sc st3 in
          (st4, e1 ++ e3 ++ e4)%list
        else (st3, e1 ++ e3)%list
      else (st1, e1).

(** [onclose], a closure over the [state] of the render that created
    [startConversation]. *)
Definition onclose (captured : AppState) (st : St) : St :=
  match captured with
  | SLEEP | ERROR => st
  | _ => setState IDLE st
  end.

(** [onopen]: the phase; the wiring of the capture graph has no effect on
    the session state. *)
Definition onopen (st : St) : St := setState LISTENING st.

(** [scriptProcessor.onaudioprocess] and the continuation it hands to
    [sessionPromise.then]. *)
Section Capture.

Variable Float32Array : Type.
Variable createPcmBlob : Float32Array -> PcmBlob.

(** The synchronous part: [None] when the frame is dropped at once, else
    the blob queued behind [sessionPromise]. *)
Definition onaudioprocess (inputData : Float32Array) (st : St) : option PcmBlob :=
  if isClosingRef st then None else Some (createPcmBlob inputData).

(** [(session) => { if (session && !isClosingRef.current) ... }], run when
    the promise has resolved, on the state of that moment. *)
Definition sendWhenReady (session : option Session) (pcmBlob : PcmBlob)
    (st : St) : list Effect :=
  match session with
  | Some _ => if negb (isClosingRef st) then [SendRealtimeInput pcmBlob] else []
  | None => []
  end.

End Capture.

(** The wake-word loop of [recognition.onresult]: the results from
    [event.resultIndex] on, in order, up to the first final one whose
    lower-cased transcript includes a trigger.  The call
    [startConversation()] is recorded; its body is [startConversation]. *)
Fixpoint scanResults (triggers : list string) (recognition : Recognition)
    (rs : list SpeechRecognitionResult) : list Effect :=
  match rs with
  | [] => []
  | r :: rest =>
      if isFinal r
         && Js.some (fun t => Js.includes (Js.toLowerCase (transcript r)) t) triggers
      then [RecognitionStop recognition; CallStartConversation]
      else scanResults triggers recognition rest
  end.

Definition onresultWith (triggers : list string) (recognition : Recognition)
    (event : SpeechRecognitionEvent) : list Effect :=
  scanResults triggers recognition (skipn (resultIndex event) (results event)).

(** [recognition.onend] (and [recognition.onerror] of
    [src/unnamed/part_000]): [state] is the constant the closure captured. *)
Definition onend (recognition : Recognition) : list Effect :=
  if AppState_eqb (rec_state recognition) STANDBY
  then [RecognitionStart recognition] else [].

(** The CLEAR button and the Dismiss button. *)
Definition clearTranscripts (st : St) : St := setTranscripts [] st.

Definition dismissError (st : St) : St := setErrorMessage None st.

(** How an attempt to start a session goes. *)
Inductive StartOutcome :=
| MissingApiKey
| ThrowsBeforeContexts (message : option string)
| ThrowsAfterContexts (message : option string)
| ConnectCalled.

Definition openContexts (st : St) : St :=
  set_outputAudioContextRef (Some {| sampleRate := 24000 |})
    (set_audioContextRef (Some {| sampleRate := 16000 |}) st).

(** ** [src/App.tsx] *)

Module App.

Definition accumulate (sc : option ServerContent) (st : St) : St :=
  match sc with
  | None => st
  | Some c =>
      let st1 :=
        match outputTranscription c with
        | Some t =>
            set_currentOutputTranscription
              (currentOutputTranscription st ++ Js.orEmpty (transcription_text t)) st
        | None => st
        end in
      match inputTranscription c with
      | Some t =>
          set_currentInputTranscription
            (currentInputTranscription st1 ++ Js.orEmpty (transcription_text t)) st1
      | None => st1
      end
  end.

(** The body of [try { ... } catch (e) { console.error(e); }]. *)
Definition play (env : Env) (audioData : string) : Action :=
  fun st =>
    match AudioUtils.decode audioData with
    | None => (st, [ConsoleError])
    | Some rawData =>
        match AudioUtils.decodeAudioData rawData 1 with
        | None => (st, [ConsoleError])
        | Some buffer => scheduleBuffer env buffer st
        end
    end.

Definition onmessage (env : Env) (message : LiveServerMessage) : Action :=
  onmessageWith ResponseObject accumulate (playAudio true (play env)) env message.

Definition onmessageSdk (env : Env) (message : SdkMessage) : Action :=
  onmessageSdkWith ResponseObject accumulate (playAudio true (play env)) env message.

(** [onerror]: the call [cleanupResources()] is not awaited; its segments
    are run here with no other callback in between. *)
Definition onerror (err : TransportError) : Action :=
  (emit ConsoleError ;;
   pure (setErrorMessage (Some "Network stability issues. Reconnecting...")) ;;
   pure (setState ERROR) ;;
   cleanupResources)%action.

(** The [catch] block of [startConversation]. *)
Definition startFailed (message : option string) : Action :=
  (pure (setErrorMessage message) ;; pure (setState ERROR) ;; cleanupResources)%action.

(** [startConversation] up to [await sessionPromise]. *)
Definition startConversation (outcome : StartOutcome) : Action :=
  (cleanupResources ;;
   pure (setState CONNECTING) ;;
   pure (setErrorMessage None) ;;
   match outcome with
   | MissingApiKey => startFailed (Some "API Key is missing.")
   | ThrowsBeforeContexts m => startFailed m
   | ThrowsAfterContexts m => pure openContexts ;; startFailed m
   | ConnectCalled => pure openContexts
   end)%action.

(** [sessionRef.current = await sessionPromise], and its rejection. *)
Definition sessionResolved (s : Session) (st : St) : St := set_sessionRef (Some s) st.

Definition sessionRejected (message : option string) : Action := startFailed message.

Definition triggers : list string := ["salin"; "hoy salin"; "hey salin"].

Definition onresult := onresultWith triggers.

(** [enableWakeWord]: [supported] tells whether the browser has a
    [SpeechRecognition] constructor, [id] names the object it builds. *)
Definition enableWakeWord (supported : bool) (id : nat) : Action :=
  fun st =>
    if supported then
      let recognition := {| rec_id := id; rec_state := state st |} in
      (setState STANDBY (set_recognitionRef (Some recognition) st),
       [RecognitionStart recognition])
    else (st, []).

Definition toggleStandby (supported : bool) (id : nat) : Action :=
  fun st =>
    if AppState_eqb (state st) STANDBY then
      (setState IDLE st,
       match recognitionRef st with
       | Some r => [RecognitionStop r]
       | None => []
       end)
    else enableWakeWord supported id st.

End App.

(** ** [src/unnamed/part_000] *)

Module Part000.

Definition accumulate (sc : option ServerContent) (st : St) : St :=
  match sc with
  | None => st
  | Some c =>
      match outputTranscription c with
      | Some t =>
          set_currentOutputTranscription
            (currentOutputTranscription st ++ Js.orEmpty (transcription_text t)) st
      | None =>
          match inputTranscription c with
          | Some t =>
              set_currentInputTranscription
                (currentInputTranscription st ++ Js.orEmpty (transcription_text t)) st
          | None => st
          end
      end
  end.

(** The body of [try { ... } catch (e) { console.error(...); }], with its
    test [rawData.length > 0]. *)
Definition play (env : Env) (audioData : string) : Action :=
  fun st =>
    match AudioUtils.decode audioData with
    | None => (st, [ConsoleError])
    | Some rawData =>
        match rawData with
        | [] => (st, [])
        | _ :: _ =>
            match AudioUtils.decodeAudioData rawData 1 with
            | None => (st, [ConsoleError])
            | Some buffer => scheduleBuffer env buffer st
            end
        end
    end.

(** [if (ctx.state !== 'running') await ctx.resume();]. *)
Definition resumed (env : Env) : bool := ctxRunning env || negb (resumeRejects env).

Definition onmessage (env : Env) (message : LiveServerMessage) : Action :=
  onmessageWith (fun r => ResponseArray [r]) accumulate
    (playAudio (resumed env) (play env)) env message.

Definition onmessageSdk (env : Env) (message : SdkMessage) : Action :=
  onmessageSdkWith (fun r => ResponseArray [r]) accumulate
    (playAudio (resumed env) (play env)) env message.

Definition overloaded (err : TransportError) : bool :=
  match err_message err with
  | Some m => Js.includes m "unavailable" || Js.includes m "503"
  | None => false
  end.

(** [onerror]: the call [cleanupResources()] is not awaited; its segments
    are run here with no other callback in between. *)
Definition onerror (err : TransportError) : Action :=
  (emit ConsoleError ;;
   pure (setErrorMessage
           (Some (if overloaded err
                  then "Salin is currently overloaded. Please wait a moment and try again."
                  else "Connection encountered an issue."))) ;;
   pure (setState ERROR) ;;
   cleanupResources)%action.

Definition triggers : list string := ["salin"; "hoy salin"; "hey salin"; "hi salin"].

Definition onresult := onresultWith triggers.

(** The [catch] block of [startConversation]. *)
Definition startFailed (message : option string) : Action :=
  (emit ConsoleError ;;
   pure (setErrorMessage
           (Some ("Failed to start Salin: " ++
                  match message with
                  | Some m => if Js.truthy m then m else "Service is busy"
                  | None => "Service is busy"
                  end))) ;;
   pure (setState ERROR) ;;
   cleanupResources)%action.

Definition stopRecognition : Action :=
  fun st =>
    (st, match recognitionRef st with
         | Some r => [RecognitionStop r]
         | None => []
         end).

(** [startConversation] up to [await sessionPromise]. *)
Definition startConversation (outcome : StartOutcome) : Action :=
  (cleanupResources ;;
   emit (SetTimeout 100) ;;
   pure (setState CONNECTING) ;;
   pure (setErrorMessage None) ;;
   stopRecognition ;;
   match outcome with
   | MissingApiKey => startFailed (Some "API Key is missing.")
   | ThrowsBeforeContexts m => startFailed m
   | ThrowsAfterContexts m => pure openContexts ;; startFailed m
   | ConnectCalled => pure openContexts
   end)%action.

Definition sessionResolved (s : Session) (st : St) : St := set_sessionRef (Some s) st.

Definition sessionRejected (message : option string) : Action := startFailed message.

Definition enableWakeWord (supported : bool) (id : nat) : Action :=
  fun st =>
    if supported then
      let recognition := {| rec_id := id; rec_state := state st |} in
      (setState STANDBY (set_recognitionRef (Some recognition) st),
       [RecognitionStart recognition])
    else (setErrorMessage (Some "Wake word not supported in this browser.") st, []).

Definition toggleStandby (supported : bool) (id : nat) : Action :=
  fun st =>
    if AppState_eqb (state st) STANDBY then
      (setState IDLE st,
       match recognitionRef st with
       | Some r => [RecognitionStop r]
       | None => []
       end)
    else enableWakeWord supported id st.

End Part000.

(** ** The component as a transition system *)

Inductive CleanupSegment := SegEnter | SegInput | SegOutput | SegExit.

(** Everything that can run on the event loop: user actions, transport
    callbacks, playback and recogniser callbacks, timers, the render
    effect, and the segments of a [cleanupResources] in flight. *)
Inductive Event :=
| EvStartConversation (outcome : StartOutcome)
| EvSessionResolved (s : Session)
| EvSessionRejected (message : option string)
| EvStopConversation (forceSleep : bool)
| EvSleepTimeout
| EvOpen
| EvSendFrame (session : option Session) (pcmBlob : PcmBlob)
| EvMessage (env : Env) (message : LiveServerMessage)
| EvEnded (source : SourceId)
| EvError (err : TransportError)
| EvClose (captured : AppState)
| EvToggleStandby (supported : bool) (id : nat)
| EvResult (recognition : Recognition) (event : SpeechRecognitionEvent)
| EvRecognitionEnd (recognition : Recognition)
| EvClear
| EvDismiss
| EvRender
| EvCleanup (seg : CleanupSegment).

Definition cleanupSegment (seg : CleanupSegment) : Action :=
  match seg with
  | SegEnter => cleanup_enter
  | SegInput => cleanup_input
  | SegOutput => cleanup_output
  | SegExit => cleanup_exit
  end.

(** The callbacks of one file. *)
Record Component := {
  c_startConversation : StartOutcome -> Action;
  c_sessionResolved : Session -> St -> St;
  c_sessionRejected : option string -> Action;
  c_onmessage : Env -> LiveServerMessage -> Action;
  c_onerror : TransportError -> Action;
  c_toggleStandby : bool -> nat -> Action;
  c_onresult : Recognition -> SpeechRecognitionEvent -> list Effect
}.

Definition step (c : Component) (ev : Event) : Action :=
  match ev with
  | EvStartConversation outcome => c_startConversation c outcome
  | EvSessionResolved s => pure (c_sessionResolved c s)
  | EvSessionRejected m => c_sessionRejected c m
  | EvStopConversation forceSleep => stopConversation forceSleep
  | EvSleepTimeout => pure sleepTimeout
  | EvOpen => pure onopen
  | EvSendFrame session pcmBlob => fun st => (st, sendWhenReady session pcmBlob st)
  | EvMessage env message => c_onmessage c env message
  | EvEnded source => pure (onended source)
  | EvError err => c_onerror c err
  | EvClose captured => pure (onclose captured)
  | EvToggleStandby supported id => c_toggleStandby c supported id
  | EvResult recognition event => fun st => (st, c_onresult c recognition event)
  | EvRecognitionEnd recognition => fun st => (st, onend recognition)
  | EvClear => pure clearTranscripts
  | EvDismiss => pure dismissError
  | EvRender => pure syncMoodRef
  | EvCleanup seg => cleanupSegment seg
  end.

Definition AppTsx : Component := {|
  c_startConversation := App.startConversation;
  c_sessionResolved := App.sessionResolved;
  c_sessionRejected := App.sessionRejected;
  c_onmessage := App.onmessage;
  c_onerror := App.onerror;
  c_toggleStandby := App.toggleStandby;
  c_onresult := App.onresult
|}.

Definition Part000Tsx : Component := {|
  c_startConversation := Part000.startConversation;
  c_sessionResolved := Part000.sessionResolved;
  c_sessionRejected := Part000.sessionRejected;
  c_onmessage := Part000.onmessage;
  c_onerror := Part000.onerror;
  c_toggleStandby := Part000.toggleStandby;
  c_onresult := Part000.onresult
|}.

(** A run of the component: the events in order, the effects concatenated. *)
Fixpoint run (c : Component) (evs : list Event) : Action :=
  match evs with
  | [] => skip
  | ev :: rest => (step c ev ;; run c rest)%action
  end.

(** * Vocabulary of the properties *)

(** The state [cleanupResources] leaves: no transport, no device context,
    no registered playback handle, closing flag cleared. *)
Definition tornDown (st : St) : Prop :=
  sessionRef st = None /\
  audioContextRef st = None /\
  outputAudioContextRef st = None /\
  sourcesRef st = [] /\
  isClosingRef st = false.

Definition optionEffects {A} (f : A -> Effect) (o : option A) : list Effect :=
  match o with
  | Some a => [f a]
  | None => []
  end.

(** The test of the claim on the error's description. *)
Definition describesOverload (err : TransportError) : bool :=
  match err_message err with
  | Some m => Js.includes m "503" || Js.includes m "unavailable"
  | None => false
  end.

(** An [onerror] classifies when it shows one text for the descriptions
    with [503] or [unavailable] and another text for all the others. *)
Definition classifies (onerror : TransportError -> Action) : Prop :=
  exists overloadText genericText : string,
    overloadText <> genericText /\
    forall err st,
      errorMessage (fst (onerror err st)) =
      Some (if describesOverload err then overloadText else genericText).

(** A session is open, as far as [onmessage] can tell, while no teardown
    is in progress and the output device context is there: from the
    opening of the contexts in [startConversation] until
    [cleanupResources] takes them down. *)
Definition sessionOpen (st : St) : Prop :=
  isClosingRef st = false /\ outputAudioContextRef st <> None.

(** What the audio block does on an open session: the handler does not
    return early. *)
Definition audioStep (play : string -> Action) (sc : option ServerContent) : Action :=
  fun st =>
    match audioDataOf sc with
    | Some audioData =>
        if Js.truthy audioData then play audioData (setState SPEAKING st) else (st, [])
    | None => (st, [])
    end.

(** The cells the session lives in, and the cells the audio block never
    writes. *)
Definition sameSession (st st' : St) : Prop :=
  sessionRef st' = sessionRef st /\
  audioContextRef st' = audioContextRef st /\
  outputAudioContextRef st' = outputAudioContextRef st /\
  isClosingRef st' = isClosingRef st /\
  errorMessage st' = errorMessage st.

Definition sameText (st st' : St) : Prop :=
  mood st' = mood st /\
  moodRef st' = moodRef st /\
  transcripts st' = transcripts st /\
  currentInputTranscription st' = currentInputTranscription st /\
  currentOutputTranscription st' = currentOutputTranscription st.

(** The [try] bodies of the two files, by cases. *)
Inductive PlayOutcome :=
| DecodeThrows
| EmptyChunk
| BufferThrows (rawData : AudioUtils.Uint8Array)
| Built (rawData : AudioUtils.Uint8Array) (buffer : AudioUtils.AudioBuffer).

Definition playOutcome (audioData : string) : PlayOutcome :=
  match AudioUtils.decode audioData with
  | None => DecodeThrows
  | Some [] => EmptyChunk
  | Some rawData =>
      match AudioUtils.decodeAudioData rawData 1 with
      | None => BufferThrows rawData
      | Some buffer => Built rawData buffer
      end
  end.

(** The value the tool-call block leaves in [mood]. *)
Definition toolMood wrap (message : LiveServerMessage) (st : St) : MoodValue :=
  mood (fst (handleToolCall wrap message st)).

(** The model's transcript as the turn-complete block finds it: what was
    accumulated before the message, and the fragment of the message. *)
Definition accumulatedOutput (sc : ServerContent) (st : St) : string :=
  match outputTranscription sc with
  | Some t => currentOutputTranscription st ++ Js.orEmpty (transcription_text t)
  | None => currentOutputTranscription st
  end.

(** What the turn-complete block leaves of the state [st] when the
    accumulated transcript trims to [output]: one more entry, with that
    text and the tag [tag], when [output] is not empty, the log as it was
    otherwise, and both accumulators empty. *)
Definition logsTurn (env : Env) (output : string) (tag : MoodValue) (st st' : St) : Prop :=
  transcripts st' =
  (if Js.truthy output
   then transcripts st ++
        [{| role := RoleModel; text := output;
            timestamp := dateNow env; entry_mood := tag |}]
   else transcripts st)%list /\
  currentInputTranscription st' = EmptyString /\
  currentOutputTranscription st' = EmptyString.

(** The events that can leave the Active Playback Set empty outside an
    interruption or a teardown: the natural end of a buffer, and a message
    with the turn-complete signal. *)
Definition drains (ev : Event) : bool :=
  match ev with
  | EvEnded _ => true
  | EvMessage _ message =>
      match serverContent message with
      | Some sc => turnComplete sc
      | None => false
      end
  | _ => false
  end.

(** ** Sample states and messages *)

Definition aSession : Session := {| session_id := 1 |}.

(** An open session: a start that reached [connect], the promise resolved,
    the transport opened. *)
Definition openedSession : St :=
  fst (run AppTsx
         [EvStartConversation ConnectCalled; EvSessionResolved aSession; EvOpen]
         initial).

Definition quietEnv (now : Z) : Env :=
  {| currentTime := now; dateNow := 1700000000000%Z; fault := None;
     ctxRunning := true; resumeRejects := false |}.

Definition emptyContent : ServerContent :=
  {| inlineData := None; outputTranscription := None; inputTranscription := None;
     turnComplete := false; interrupted := false |}.

(** A message that carries one audio chunk and nothing else. *)
Definition audioMessage (data : string) : LiveServerMessage :=
  {| functionCalls := None;
     serverContent :=
       Some {| inlineData := Some data; outputTranscription := None;
               inputTranscription := None; turnComplete := false;
               interrupted := false |} |}.

Definition interruptedContent : ServerContent :=
  {| inlineData := None; outputTranscription := None; inputTranscription := None;
     turnComplete := false; interrupted := true |}.

Definition contentMessage (sc : ServerContent) : LiveServerMessage :=
  {| functionCalls := None; serverContent := Some sc |}.

Definition setMoodMessage (id value : string) : LiveServerMessage :=
  {| functionCalls :=
       Some [{| fc_id := Some id; fc_name := Some "setMood"; fc_mood := Some value |}];
     serverContent := None |}.

(** The open session with two buffers of one frame each scheduled. *)
Definition speakingSession : St :=
  fst (run AppTsx
         [EvMessage (quietEnv 0) (audioMessage "AAA=");
          EvMessage (quietEnv 0) (audioMessage "AAA=")]
         openedSession).

(** The open session at the first [await] of a teardown. *)
Definition closingSession : St := fst (cleanup_enter speakingSession).

Definition turnCompleteContent (fragment : string) : ServerContent :=
  {| inlineData := None;
     outputTranscription := Some {| transcription_text := Some fragment |};
     inputTranscription := None; turnComplete := true; interrupted := false |}.

(** The [onresult] of the file reports a wake word: it stops the recogniser
    and calls [startConversation], once. *)
Definition wakes (eff : list Effect) (recognition : Recognition) : Prop :=
  eff = [RecognitionStop recognition; CallStartConversation].

(** A final result whose lower-cased transcript includes a trigger. *)
Definition hasTrigger (triggers : list string) (r : SpeechRecognitionResult) : bool :=
  isFinal r && Js.some (fun t => Js.includes (Js.toLowerCase (transcript r)) t) triggers.

Definition finalResult (said : string) : SpeechRecognitionEvent :=
  {| resultIndex := 0; results := [{| isFinal := true; transcript := said |}] |}.

Definition isSourceStart (e : Effect) : bool :=
  match e with
  | SourceStart _ _ _ => true
  | _ => false
  end.


(** A trace with no call of the kind [p]. *)
Definition without (p : Effect -> bool) (eff : list Effect) : Prop :=
  forallb (fun e => negb (p e)) eff = true.

(** A kind of call that neither the tool-call block nor the two closing
    blocks of [onmessage] make. *)
Definition audioOnly (p : Effect -> bool) : Prop :=
  (forall r, p (SendToolResponse r) = false) /\ (forall h, p (SourceStop h) = false).


(** A decode or playback error affects the chunk: the base64 text is
    malformed, the bytes do not make a buffer, or a Web Audio call throws
    while the buffer is being scheduled. *)
Definition chunkFails (env : Env) (audioData : string) : bool :=
  match playOutcome audioData with
  | DecodeThrows | BufferThrows _ => true
  | EmptyChunk => false
  | Built _ _ =>
      match fault env with
      | Some _ => true
      | None => false
      end
  end.


(** The playback intervals of a trace: the start time and the duration of
    every buffer started, in the order of the calls. *)
Fixpoint intervals (eff : list Effect) : list (Z * Z) :=
  match eff with
  | [] => []
  | SourceStart _ buffer when :: rest =>
      (when, AudioUtils.duration buffer) :: intervals rest
  | _ :: rest => intervals rest
  end.

Definition startTimes (eff : list Effect) : list Z := map fst (intervals eff).

(** Intervals that follow one another from [lo] on without overlap. *)
Fixpoint inOrder (lo : Z) (ivs : list (Z * Z)) : Prop :=
  match ivs with
  | [] => True
  | (start, d) :: rest => (lo <= start)%Z /\ (0 <= d)%Z /\ inOrder (start + d) rest
  end.

(** The end of the last interval, [lo] when there is none. *)
Fixpoint endOf (lo : Z) (ivs : list (Z * Z)) : Z :=
  match ivs with
  | [] => lo
  | (start, d) :: rest => endOf (start + d) rest
  end.

(** A message with the [interrupted] signal. *)
Definition isInterruption (ev : Event) : bool :=
  match ev with
  | EvMessage _ message =>
      match serverContent message with
      | Some sc => interrupted sc
      | None => false
      end
  | _ => false
  end.

(** The schedule in the words of the spec: each buffer starts at
    [max(cursor, now)] and the cursor moves to its end.  An arrival is the
    clock reading and the duration of the buffer. *)
Fixpoint specSchedule (cursor : Z) (arrivals : list (Z * Z)) : list (Z * Z) :=
  match arrivals with
  | [] => []
  | (now, d) :: rest =>
      let start := Z.max cursor now in
      (start, d) :: specSchedule (start + d) rest
  end.

(** An audio chunk as it arrives: what the handler reads of its
    environment, and the payload. *)
Definition Chunk : Type := Env * string.

Definition audioEvents (chunks : list Chunk) : list Event :=
  map (fun c : Chunk => EvMessage (fst c) (audioMessage (snd c))) chunks.

Definition chunkDuration (audioData : string) : Z :=
  match playOutcome audioData with
  | Built _ buffer => AudioUtils.duration buffer
  | _ => 0%Z
  end.

Definition arrival (c : Chunk) : Z * Z := (currentTime (fst c), chunkDuration (snd c)).

(** A chunk that decodes to a buffer and is scheduled without a fault. *)
Definition playable (c : Chunk) : bool :=
  match playOutcome (snd c), fault (fst c) with
  | Built _ _, None => true
  | _, _ => false
  end.

(** An action that leaves the view [f] of the state as it was. *)
Definition preserves {A} (f : St -> A) (a : Action) : Prop :=
  forall st, f (fst (a st)) = f st.

(** An action that makes no call of the kind [p]. *)
Definition silent (p : Effect -> bool) (a : Action) : Prop :=
  forall st, without p (snd (a st)).

(** The step from [st] to [r] keeps the schedule in order: the cursor does
    not go back, the buffers started follow one another from the old
    cursor on, and the new cursor is not before the end of the last one. *)
Definition schedules (st : St) (r : St * list Effect) : Prop :=
  (nextStartTimeRef st <= nextStartTimeRef (fst r))%Z /\
  inOrder (nextStartTimeRef st) (intervals (snd r)) /\
  (endOf (nextStartTimeRef st) (intervals (snd r)) <= nextStartTimeRef (fst r))%Z.

Definition isMessage (ev : Event) : bool :=
  match ev with
  | EvMessage _ _ => true
  | _ => false
  end.

Definition isClear (ev : Event) : bool :=
  match ev with
  | EvClear => true
  | _ => false
  end.

(** The two files. *)
Definition isFile (c : Component) : Prop := c = AppTsx \/ c = Part000Tsx.

(** The entry a turn completed with the transcript [said] leaves. *)
Definition modelEntry (said : string) : TranscriptEntry :=
  {| role := RoleModel; text := said; timestamp := 1700000000000%Z;
     entry_mood := MoodOf NEUTRAL |}.

(** The open session after one completed turn. *)
Definition afterOneTurn : St :=
  fst (step AppTsx (EvMessage (quietEnv 1) (contentMessage (turnCompleteContent "Kumusta")))
         openedSession).

(** ** Vocabulary of the further properties *)

(** The cells a teardown has no business with: what the user sees, the
    cursor, the accumulators and the recogniser. *)
Definition sameOutside (st st' : St) : Prop :=
  state st' = state st /\
  mood st' = mood st /\
  moodRef st' = moodRef st /\
  transcripts st' = transcripts st /\
  errorMessage st' = errorMessage st /\
  nextStartTimeRef st' = nextStartTimeRef st /\
  currentInputTranscription st' = currentInputTranscription st /\
  currentOutputTranscription st' = currentOutputTranscription st /\
  recognitionRef st' = recognitionRef st.

(** The message an attempt to start shows when it fails, in
    [src/App.tsx]: the [message] of the error, as it is. *)
Definition appStartError (outcome : StartOutcome) : option string :=
  match outcome with
  | MissingApiKey => Some "API Key is missing."
  | ThrowsBeforeContexts m | ThrowsAfterContexts m => m
  | ConnectCalled => None
  end.

(** The same in [src/unnamed/part_000]: a fixed prefix, and a fallback
    when the error has no message. *)
Definition part000StartError (outcome : StartOutcome) : string :=
  "Failed to start Salin: " ++
  match appStartError outcome with
  | Some m => if Js.truthy m then m else "Service is busy"
  | None => "Service is busy"
  end.

Definition startFails (outcome : StartOutcome) : bool :=
  match outcome with
  | ConnectCalled => false
  | _ => true
  end.

Definition isToolResponse (e : Effect) : bool :=
  match e with
  | SendToolResponse _ => true
  | _ => false
  end.

(** The function calls of a message, none when it has no tool call. *)
Definition callsOf (message : LiveServerMessage) : list FunctionCall :=
  match functionCalls message with
  | Some fcs => fcs
  | None => []
  end.

(** The acknowledgements a file owes for a message: one for every call
    named [setMood], in the order of the calls. *)
Definition acknowledgements (wrap : FunctionResponse -> FunctionResponses)
    (message : LiveServerMessage) : list Effect :=
  map (fun fc => SendToolResponse (wrap (acknowledgement fc)))
      (filter isSetMood (callsOf message)).

(** The calls the loop gets through before a [TypeError], with their
    [args] read: all of them when no call throws. *)
Fixpoint handledCalls (fcs : list SdkFunctionCall) : list FunctionCall :=
  match fcs with
  | [] => []
  | fc :: rest => if throws fc then [] else withArgs fc :: handledCalls rest
  end.

(** What [onmessage] handles of a message of the SDK: the whole message
    when no call throws; the calls before the one that throws, and nothing
    of the server content, otherwise. *)
Definition handledPart (message : SdkMessage) : LiveServerMessage :=
  match sdk_functionCalls message with
  | None => {| functionCalls := None; serverContent := sdk_serverContent message |}
  | Some fcs =>
      if existsb throws fcs
      then {| functionCalls := Some (handledCalls fcs); serverContent := None |}
      else {| functionCalls := Some (handledCalls fcs);
              serverContent := sdk_serverContent message |}
  end.

(** A message of the SDK with a [setMood] call that has its [args], one
    that has none, a third call and the turn-complete signal. *)
Definition argsMissingMessage : SdkMessage :=
  {| sdk_functionCalls :=
       Some [{| sdk_id := Some "call-1"; sdk_name := Some "setMood";
                sdk_args := Some {| args_mood := Some "HAPPY" |} |};
             {| sdk_id := Some "call-2"; sdk_name := Some "setMood"; sdk_args := None |};
             {| sdk_id := Some "call-3"; sdk_name := Some "setMood";
                sdk_args := Some {| args_mood := Some "SAD" |} |}];
     sdk_serverContent := Some (turnCompleteContent "Kumusta") |}.

(** A message that carries one fragment of the model's transcript and
    nothing else; a message that carries the turn-complete signal and
    nothing else. *)
Definition fragmentMessage (fragment : string) : LiveServerMessage :=
  contentMessage
    {| inlineData := None;
       outputTranscription := Some {| transcription_text := Some fragment |};
       inputTranscription := None; turnComplete := false; interrupted := false |}.

Definition turnCompleteMessage : LiveServerMessage :=
  contentMessage
    {| inlineData := None; outputTranscription := None; inputTranscription := None;
       turnComplete := true; interrupted := false |}.

Definition fragmentEvents (env : Env) (fragments : list string) : list Event :=
  map (fun f => EvMessage env (fragmentMessage f)) fragments.

(** The fragments one after the other. *)
Definition joined (fragments : list string) : string :=
  fold_right String.append EmptyString fragments.

(** An entry as [onmessage] writes them: the model's, with a text that is
    not empty and has no white space left at either end. *)
Definition wellFormedEntry (e : TranscriptEntry) : Prop :=
  role e = RoleModel /\ Js.truthy (text e) = true /\ Js.trim (text e) = text e.

(** ** [src/unnamed/part_001], the transcript view *)

Module Transcript.

Definition isModel (entry : TranscriptEntry) : bool :=
  match role entry with
  | RoleModel => true
  | RoleUser => false
  end.

(** [entries.filter(entry => entry.role === 'model')]. *)
Definition translations (entries : list TranscriptEntry) : list TranscriptEntry :=
  filter isModel entries.

(** [translations.length === 0]: the placeholder is rendered instead of
    the list. *)
Definition showsPlaceholder (entries : list TranscriptEntry) : bool :=
  match translations entries with
  | [] => true
  | _ :: _ => false
  end.

End Transcript.

(** A state the component can be in: [initial], or what an event of the
    file leaves of such a state. *)
Inductive reachable (c : Component) : St -> Prop :=
| reachable_initial : reachable c initial
| reachable_step ev st : reachable c st -> reachable c (fst (step c ev st)).

(** A cell that no callback other than [onmessage] writes: a view of the
    state that every other setter leaves alone. *)
Definition messageOwned {A} (f : St -> A) : Prop :=
  (forall v st, f (setState v st) = f st) /\
  (forall v st, f (setMood v st) = f st) /\
  (forall v st, f (setTranscripts v st) = f st) /\
  (forall v st, f (setErrorMessage v st) = f st) /\
  (forall v st, f (set_moodRef v st) = f st) /\
  (forall v st, f (set_sessionRef v st) = f st) /\
  (forall v st, f (set_audioContextRef v st) = f st) /\
  (forall v st, f (set_outputAudioContextRef v st) = f st) /\
  (forall v st, f (set_sourcesRef v st) = f st) /\
  (forall v st, f (set_recognitionRef v st) = f st) /\
  (forall v st, f (set_isClosingRef v st) = f st).

(** The cursor and the two accumulators, together. *)
Definition turnCells (st : St) : Z * string * string :=
  (nextStartTimeRef st, currentInputTranscription st, currentOutputTranscription st).

(** The turn-end flags of a message. *)
Definition endsTurn (message : LiveServerMessage) : bool :=
  match serverContent message with
  | Some sc => turnComplete sc || interrupted sc
  | None => false
  end.

(** The message carries a non-empty audio payload. *)
Definition hasAudio (message : LiveServerMessage) : bool :=
  match audioDataOf (serverContent message) with
  | Some audioData => Js.truthy audioData
  | None => false
  end.

(** The calls of the trace that belong to the other callbacks: closing
    the transport or a device context, sending captured audio, starting or
    stopping the recogniser, setting a timer, starting a conversation. *)
Definition isForeignCall (e : Effect) : bool :=
  match e with
  | SessionClose _ | AudioContextClose _ | SendRealtimeInput _
  | RecognitionStart _ | RecognitionStop _ | CallStartConversation | SetTimeout _ => true
  | _ => false
  end.

(** The calls of the trace that are left for [onmessage]. *)
Definition isMessageEffect (e : Effect) : bool :=
  match e with
  | SendToolResponse _ | SourceStart _ _ _ | SourceStop _ | ConsoleError => true
  | _ => false
  end.

Definition isStartCall (e : Effect) : bool :=
  match e with
  | CallStartConversation => true
  | _ => false
  end.

Definition isResult (ev : Event) : bool :=
  match ev with
  | EvResult _ _ => true
  | _ => false
  end.

(** The events that write the Mood: a message (through a tool call), the
    plain stop and the timer of the stop with [forceSleep]. *)
Definition writesMood (ev : Event) : bool :=
  match ev with
  | EvMessage _ _ | EvStopConversation false | EvSleepTimeout => true
  | _ => false
  end.

(** The events the closing flag turns into no-ops: inbound messages and
    the sends queued behind the session promise. *)
Definition isGuarded (ev : Event) : bool :=
  match ev with
  | EvMessage _ _ | EvSendFrame _ _ => true
  | _ => false
  end.

(** The start times of buffers that play back to back from [t] on: each
    one begins where the one before ends. *)
Fixpoint backToBack (t : Z) (durations : list Z) : list Z :=
  match durations with
  | [] => []
  | d :: rest => t :: backToBack (t + d) rest
  end.

(** The events after which the Mood is what it was: every event that
    does not write it, and every message without a call named
    [setMood]. *)
Definition keepsMood (ev : Event) : bool :=
  match ev with
  | EvMessage _ message => forallb (fun fc => negb (isSetMood fc)) (callsOf message)
  | _ => negb (writesMood ev)
  end.

(** The events between two renders that leave the log growing: neither
    the render effect nor the CLEAR button. *)
Definition betweenRenders (ev : Event) : bool :=
  match ev with
  | EvRender | EvClear => false
  | _ => true
  end.

Definition interrupts (message : LiveServerMessage) : bool :=
  match serverContent message with
  | Some sc => interrupted sc
  | None => false
  end.

(** Every buffer of the trace is started at a time that is not negative. *)
Definition startsFromZero (eff : list Effect) : Prop :=
  Forall (fun iv => (0 <= fst iv)%Z) (intervals eff).

(** The state with the accumulator of the user's transcript emptied:
    two states with the same image differ in that accumulator at most. *)
Definition forgetInput (st : St) : St := set_currentInputTranscription EmptyString st.

(** An action that does not read the accumulator of the user's
    transcript: its calls, and every other cell of the state it leaves,
    are the same whatever text the accumulator holds. *)
Definition inputBlind (a : Action) : Prop :=
  forall st x,
    snd (a (set_currentInputTranscription x st)) = snd (a st) /\
    forgetInput (fst (a (set_currentInputTranscription x st))) = forgetInput (fst (a st)).

(** ** Further sample inputs *)

(** An environment in which the output context is suspended and
    [ctx.resume()] rejects. *)
Definition rejectingEnv : Env :=
  {| currentTime := 0%Z; dateNow := 1700000000000%Z; fault := None;
     ctxRunning := false; resumeRejects := true |}.

(** An environment whose device clock reads a negative time. *)
Definition earlyEnv : Env :=
  {| currentTime := (-5)%Z; dateNow := 1700000000000%Z; fault := None;
     ctxRunning := true; resumeRejects := false |}.

(** A message with an audio chunk and the turn-complete signal. *)
Definition lastChunkMessage (data : string) : LiveServerMessage :=
  contentMessage
    {| inlineData := Some data; outputTranscription := None; inputTranscription := None;
       turnComplete := true; interrupted := false |}.

(** A session stopped by the user in the middle of a turn. *)
Definition stoppedMidTurn : St :=
  fst (run AppTsx
         [EvMessage (quietEnv 1) (fragmentMessage "Salamat"); EvStopConversation false]
         openedSession).

(** The open session after a valid [setMood] call. *)
Definition happySession : St :=
  fst (step AppTsx (EvMessage (quietEnv 1) (setMoodMessage "call-1" "HAPPY")) openedSession).

(** A transport error, the close of the transport, a teardown segment by
    segment and a new start. *)
Definition errorAndRestart : list Event :=
  [EvError {| err_message := Some "503" |}; EvClose IDLE;
   EvCleanup SegEnter; EvCleanup SegInput; EvCleanup SegOutput; EvCleanup SegExit;
   EvStartConversation ConnectCalled].

(** A turn: a fragment, a valid [setMood] call, a fragment of the user's
    speech, a last fragment and the turn-complete signal. *)
Definition oneTurn : list Event :=
  [EvMessage (quietEnv 1) (fragmentMessage "Salamat ");
   EvMessage (quietEnv 2) (setMoodMessage "call-2" "HAPPY");
   EvMessage (quietEnv 3) (fragmentMessage "po.");
   EvMessage (quietEnv 4) turnCompleteMessage].

(** A message and a captured frame that arrive during a teardown. *)
Definition lateEvents : list Event :=
  [EvMessage (quietEnv 7) (lastChunkMessage "AAA=");
   EvSendFrame (Some aSession) {| blob_data := "AAA="; blob_mimeType := "audio/pcm;rate=16000" |}].

(** * Properties *)

Lemma AppState_eqb_eq (a b : AppState) : AppState_eqb a b = true <-> a = b.
Proof. destruct a, b; simpl; split; intro H; try reflexivity; discriminate H. Qed.

(** ** Teardown *)

Lemma cleanupResources_state (st : St) :
  fst (cleanupResources st) =
  set_isClosingRef false
    (set_sourcesRef []
       (set_outputAudioContextRef None
          (set_audioContextRef None
             (set_sessionRef None (set_isClosingRef true st))))).
Proof.
  destruct st as [s m t e mr [ses|] [ic|] [oc|] src c ci co r cl n]; reflexivity.
Qed.

Lemma cleanupResources_effects (st : St) :
  snd (cleanupResources st) =
  (optionEffects SessionClose (sessionRef st) ++
   optionEffects AudioContextClose (audioContextRef st) ++
   optionEffects AudioContextClose (outputAudioContextRef st) ++
   map SourceStop (sourcesRef st))%list.
Proof.
  destruct st as [s m t e mr [ses|] [ic|] [oc|] src c ci co r cl n]; reflexivity.
Qed.

Lemma cleanupResources_tornDown (st : St) : tornDown (fst (cleanupResources st)).
Proof. rewrite cleanupResources_state. repeat split. Qed.

Lemma andThen_fst (a b : Action) (st : St) :
  fst (andThen a b st) = fst (b (fst (a st))).
Proof. unfold andThen. destruct (a st) as [st1 e1]. simpl. destruct (b st1). reflexivity. Qed.

Lemma andThen_snd (a b : Action) (st : St) :
  snd (andThen a b st) = (snd (a st) ++ snd (b (fst (a st))))%list.
Proof. unfold andThen. destruct (a st) as [st1 e1]. simpl. destruct (b st1). reflexivity. Qed.

(** ** Transport errors *)

Lemma onerror_state (message : string) (st : St) :
  let st' := fst ((emit ConsoleError ;; pure (setErrorMessage (Some message)) ;;
                   pure (setState ERROR) ;; cleanupResources)%action st) in
  state st' = ERROR /\ errorMessage st' = Some message /\ tornDown st' /\
  transcripts st' = transcripts st /\ mood st' = mood st.
Proof.
  cbv zeta. rewrite !andThen_fst. unfold emit, pure. simpl fst.
  rewrite cleanupResources_state. repeat split.
Qed.

Lemma onerror_effects (message : string) (st : St) :
  snd ((emit ConsoleError ;; pure (setErrorMessage (Some message)) ;;
        pure (setState ERROR) ;; cleanupResources)%action st) =
  (ConsoleError :: snd (cleanupResources st))%list.
Proof.
  unfold andThen, emit, pure.
  pose proof (cleanupResources_effects (setState ERROR (setErrorMessage (Some message) st))) as H.
  rewrite (cleanupResources_effects st).
  destruct (cleanupResources (setState ERROR (setErrorMessage (Some message) st))) as [st' eff].
  simpl in *. rewrite H. reflexivity.
Qed.

(** C1, as stated, fails on [src/App.tsx]: its [onerror] shows the same
    text whatever the description of the error, so it does not tell an
    overloaded service from any other failure. *)
Lemma App_onerror_does_not_classify : ~ classifies App.onerror.
Proof.
  intros (o & g & Hne & H).
  pose proof (H {| err_message := Some "503 service unavailable" |} initial) as H1.
  pose proof (H {| err_message := Some "socket hang up" |} initial) as H2.
  vm_compute in H1, H2. congruence.
Qed.

(** C1 (amended): every transport error moves the phase to [ERROR] and
    tears the session down (transport closed, both device contexts closed,
    every playback handle stopped and the set emptied).  In
    [src/unnamed/part_000] the message is the overload text when the
    description contains [503] or [unavailable] and the generic text
    otherwise (also when the error carries no description); in
    [src/App.tsx] it is one fixed text for every description. *)
Theorem onerror_phase_teardown_message (err : TransportError) (st : St) :
  (let st' := fst (App.onerror err st) in
   state st' = ERROR /\ tornDown st' /\
   snd (App.onerror err st) = (ConsoleError :: snd (cleanupResources st))%list /\
   errorMessage st' = Some "Network stability issues. Reconnecting...") /\
  (let st' := fst (Part000.onerror err st) in
   state st' = ERROR /\ tornDown st' /\
   snd (Part000.onerror err st) = (ConsoleError :: snd (cleanupResources st))%list /\
   errorMessage st' =
   Some (if describesOverload err
         then "Salin is currently overloaded. Please wait a moment and try again."
         else "Connection encountered an issue.")).
Proof.
  split; cbv zeta.
  - unfold App.onerror.
    destruct (onerror_state "Network stability issues. Reconnecting..." st)
      as (Hs & Hm & Ht & _).
    repeat split; try assumption; try apply Ht. apply onerror_effects.
  - unfold Part000.onerror.
    assert (Part000.overloaded err = describesOverload err) as ->.
    { unfold Part000.overloaded, describesOverload.
      destruct (err_message err); [apply orb_comm | reflexivity]. }
    match goal with
    | |- context [setErrorMessage (Some ?m)] =>
        destruct (onerror_state m st) as (Hs & Hm & Ht & _)
    end.
    repeat split; try assumption; try apply Ht. apply onerror_effects.
Qed.

(** ** [onmessage] *)

Lemma setMood_setMood (m m' : MoodValue) (st : St) :
  setMood m' (setMood m st) = setMood m' st.
Proof. reflexivity. Qed.

Lemma setMood_same (st : St) : setMood (mood st) st = st.
Proof. destruct st; reflexivity. Qed.

(** The tool-call block writes no cell but [mood]. *)
Lemma handleFunctionCalls_frame wrap fcs st :
  exists m, fst (handleFunctionCalls wrap fcs st) = setMood m st.
Proof.
  revert st. induction fcs as [|fc rest IH]; intro st; simpl.
  - exists (mood st). symmetry. apply setMood_same.
  - rewrite andThen_fst.
    assert (exists m, fst (handleFunctionCall wrap fc st) = setMood m st) as [m Hm].
    { unfold handleFunctionCall, applyDetectedMood.
      destruct (isSetMood fc); simpl.
      - destruct (fc_mood fc) as [k|]; [destruct (Js.truthy k); [destruct (Mood_get k)|]|];
          (eexists; try reflexivity; symmetry; apply setMood_same).
      - exists (mood st). symmetry. apply setMood_same. }
    rewrite Hm. destruct (IH (setMood m st)) as [m' Hm']. exists m'.
    rewrite Hm'. apply setMood_setMood.
Qed.

Lemma handleToolCall_frame wrap message st :
  exists m, fst (handleToolCall wrap message st) = setMood m st.
Proof.
  unfold handleToolCall. destruct (functionCalls message).
  - apply handleFunctionCalls_frame.
  - exists (mood st). symmetry. apply setMood_same.
Qed.

Lemma playAudio_open play sc st :
  isClosingRef st = false ->
  outputAudioContextRef st <> None ->
  playAudio true play sc st =
  (fst (audioStep play sc st), snd (audioStep play sc st), true).
Proof.
  intros Hcl Hctx. unfold playAudio, audioStep. rewrite Hcl.
  destruct (audioDataOf sc) as [a|]; [|reflexivity].
  destruct (Js.truthy a); [|reflexivity]. simpl.
  destruct (outputAudioContextRef st); [|contradiction].
  destruct (play a (setState SPEAKING st)); reflexivity.
Qed.

Lemma scheduleBuffer_frame env buffer st :
  let st' := fst (scheduleBuffer env buffer st) in
  sameSession st st' /\ sameText st st' /\ state st' = state st.
Proof.
  unfold scheduleBuffer, sameSession, sameText.
  destruct (fault env) as [[]|]; cbn; repeat split; reflexivity.
Qed.

(** A buffer scheduled without a fault starts at [max(cursor, now)], moves
    the cursor to its end and joins the Active Playback Set. *)
Lemma scheduleBuffer_ok env buffer st :
  fault env = None ->
  let start := Z.max (nextStartTimeRef st) (currentTime env) in
  scheduleBuffer env buffer st =
  (set_sourcesRef (sourcesRef st ++ [nextSourceId st])
     (set_nextStartTimeRef (start + AudioUtils.duration buffer)
        (set_nextStartTimeRef start (set_nextSourceId (S (nextSourceId st)) st))),
   [SourceStart (nextSourceId st) buffer start]).
Proof. intros Hf. unfold scheduleBuffer. rewrite Hf. reflexivity. Qed.

(** A buffer whose scheduling throws is logged and joins nothing. *)
Lemma scheduleBuffer_fault env buffer st f :
  fault env = Some f ->
  let st' := fst (scheduleBuffer env buffer st) in
  snd (scheduleBuffer env buffer st) = [ConsoleError] /\
  sourcesRef st' = sourcesRef st /\
  (nextStartTimeRef st <= nextStartTimeRef st')%Z.
Proof.
  intros Hf. unfold scheduleBuffer. rewrite Hf.
  destruct f; cbn; repeat split; lia.
Qed.

Lemma decodeAudioData_duration data numChannels buffer :
  AudioUtils.decodeAudioData data numChannels = Some buffer ->
  (0 <= AudioUtils.duration buffer)%Z.
Proof.
  unfold AudioUtils.decodeAudioData.
  destruct (_ =? 0)%nat; [|discriminate].
  intros [= <-]. simpl. lia.
Qed.

Lemma scheduleBuffer_grows env buffer st :
  (0 <= AudioUtils.duration buffer)%Z ->
  let st' := fst (scheduleBuffer env buffer st) in
  incl (sourcesRef st) (sourcesRef st') /\
  (nextStartTimeRef st <= nextStartTimeRef st')%Z.
Proof.
  intros Hd. unfold scheduleBuffer.
  destruct (fault env) as [[]|]; cbn; split;
    try apply incl_refl; try (apply incl_appl, incl_refl); lia.
Qed.

Lemma App_play_cases env audioData st :
  App.play env audioData st =
  match playOutcome audioData with
  | DecodeThrows | BufferThrows _ => (st, [ConsoleError])
  | EmptyChunk => scheduleBuffer env {| AudioUtils.duration := 0 |} st
  | Built _ buffer => scheduleBuffer env buffer st
  end.
Proof.
  unfold App.play, playOutcome.
  destruct (AudioUtils.decode audioData) as [[|b raw]|]; try reflexivity.
  destruct (AudioUtils.decodeAudioData (b :: raw) 1); reflexivity.
Qed.

Lemma Part000_play_cases env audioData st :
  Part000.play env audioData st =
  match playOutcome audioData with
  | DecodeThrows | BufferThrows _ => (st, [ConsoleError])
  | EmptyChunk => (st, [])
  | Built _ buffer => scheduleBuffer env buffer st
  end.
Proof.
  unfold Part000.play, playOutcome.
  destruct (AudioUtils.decode audioData) as [[|b raw]|]; try reflexivity.
  destruct (AudioUtils.decodeAudioData (b :: raw) 1); reflexivity.
Qed.

Lemma playOutcome_duration audioData raw buffer :
  playOutcome audioData = Built raw buffer -> (0 <= AudioUtils.duration buffer)%Z.
Proof.
  unfold playOutcome.
  destruct (AudioUtils.decode audioData) as [[|b r]|]; try discriminate.
  destruct (AudioUtils.decodeAudioData (b :: r) 1) eqn:H; [|discriminate].
  intros [= _ <-]. eapply decodeAudioData_duration, H.
Qed.

Lemma App_play_frame env audioData st :
  let st' := fst (App.play env audioData st) in
  sameSession st st' /\ sameText st st' /\ state st' = state st /\
  incl (sourcesRef st) (sourcesRef st') /\
  (nextStartTimeRef st <= nextStartTimeRef st')%Z.
Proof.
  cbv zeta. rewrite App_play_cases.
  destruct (playOutcome audioData) eqn:Ho;
    try (unfold sameSession, sameText; cbn; repeat split;
         solve [reflexivity | apply incl_refl | lia]).
  - destruct (scheduleBuffer_frame env {| AudioUtils.duration := 0 |} st) as (? & ? & ?).
    destruct (scheduleBuffer_grows env {| AudioUtils.duration := 0 |} st) as (? & ?);
      [simpl; lia|]. auto.
  - destruct (scheduleBuffer_frame env buffer st) as (? & ? & ?).
    destruct (scheduleBuffer_grows env buffer st) as (? & ?);
      [eapply playOutcome_duration, Ho|]. auto.
Qed.

Lemma Part000_play_frame env audioData st :
  let st' := fst (Part000.play env audioData st) in
  sameSession st st' /\ sameText st st' /\ state st' = state st /\
  incl (sourcesRef st) (sourcesRef st') /\
  (nextStartTimeRef st <= nextStartTimeRef st')%Z.
Proof.
  cbv zeta. rewrite Part000_play_cases.
  destruct (playOutcome audioData) eqn:Ho;
    try (unfold sameSession, sameText; cbn; repeat split;
         solve [reflexivity | apply incl_refl | lia]).
  destruct (scheduleBuffer_frame env buffer st) as (? & ? & ?).
  destruct (scheduleBuffer_grows env buffer st) as (? & ?);
    [eapply playOutcome_duration, Ho|]. auto.
Qed.

Lemma handleToolCall_state wrap message st :
  fst (handleToolCall wrap message st) = setMood (toolMood wrap message st) st.
Proof.
  unfold toolMood. destruct (handleToolCall_frame wrap message st) as [m Hm].
  rewrite Hm. reflexivity.
Qed.

(** [onmessage] on an open session, block after block. *)
Lemma onmessageWith_open wrap accumulate play env message st :
  isClosingRef st = false ->
  outputAudioContextRef
    (accumulate (serverContent message) (setMood (toolMood wrap message st) st)) <> None ->
  isClosingRef
    (accumulate (serverContent message) (setMood (toolMood wrap message st) st)) = false ->
  onmessageWith wrap accumulate (playAudio true play) env message st =
  let sc := serverContent message in
  let st2 := accumulate sc (setMood (toolMood wrap message st) st) in
  let a := audioStep play sc st2 in
  let t := handleTurnEnd env sc (fst a) in
  (fst t, (snd (handleToolCall wrap message st) ++ snd a ++ snd t)%list).
Proof.
  intros Hcl Hctx Hcl2. unfold onmessageWith. rewrite Hcl.
  pose proof (handleToolCall_state wrap message st) as Hs.
  destruct (handleToolCall wrap message st) as [st1 e1]. simpl in Hs. subst st1.
  rewrite playAudio_open by assumption. cbv zeta. simpl snd.
  destruct (handleTurnEnd env (serverContent message) _); reflexivity.
Qed.

Lemma App_accumulate_frame sc st :
  let st' := App.accumulate sc st in
  sameSession st st' /\ state st' = state st /\ mood st' = mood st /\
  moodRef st' = moodRef st /\ transcripts st' = transcripts st /\
  sourcesRef st' = sourcesRef st /\ nextStartTimeRef st' = nextStartTimeRef st.
Proof.
  unfold App.accumulate, sameSession.
  destruct sc as [c|]; [destruct (outputTranscription c), (inputTranscription c)|];
    cbn; repeat split; reflexivity.
Qed.

Lemma Part000_accumulate_frame sc st :
  let st' := Part000.accumulate sc st in
  sameSession st st' /\ state st' = state st /\ mood st' = mood st /\
  moodRef st' = moodRef st /\ transcripts st' = transcripts st /\
  sourcesRef st' = sourcesRef st /\ nextStartTimeRef st' = nextStartTimeRef st.
Proof.
  unfold Part000.accumulate, sameSession.
  destruct sc as [c|]; [destruct (outputTranscription c), (inputTranscription c)|];
    cbn; repeat split; reflexivity.
Qed.

Lemma App_onmessage_open env message st :
  sessionOpen st ->
  App.onmessage env message st =
  let sc := serverContent message in
  let st2 := App.accumulate sc (setMood (toolMood ResponseObject message st) st) in
  let a := audioStep (App.play env) sc st2 in
  let t := handleTurnEnd env sc (fst a) in
  (fst t, (snd (handleToolCall ResponseObject message st) ++ snd a ++ snd t)%list).
Proof.
  intros [Hcl Hctx]. unfold App.onmessage.
  destruct (App_accumulate_frame (serverContent message)
              (setMood (toolMood ResponseObject message st) st))
    as ((_ & _ & Ho & Hc & _) & _).
  apply onmessageWith_open; [assumption| |]; cbv zeta in *.
  - rewrite Ho. exact Hctx.
  - rewrite Hc. exact Hcl.
Qed.

Lemma Part000_onmessage_open env message st :
  sessionOpen st ->
  Part000.resumed env = true ->
  Part000.onmessage env message st =
  let sc := serverContent message in
  let st2 := Part000.accumulate sc
               (setMood (toolMood (fun r => ResponseArray [r]) message st) st) in
  let a := audioStep (Part000.play env) sc st2 in
  let t := handleTurnEnd env sc (fst a) in
  (fst t, (snd (handleToolCall (fun r => ResponseArray [r]) message st) ++ snd a ++ snd t)%list).
Proof.
  intros [Hcl Hctx] Hr. unfold Part000.onmessage. rewrite Hr.
  destruct (Part000_accumulate_frame (serverContent message)
              (setMood (toolMood (fun r => ResponseArray [r]) message st) st))
    as ((_ & _ & Ho & Hc & _) & _).
  apply onmessageWith_open; [assumption| |]; cbv zeta in *.
  - rewrite Ho. exact Hctx.
  - rewrite Hc. exact Hcl.
Qed.

(** The audio block of [src/App.tsx] on a whole: it writes the phase, the
    cursor, the Active Playback Set and the allocator, and nothing else;
    the set and the cursor only grow. *)
Lemma App_audioStep_frame env sc st :
  let st' := fst (audioStep (App.play env) sc st) in
  sameSession st st' /\ sameText st st' /\
  incl (sourcesRef st) (sourcesRef st') /\
  (nextStartTimeRef st <= nextStartTimeRef st')%Z.
Proof.
  unfold audioStep.
  destruct (audioDataOf sc) as [a|];
    [destruct (Js.truthy a)|];
    try (unfold sameSession, sameText; cbn; repeat split;
         solve [reflexivity | apply incl_refl | lia]).
  destruct (App_play_frame env a (setState SPEAKING st)) as (Hs & Ht & _ & Hi & Hc).
  cbv zeta in *. repeat split; try apply Hs; try apply Ht; assumption.
Qed.

Lemma handleTurnComplete_sources env st :
  sourcesRef (handleTurnComplete env st) = sourcesRef st.
Proof.
  unfold handleTurnComplete.
  destruct (Js.truthy _); cbn; destruct (sourcesRef st) eqn:E; cbn; rewrite ?E; reflexivity.
Qed.

Lemma handleTurnEnd_interrupted env c st :
  interrupted c = true ->
  let r := handleTurnEnd env (Some c) st in
  sourcesRef (fst r) = [] /\ nextStartTimeRef (fst r) = 0%Z /\
  state (fst r) = LISTENING /\ snd r = map SourceStop (sourcesRef st).
Proof.
  intros Hi. unfold handleTurnEnd, handleInterrupted. rewrite Hi.
  destruct (turnComplete c); cbn; repeat split.
  rewrite handleTurnComplete_sources. reflexivity.
Qed.

(** C2: an [interrupted] signal handled on an open session, whatever the
    number of scheduled buffers, stops every handle of the Active Playback
    Set, leaves the set empty, puts the cursor back to 0 and the phase to
    [LISTENING]. *)
Theorem interrupted_clears_playback
    (env : Env) (message : LiveServerMessage) (sc : ServerContent) (st : St) (N : nat) :
  serverContent message = Some sc ->
  interrupted sc = true ->
  sessionOpen st ->
  length (sourcesRef st) = N ->
  let st' := fst (App.onmessage env message st) in
  let eff := snd (App.onmessage env message st) in
  (forall h, In h (sourcesRef st) -> In (SourceStop h) eff) /\
  length (sourcesRef st') = 0%nat /\
  nextStartTimeRef st' = 0%Z /\
  state st' = LISTENING.
Proof.
  intros Hsc Hint Hopen _. cbv zeta.
  rewrite App_onmessage_open by assumption. cbv zeta. rewrite Hsc. cbn [fst snd].
  destruct (handleTurnEnd_interrupted env sc
              (fst (audioStep (App.play env) (Some sc)
                      (App.accumulate (Some sc)
                         (setMood (toolMood ResponseObject message st) st)))) Hint)
    as (Hsrc & Hcur & Hst & Heff).
  cbv zeta in *. rewrite Hsrc, Hcur, Hst, Heff. repeat split.
  intros h Hin. apply in_or_app. right. apply in_or_app. right.
  apply in_map.
  destruct (App_audioStep_frame env (Some sc)
              (App.accumulate (Some sc)
                 (setMood (toolMood ResponseObject message st) st)))
    as (_ & _ & Hincl & _).
  apply Hincl.
  destruct (App_accumulate_frame (Some sc)
              (setMood (toolMood ResponseObject message st) st))
    as (_ & _ & _ & _ & _ & Hs & _).
  cbv zeta in Hs. rewrite Hs. exact Hin.
Qed.

Lemma App_accumulate_output sc m st :
  currentOutputTranscription (App.accumulate (Some sc) (setMood m st)) =
  accumulatedOutput sc st.
Proof.
  unfold App.accumulate, accumulatedOutput.
  destruct (outputTranscription sc), (inputTranscription sc); reflexivity.
Qed.

Lemma handleTurnComplete_text env st :
  let st' := handleTurnComplete env st in
  let output := Js.trim (currentOutputTranscription st) in
  transcripts st' =
  (if Js.truthy output
   then transcripts st ++
        [{| role := RoleModel; text := output;
            timestamp := dateNow env; entry_mood := moodRef st |}]
   else transcripts st)%list /\
  currentInputTranscription st' = EmptyString /\
  currentOutputTranscription st' = EmptyString.
Proof.
  unfold handleTurnComplete.
  destruct (Js.truthy _); cbn; destruct (sourcesRef st) eqn:E; cbn; rewrite ?E;
    repeat split; reflexivity.
Qed.

Lemma handleInterrupted_text st :
  let st' := fst (handleInterrupted st) in
  transcripts st' = transcripts st /\
  currentInputTranscription st' = currentInputTranscription st /\
  currentOutputTranscription st' = currentOutputTranscription st.
Proof. repeat split. Qed.

(** The turn-complete block at the end of [onmessage]: the tag of the
    entry is what [moodRef] held when the message arrived. *)
Lemma onmessage_logsTurn env message sc st :
  serverContent message = Some sc ->
  turnComplete sc = true ->
  sessionOpen st ->
  logsTurn env (Js.trim (accumulatedOutput sc st)) (moodRef st) st
    (fst (App.onmessage env message st)).
Proof.
  intros Hsc Htc Hopen. unfold logsTurn.
  rewrite App_onmessage_open by assumption. cbv zeta. rewrite Hsc. cbn [fst snd].
  set (st2 := App.accumulate (Some sc) (setMood (toolMood ResponseObject message st) st)).
  set (st3 := fst (audioStep (App.play env) (Some sc) st2)).
  destruct (App_audioStep_frame env (Some sc) st2) as (_ & (_ & Hmr & Ht & _ & Ho) & _).
  fold st3 in Hmr, Ht, Ho.
  destruct (App_accumulate_frame (Some sc)
              (setMood (toolMood ResponseObject message st) st))
    as (_ & _ & _ & Hmr2 & Ht2 & _).
  fold st2 in Hmr2, Ht2.
  change (moodRef st2 = moodRef st) in Hmr2.
  change (transcripts st2 = transcripts st) in Ht2.
  assert (currentOutputTranscription st3 = accumulatedOutput sc st) as Hacc.
  { rewrite Ho. apply App_accumulate_output. }
  destruct (handleTurnComplete_text env st3) as (Ha & Hb & Hc). cbv zeta in *.
  rewrite Hacc, Ht, Ht2, Hmr, Hmr2 in Ha.
  unfold handleTurnEnd. rewrite Htc.
  destruct (interrupted sc); cbn [fst]; [cbn|]; auto.
Qed.

(** C3, as stated, fails: the tag of the entry is not the Mood of the
    moment.  A [setMood] call followed by a turn-complete signal, with no
    render in between, leaves an entry tagged with the Mood of before the
    call while the Mood is the new one; with a render in between the
    entry carries the new Mood. *)
Lemma turn_complete_tag_lags_mood :
  let call := EvMessage (quietEnv 1) (setMoodMessage "call-1" "HAPPY") in
  let turn := EvMessage (quietEnv 2) (contentMessage (turnCompleteContent "Kumusta")) in
  let st' := fst (run AppTsx [call; turn] openedSession) in
  let st'' := fst (run AppTsx [call; EvRender; turn] openedSession) in
  mood st' = MoodOf HAPPY /\
  transcripts st' =
    [{| role := RoleModel; text := "Kumusta"; timestamp := 1700000000000%Z;
        entry_mood := MoodOf NEUTRAL |}] /\
  transcripts st'' =
    [{| role := RoleModel; text := "Kumusta"; timestamp := 1700000000000%Z;
        entry_mood := MoodOf HAPPY |}].
Proof. cbv zeta. repeat split; vm_compute; reflexivity. Qed.

(** C3 (amended): a turn-complete signal handled on an open session
    appends exactly one Transcript Log entry when the accumulated
    transcript of the remote utterance is non-empty after trimming,
    appends nothing when the trimmed text is empty, and empties both
    accumulators in either case.  The entry holds the trimmed text and the
    value of [moodRef], which is the Mood of the last render: a message
    handled right after the render effect has run is tagged with the Mood
    of that render. *)
Theorem turn_complete_appends_trimmed
    (env : Env) (message : LiveServerMessage) (sc : ServerContent) (st : St) :
  serverContent message = Some sc ->
  turnComplete sc = true ->
  sessionOpen st ->
  let output := Js.trim (accumulatedOutput sc st) in
  logsTurn env output (moodRef st) st (fst (App.onmessage env message st)) /\
  logsTurn env output (mood st) st
    (fst (App.onmessage env message (syncMoodRef st))).
Proof.
  intros Hsc Htc Hopen. cbv zeta. split.
  - apply onmessage_logsTurn; assumption.
  - apply (onmessage_logsTurn env message sc (syncMoodRef st) Hsc Htc).
    destruct Hopen as [Hcl Hctx]. split; assumption.
Qed.

Lemma onended_drained source st :
  isClosingRef st = false ->
  sourcesRef (onended source st) = [] ->
  state (onended source st) = LISTENING.
Proof.
  unfold onended. cbn. intros Hcl.
  destruct (filter (fun h => negb (h =? source)%nat) (sourcesRef st)) eqn:E;
    cbn; rewrite ?Hcl; cbn.
  - reflexivity.
  - discriminate.
Qed.

Lemma handleTurnComplete_drained env st :
  sourcesRef st = [] -> state (handleTurnComplete env st) = LISTENING.
Proof.
  unfold handleTurnComplete. intros E.
  destruct (Js.truthy _); cbn; rewrite E; reflexivity.
Qed.

(** C4: when the Active Playback Set is empty after a buffer has ended, or
    after a message with the turn-complete signal has been handled, and no
    teardown is in progress, the phase is [LISTENING]. *)
Theorem playback_drained_listening (ev : Event) (st : St) :
  drains ev = true ->
  sessionOpen st ->
  sourcesRef (fst (step AppTsx ev st)) = [] ->
  state (fst (step AppTsx ev st)) = LISTENING.
Proof.
  intros Hd Hopen. destruct ev; try discriminate Hd; cbn [step AppTsx c_onmessage].
  - simpl in Hd. destruct (serverContent message) as [sc|] eqn:Hsc; [|discriminate].
    rewrite App_onmessage_open by assumption. cbv zeta. rewrite Hsc. cbn [fst snd].
    unfold handleTurnEnd. rewrite Hd.
    destruct (interrupted sc); cbn [fst]; [reflexivity|].
    rewrite handleTurnComplete_sources. apply handleTurnComplete_drained.
  - unfold pure. cbn [fst]. apply onended_drained, Hopen.
Qed.

Lemma interrupted_clears_playback_witness :
  let st' := fst (App.onmessage (quietEnv 1) (contentMessage interruptedContent)
                    speakingSession) in
  length (sourcesRef speakingSession) = 2%nat /\
  length (sourcesRef st') = 0%nat /\ nextStartTimeRef st' = 0%Z /\
  state st' = LISTENING.
Proof.
  split; [reflexivity|].
  apply (interrupted_clears_playback (quietEnv 1) (contentMessage interruptedContent)
           interruptedContent speakingSession 2).
  - reflexivity.
  - reflexivity.
  - split; [reflexivity | discriminate].
  - reflexivity.
Defined.

Lemma turn_complete_appends_trimmed_witness :
  transcripts
    (fst (App.onmessage (quietEnv 1) (contentMessage (turnCompleteContent " Kumusta ka? "))
            openedSession)) =
  [{| role := RoleModel; text := "Kumusta ka?"; timestamp := 1700000000000%Z;
      entry_mood := MoodOf NEUTRAL |}] /\
  transcripts
    (fst (App.onmessage (quietEnv 1) (contentMessage (turnCompleteContent "   "))
            (syncMoodRef openedSession))) = [].
Proof.
  assert (sessionOpen openedSession) as Ho by (split; [reflexivity | discriminate]).
  destruct (turn_complete_appends_trimmed (quietEnv 1)
              (contentMessage (turnCompleteContent " Kumusta ka? "))
              (turnCompleteContent " Kumusta ka? ") openedSession eq_refl eq_refl Ho)
    as ((H & _) & _).
  destruct (turn_complete_appends_trimmed (quietEnv 1)
              (contentMessage (turnCompleteContent "   "))
              (turnCompleteContent "   ") openedSession eq_refl eq_refl Ho)
    as (_ & (H' & _)).
  split; [rewrite H | rewrite H']; reflexivity.
Defined.

Lemma playback_drained_listening_witness :
  state (fst (step AppTsx (EvEnded 1) (fst (step AppTsx (EvEnded 0) speakingSession)))) =
  LISTENING /\
  state (fst (step AppTsx
                (EvMessage (quietEnv 1) (contentMessage (turnCompleteContent "ok")))
                (setState SPEAKING openedSession))) = LISTENING.
Proof.
  split.
  - apply (playback_drained_listening (EvEnded 1)
             (fst (step AppTsx (EvEnded 0) speakingSession))).
    + reflexivity.
    + split; [reflexivity | discriminate].
    + reflexivity.
  - apply (playback_drained_listening
             (EvMessage (quietEnv 1) (contentMessage (turnCompleteContent "ok")))
             (setState SPEAKING openedSession)).
    + reflexivity.
    + split; [reflexivity | discriminate].
    + reflexivity.
Defined.

(** ** Tool calls *)

Lemma Mood_own_truthy k m : Mood_own k = Some m -> Js.truthy k = true.
Proof. destruct k; [discriminate | reflexivity]. Qed.

(** A [setMood] call with a member of the enumeration stores it and is
    acknowledged once. *)
Lemma setMood_call_member wrap fc k m st :
  isSetMood fc = true ->
  fc_mood fc = Some k ->
  Mood_own k = Some m ->
  handleFunctionCall wrap fc st =
  (setMood (MoodOf m) st, [SendToolResponse (wrap (acknowledgement fc))]).
Proof.
  intros Hn Hk Hm. unfold handleFunctionCall, applyDetectedMood, Mood_get.
  rewrite Hn, Hk, (Mood_own_truthy k m Hm), Hm. reflexivity.
Qed.

(** A [setMood] call with a value that is no property of the enum object
    leaves the Mood alone and is acknowledged once. *)
Lemma setMood_call_unknown wrap fc k st :
  isSetMood fc = true ->
  fc_mood fc = Some k ->
  Mood_get k = LookupUndefined ->
  handleFunctionCall wrap fc st =
  (st, [SendToolResponse (wrap (acknowledgement fc))]).
Proof.
  intros Hn Hk Hm. unfold handleFunctionCall, applyDetectedMood.
  rewrite Hn, Hk, Hm. destruct (Js.truthy k); reflexivity.
Qed.

(** C5, on the code: the [setMood] call with the value [toString], which is
    no member of the enumeration, is acknowledged once under its id, but
    the Mood does not stay what it was: [Mood["toString"]] is the function
    inherited from [Object.prototype], a truthy value, and [setMood] is
    called with it.  The same holds in both files. *)
Theorem setMood_inherited_name_changes_mood :
  let message := setMoodMessage "call-1" "toString" in
  let ack := {| fr_id := Some "call-1"; fr_name := Some "setMood"; fr_result := "ok" |} in
  Mood_own "toString" = None /\
  mood openedSession = MoodOf NEUTRAL /\
  App.onmessage (quietEnv 0) message openedSession =
    (setMood NotAMood openedSession, [SendToolResponse (ResponseObject ack)]) /\
  Part000.onmessage (quietEnv 0) message openedSession =
    (setMood NotAMood openedSession, [SendToolResponse (ResponseArray [ack])]).
Proof. repeat split. Qed.

(** ** The closing flag *)

(** C7: while the closing flag is set, a captured frame is dropped before
    it is encoded, a frame already queued behind the session promise is
    not sent, and [onmessage] returns with the state as it was and no call
    made. *)
Theorem closing_flag_makes_callbacks_noops
    (Float32Array : Type) (createPcmBlob : Float32Array -> PcmBlob)
    (inputData : Float32Array) (session : option Session) (pcmBlob : PcmBlob)
    (env : Env) (message : LiveServerMessage) (st : St) :
  isClosingRef st = true ->
  onaudioprocess Float32Array createPcmBlob inputData st = None /\
  step AppTsx (EvSendFrame session pcmBlob) st = (st, []) /\
  App.onmessage env message st = (st, []) /\
  Part000.onmessage env message st = (st, []).
Proof.
  intros Hcl. unfold onaudioprocess, App.onmessage, Part000.onmessage, onmessageWith.
  cbn [step]. unfold sendWhenReady. rewrite Hcl.
  repeat split. destruct session; reflexivity.
Qed.

Lemma closing_flag_makes_callbacks_noops_witness :
  isClosingRef closingSession = true /\
  onaudioprocess (list Z) (fun _ => {| blob_data := "AAA="; blob_mimeType := "audio/pcm" |})
    [0%Z; 1%Z] closingSession = None /\
  App.onmessage (quietEnv 3) (audioMessage "AAA=") closingSession = (closingSession, []).
Proof.
  split; [reflexivity|].
  destruct (closing_flag_makes_callbacks_noops (list Z)
              (fun _ => {| blob_data := "AAA="; blob_mimeType := "audio/pcm" |})
              [0%Z; 1%Z] (Some aSession)
              {| blob_data := "AAA="; blob_mimeType := "audio/pcm" |}
              (quietEnv 3) (audioMessage "AAA=") closingSession eq_refl)
    as (H1 & _ & H3 & _).
  split; assumption.
Defined.

(** ** The wake word *)

Lemma scanResults_spec triggers recognition rs :
  scanResults triggers recognition rs =
  if existsb (hasTrigger triggers) rs
  then [RecognitionStop recognition; CallStartConversation] else [].
Proof.
  induction rs as [|r rest IH]; simpl; [reflexivity|].
  unfold hasTrigger at 1. destruct (isFinal r && _); [reflexivity | exact IH].
Qed.

(** What [onresult] does with the finalized results of an event: one stop
    and one start when some result has a trigger, nothing otherwise. *)
Lemma onresult_spec triggers recognition event :
  onresultWith triggers recognition event =
  if existsb (hasTrigger triggers) (skipn (resultIndex event) (results event))
  then [RecognitionStop recognition; CallStartConversation] else [].
Proof. apply scanResults_spec. Qed.

Example onresult_hey_salin recognition :
  wakes (App.onresult recognition (finalResult "hey salin please start")) recognition.
Proof. reflexivity. Qed.

Example onresult_hello_there recognition :
  App.onresult recognition (finalResult "hello there") = [].
Proof. reflexivity. Qed.

(** C8, on the code: the recogniser that [toggleStandby] starts is not
    restarted when it ends, although the phase is [STANDBY].  Its [onend]
    tests the [state] constant captured when [enableWakeWord] ran, and
    [toggleStandby] runs it only when that constant is not [STANDBY]. *)
Theorem wake_word_loop_not_restarted
    (supported : bool) (id : nat) (st : St) (recognition : Recognition) :
  state (fst (App.toggleStandby supported id st)) = STANDBY ->
  recognitionRef (fst (App.toggleStandby supported id st)) = Some recognition ->
  step AppTsx (EvRecognitionEnd recognition) (fst (App.toggleStandby supported id st)) =
  (fst (App.toggleStandby supported id st), []).
Proof.
  unfold App.toggleStandby, App.enableWakeWord.
  destruct (AppState_eqb (state st) STANDBY) eqn:Hs; cbn [fst].
  - cbn. discriminate.
  - destruct supported; cbn [fst].
    + cbn. intros _ [= <-]. unfold onend. cbn. rewrite Hs. reflexivity.
    + intros H. apply AppState_eqb_eq in H. congruence.
Qed.

Lemma wake_word_loop_not_restarted_witness :
  let st := fst (App.toggleStandby true 7 initial) in
  let recognition := {| rec_id := 7; rec_state := IDLE |} in
  state st = STANDBY /\
  step AppTsx (EvRecognitionEnd recognition) st = (st, []).
Proof.
  split; [reflexivity|].
  apply (wake_word_loop_not_restarted true 7 initial {| rec_id := 7; rec_state := IDLE |});
    reflexivity.
Defined.

(** ** Chunks that fail *)

Lemma sameSession_refl st : sameSession st st.
Proof. repeat split. Qed.

Lemma sameSession_trans st1 st2 st3 :
  sameSession st1 st2 -> sameSession st2 st3 -> sameSession st1 st3.
Proof.
  unfold sameSession. intros (a1 & a2 & a3 & a4 & a5) (b1 & b2 & b3 & b4 & b5).
  repeat split; congruence.
Qed.

Lemma without_app p e1 e2 : without p e1 -> without p e2 -> without p (e1 ++ e2).
Proof. unfold without. intros H1 H2. rewrite forallb_app, H1, H2. reflexivity. Qed.

Lemma without_stops p hs :
  (forall h, p (SourceStop h) = false) -> without p (map SourceStop hs).
Proof.
  intros Hp. unfold without. induction hs as [|h hs IH]; simpl; [reflexivity|].
  rewrite Hp, IH. reflexivity.
Qed.

Lemma without_In p eff e : without p eff -> p e = true -> ~ In e eff.
Proof.
  unfold without. intros Hw Hp Hin.
  rewrite forallb_forall in Hw. specialize (Hw e Hin). rewrite Hp in Hw. discriminate.
Qed.

Lemma handleTurnEnd_session env sc st :
  let r := handleTurnEnd env sc st in
  sameSession st (fst r) /\ incl (sourcesRef (fst r)) (sourcesRef st).
Proof.
  unfold handleTurnEnd, handleInterrupted.
  destruct sc as [c|]; [|cbn; repeat split; apply incl_refl].
  assert (sameSession st (handleTurnComplete env st)) as Hs.
  { unfold handleTurnComplete, sameSession.
    destruct (Js.truthy _); cbn; destruct (sourcesRef st); cbn; repeat split. }
  destruct (turnComplete c), (interrupted c); cbn [fst snd].
  - repeat split; try apply Hs. intros x [].
  - repeat split; try apply Hs.
    rewrite handleTurnComplete_sources. apply incl_refl.
  - repeat split. intros x [].
  - repeat split. apply incl_refl.
Qed.

Lemma handleTurnEnd_effects p env sc st :
  audioOnly p -> without p (snd (handleTurnEnd env sc st)).
Proof.
  intros [_ Hp]. unfold handleTurnEnd, handleInterrupted.
  destruct sc as [c|]; [|reflexivity].
  destruct (interrupted c); [|reflexivity]. cbn [snd]. apply without_stops, Hp.
Qed.

Lemma handleFunctionCalls_effects p wrap fcs st :
  audioOnly p -> without p (snd (handleFunctionCalls wrap fcs st)).
Proof.
  intros [Hp _]. revert st.
  induction fcs as [|fc rest IH]; intro st; simpl; [reflexivity|].
  rewrite andThen_snd. apply without_app; [|apply IH].
  unfold handleFunctionCall, without. destruct (isSetMood fc); simpl; [|reflexivity].
  rewrite Hp. reflexivity.
Qed.

Lemma handleToolCall_effects p wrap message st :
  audioOnly p -> without p (snd (handleToolCall wrap message st)).
Proof.
  intros Hp. unfold handleToolCall. destruct (functionCalls message).
  - apply handleFunctionCalls_effects, Hp.
  - reflexivity.
Qed.

(** [onmessage] by cases, on a state that is not closing. *)
Lemma onmessageWith_cases wrap accumulate audio env message st :
  isClosingRef st = false ->
  onmessageWith wrap accumulate audio env message st =
  let sc := serverContent message in
  let e1 := snd (handleToolCall wrap message st) in
  let r := audio sc (accumulate sc (setMood (toolMood wrap message st) st)) in
  if snd r
  then (fst (handleTurnEnd env sc (fst (fst r))),
        (e1 ++ snd (fst r) ++ snd (handleTurnEnd env sc (fst (fst r))))%list)
  else (fst (fst r), (e1 ++ snd (fst r))%list).
Proof.
  intros Hcl. unfold onmessageWith. rewrite Hcl.
  pose proof (handleToolCall_state wrap message st) as Hs.
  destruct (handleToolCall wrap message st) as [st1 e1]. simpl in Hs. subst st1.
  cbv zeta. cbn [snd].
  destruct (audio _ _) as [[st3 e3] [|]]; cbn [fst snd]; [|reflexivity].
  destruct (handleTurnEnd env (serverContent message) st3); reflexivity.
Qed.

(** The audio block under a property [P] of the step from the state it
    finds to the state and trace it leaves. *)
Lemma playAudio_cases (P : St -> St * list Effect -> Prop) resume play sc st :
  P st (st, []) ->
  (forall a, audioDataOf sc = Some a -> P st (play a (setState SPEAKING st))) ->
  P st (fst (playAudio resume play sc st)).
Proof.
  intros H0 H1. unfold playAudio.
  destruct (audioDataOf sc) as [a|]; [|exact H0].
  destruct (Js.truthy a && negb (isClosingRef st)); [|exact H0].
  destruct (outputAudioContextRef st); [|exact H0].
  destruct resume; [|exact H0].
  specialize (H1 a eq_refl).
  destruct (play a (setState SPEAKING st)) as [s' e']. exact H1.
Qed.

(** Whatever the message, [onmessage] leaves the transport, the device
    contexts, the closing flag and the error message alone. *)
Lemma onmessageWith_session wrap accumulate resume play env message st :
  (forall sc s, sameSession s (accumulate sc s)) ->
  (forall a s, sameSession s (fst (play a s))) ->
  sameSession st
    (fst (onmessageWith wrap accumulate (playAudio resume play) env message st)).
Proof.
  intros Hacc Hplay.
  destruct (isClosingRef st) eqn:Hcl.
  - unfold onmessageWith. rewrite Hcl. apply sameSession_refl.
  - rewrite onmessageWith_cases by assumption. cbv zeta.
    set (st1 := setMood (toolMood wrap message st) st).
    set (st2 := accumulate (serverContent message) st1).
    assert (sameSession st st2) as H2.
    { apply sameSession_trans with st1; [repeat split | apply Hacc]. }
    assert (sameSession st2 (fst (fst (playAudio resume play (serverContent message) st2))))
      as H3.
    { apply (playAudio_cases (fun s r => sameSession s (fst r))).
      - apply sameSession_refl.
      - intros a _. eapply sameSession_trans; [|apply Hplay]. repeat split. }
    destruct (snd (playAudio resume play (serverContent message) st2)); cbn [fst].
    + destruct (handleTurnEnd_session env (serverContent message)
                  (fst (fst (playAudio resume play (serverContent message) st2))))
        as (H4 & _).
      eauto using sameSession_trans.
    + eauto using sameSession_trans.
Qed.



Lemma App_play_session env a s : sameSession s (fst (App.play env a s)).
Proof. apply App_play_frame. Qed.











(** ** Frame rules for actions *)

Lemma preserves_andThen {A} (f : St -> A) a b :
  preserves f a -> preserves f b -> preserves f (andThen a b).
Proof.
  intros Ha Hb st. rewrite andThen_fst, Hb, Ha. reflexivity.
Qed.

Lemma preserves_pure {A} (f : St -> A) g :
  (forall st, f (g st) = f st) -> preserves f (pure g).
Proof. intros H st. apply H. Qed.

Lemma preserves_emit {A} (f : St -> A) e : preserves f (emit e).
Proof. intros st. reflexivity. Qed.

Lemma preserves_skip {A} (f : St -> A) : preserves f skip.
Proof. intros st. reflexivity. Qed.

Lemma silent_andThen p a b : silent p a -> silent p b -> silent p (andThen a b).
Proof.
  intros Ha Hb st. rewrite andThen_snd. apply without_app; [apply Ha | apply Hb].
Qed.

Lemma silent_pure p g : silent p (pure g).
Proof. intros st. reflexivity. Qed.

Lemma silent_skip p : silent p skip.
Proof. intros st. reflexivity. Qed.

Lemma silent_emit p e : p e = false -> silent p (emit e).
Proof. intros H st. unfold without. simpl. rewrite H. reflexivity. Qed.

Lemma preserves_cleanupResources {A} (f : St -> A) :
  (forall v st, f (set_isClosingRef v st) = f st) ->
  (forall v st, f (set_sessionRef v st) = f st) ->
  (forall v st, f (set_audioContextRef v st) = f st) ->
  (forall v st, f (set_outputAudioContextRef v st) = f st) ->
  (forall v st, f (set_sourcesRef v st) = f st) ->
  preserves f cleanupResources.
Proof.
  intros H1 H2 H3 H4 H5 st. rewrite cleanupResources_state.
  rewrite H1, H5, H4, H3, H2, H1. reflexivity.
Qed.

Lemma silent_cleanupResources p :
  (forall s, p (SessionClose s) = false) ->
  (forall c, p (AudioContextClose c) = false) ->
  (forall h, p (SourceStop h) = false) ->
  silent p cleanupResources.
Proof.
  intros H1 H2 H3 st. rewrite cleanupResources_effects.
  repeat apply without_app; try apply without_stops; try assumption.
  - destruct (sessionRef st); unfold without; simpl; rewrite ?H1; reflexivity.
  - destruct (audioContextRef st); unfold without; simpl; rewrite ?H2; reflexivity.
  - destruct (outputAudioContextRef st); unfold without; simpl; rewrite ?H2; reflexivity.
Qed.

Create HintDb frame.

#[local] Hint Resolve preserves_andThen preserves_emit preserves_skip
  silent_andThen silent_pure silent_skip : frame.

#[local] Hint Extern 1 (preserves _ (pure _)) =>
  apply preserves_pure; intros; reflexivity : frame.
#[local] Hint Extern 1 (preserves _ cleanupResources) =>
  apply preserves_cleanupResources; intros; reflexivity : frame.
#[local] Hint Extern 1 (silent _ cleanupResources) =>
  apply silent_cleanupResources; intros; reflexivity : frame.
#[local] Hint Extern 1 (silent _ (emit _)) =>
  apply silent_emit; reflexivity : frame.
#[local] Hint Extern 2 (preserves _ (if ?b then _ else _)) => destruct b : frame.
#[local] Hint Extern 2 (silent _ (if ?b then _ else _)) => destruct b : frame.

(** ** The playback schedule *)

Lemma intervals_app e1 e2 : intervals (e1 ++ e2) = (intervals e1 ++ intervals e2)%list.
Proof.
  induction e1 as [|e rest IH]; simpl; [reflexivity|].
  destruct e; simpl; rewrite ?IH; reflexivity.
Qed.

Lemma intervals_without eff : without isSourceStart eff -> intervals eff = [].
Proof.
  unfold without. induction eff as [|e rest IH]; simpl; [reflexivity|].
  destruct e; simpl; try discriminate; exact IH.
Qed.

Lemma inOrder_weaken lo lo' ivs : (lo' <= lo)%Z -> inOrder lo ivs -> inOrder lo' ivs.
Proof. destruct ivs as [|[s d] rest]; simpl; [trivial|]. intros H (H1 & H2 & H3). repeat split; try assumption; lia. Qed.

Lemma inOrder_endOf lo ivs : inOrder lo ivs -> (lo <= endOf lo ivs)%Z.
Proof.
  revert lo. induction ivs as [|[s d] rest IH]; simpl; intros lo; [lia|].
  intros (H1 & H2 & H3). specialize (IH _ H3). lia.
Qed.

Lemma inOrder_app lo ivs1 ivs2 :
  inOrder lo ivs1 -> inOrder (endOf lo ivs1) ivs2 -> inOrder lo (ivs1 ++ ivs2).
Proof.
  revert lo. induction ivs1 as [|[s d] rest IH]; simpl; intros lo; [trivial|].
  intros (H1 & H2 & H3) H. repeat split; try assumption. apply IH; assumption.
Qed.

Lemma endOf_app lo ivs1 ivs2 : endOf lo (ivs1 ++ ivs2) = endOf (endOf lo ivs1) ivs2.
Proof.
  revert lo. induction ivs1 as [|[s d] rest IH]; simpl; intros lo; [reflexivity|]. apply IH.
Qed.

Lemma schedules_refl st : schedules st (st, []).
Proof. unfold schedules. simpl. repeat split; lia. Qed.

(** Two steps in a row keep the schedule in order when each does. *)
Lemma schedules_andThen st r1 r2 :
  schedules st r1 -> schedules (fst r1) r2 ->
  schedules st (fst r2, (snd r1 ++ snd r2)%list).
Proof.
  unfold schedules. intros (A1 & A2 & A3) (B1 & B2 & B3). cbn [fst snd].
  rewrite intervals_app, endOf_app. repeat split.
  - lia.
  - apply inOrder_app; [assumption|]. eapply inOrder_weaken; eassumption.
  - pose proof (inOrder_endOf _ _ B2).
    destruct (intervals (snd r2)) as [|[s d] rest] eqn:E.
    + simpl in *. lia.
    + simpl in *. exact B3.
Qed.

(** A step that leaves the cursor alone and starts nothing. *)
Lemma schedules_idle st r :
  nextStartTimeRef (fst r) = nextStartTimeRef st ->
  without isSourceStart (snd r) ->
  schedules st r.
Proof.
  unfold schedules. intros H1 H2. rewrite (intervals_without _ H2), H1. simpl.
  repeat split; lia.
Qed.

Lemma scheduleBuffer_schedules env buffer st :
  (0 <= AudioUtils.duration buffer)%Z -> schedules st (scheduleBuffer env buffer st).
Proof.
  intros Hd. unfold schedules, scheduleBuffer.
  destruct (fault env) as [[]|]; cbn; repeat split; lia.
Qed.

Lemma App_play_schedules env audioData st :
  schedules st (App.play env audioData st).
Proof.
  rewrite App_play_cases. destruct (playOutcome audioData) eqn:Ho.
  - apply schedules_idle; reflexivity.
  - apply scheduleBuffer_schedules. simpl. lia.
  - apply schedules_idle; reflexivity.
  - apply scheduleBuffer_schedules. eapply playOutcome_duration, Ho.
Qed.

Lemma handleTurnEnd_quiet env sc st :
  match sc with Some c => interrupted c | None => false end = false ->
  nextStartTimeRef (fst (handleTurnEnd env sc st)) = nextStartTimeRef st /\
  snd (handleTurnEnd env sc st) = [].
Proof.
  unfold handleTurnEnd. destruct sc as [c|]; [|split; reflexivity].
  intros ->. split; [|reflexivity]. cbn [fst].
  destruct (turnComplete c); [|reflexivity].
  unfold handleTurnComplete. destruct (Js.truthy _); cbn; destruct (sourcesRef st); reflexivity.
Qed.

(** A message without the [interrupted] signal keeps the schedule in
    order. *)
Lemma App_onmessage_schedules env message st :
  isInterruption (EvMessage env message) = false ->
  schedules st (App.onmessage env message st).
Proof.
  intros Hi. simpl in Hi. unfold App.onmessage.
  destruct (isClosingRef st) eqn:Hcl.
  - unfold onmessageWith. rewrite Hcl. apply schedules_refl.
  - rewrite onmessageWith_cases by assumption. cbv zeta.
    set (st2 := App.accumulate (serverContent message)
                  (setMood (toolMood ResponseObject message st) st)).
    assert (nextStartTimeRef st2 = nextStartTimeRef st) as H2.
    { unfold st2. destruct (App_accumulate_frame (serverContent message)
                              (setMood (toolMood ResponseObject message st) st))
        as (_ & _ & _ & _ & _ & _ & ->). reflexivity. }
    pose proof (handleToolCall_effects isSourceStart ResponseObject message st
                  (conj (fun _ => eq_refl) (fun _ => eq_refl))) as He1.
    assert (schedules st2 (fst (playAudio true (App.play env) (serverContent message) st2)))
      as H3.
    { apply (playAudio_cases schedules).
      - apply schedules_refl.
      - intros a _. pose proof (App_play_schedules env a (setState SPEAKING st2)) as H.
        exact H. }
    set (r := playAudio true (App.play env) (serverContent message) st2) in *.
    assert (schedules st (fst (fst r), (snd (handleToolCall ResponseObject message st) ++
                                        snd (fst r))%list)) as H4.
    { unfold schedules in *. cbn [fst snd]. rewrite intervals_app.
      rewrite (intervals_without _ He1). simpl. rewrite <- H2. exact H3. }
    destruct (snd r); [|exact H4].
    destruct (handleTurnEnd_quiet env (serverContent message) (fst (fst r)) Hi) as [H5 H6].
    rewrite H6, app_nil_r.
    unfold schedules in *. cbn [fst snd] in *. rewrite H5. exact H4.
Qed.

(** ** Every other callback *)

Lemma preserves_fun {A} (f : St -> A) (e : St -> list Effect) :
  preserves f (fun st => (st, e st)).
Proof. intros st. reflexivity. Qed.

Lemma onended_frame source st :
  nextStartTimeRef (onended source st) = nextStartTimeRef st /\
  transcripts (onended source st) = transcripts st.
Proof.
  unfold onended. cbn.
  destruct (filter (fun h => negb (h =? source)%nat) (sourcesRef st));
    [destruct (negb (isClosingRef st))|]; split; reflexivity.
Qed.

Lemma onclose_frame captured st :
  nextStartTimeRef (onclose captured st) = nextStartTimeRef st /\
  transcripts (onclose captured st) = transcripts st.
Proof. destruct captured; split; reflexivity. Qed.

Lemma onresultWith_silent p triggers recognition event :
  p (RecognitionStop recognition) = false ->
  p CallStartConversation = false ->
  without p (onresultWith triggers recognition event).
Proof.
  intros H1 H2. rewrite onresult_spec. destruct (existsb _ _); [|reflexivity].
  unfold without. simpl. rewrite H1, H2. reflexivity.
Qed.

Lemma toggleStandby_frame {A} (f : St -> A) p (c : Component) supported id :
  c = AppTsx \/ c = Part000Tsx ->
  (forall v st, f (setState v st) = f st) ->
  (forall v st, f (set_recognitionRef v st) = f st) ->
  (forall v st, f (setErrorMessage v st) = f st) ->
  (forall r, p (RecognitionStart r) = false) ->
  (forall r, p (RecognitionStop r) = false) ->
  preserves f (c_toggleStandby c supported id) /\
  silent p (c_toggleStandby c supported id).
Proof.
  intros Hc H1 H2 H3 H4 H5.
  split; intros st; destruct Hc as [-> | ->]; cbn [c_toggleStandby AppTsx Part000Tsx];
    unfold App.toggleStandby, Part000.toggleStandby, App.enableWakeWord,
      Part000.enableWakeWord;
    destruct (AppState_eqb (state st) STANDBY), supported; cbn [fst snd];
    rewrite ?H1, ?H2, ?H3; try reflexivity;
    unfold without; try (destruct (recognitionRef st)); simpl; rewrite ?H4, ?H5; reflexivity.
Qed.

Lemma startConversation_frame {A} (f : St -> A) p (c : Component) outcome :
  c = AppTsx \/ c = Part000Tsx ->
  preserves f cleanupResources ->
  silent p cleanupResources ->
  (forall v st, f (setState v st) = f st) ->
  (forall v st, f (setErrorMessage v st) = f st) ->
  (forall st, f (openContexts st) = f st) ->
  p ConsoleError = false ->
  (forall ms, p (SetTimeout ms) = false) ->
  (forall r, p (RecognitionStop r) = false) ->
  (preserves f (c_startConversation c outcome) /\
   silent p (c_startConversation c outcome)) /\
  (forall m, preserves f (c_sessionRejected c m) /\ silent p (c_sessionRejected c m)) /\
  (forall err, preserves f (c_onerror c err) /\ silent p (c_onerror c err)).
Proof.
  intros Hc Hcl Hsl H1 H2 H3 H4 H5 H6.
  assert (preserves f Part000.stopRecognition /\ silent p Part000.stopRecognition)
    as [Hr1 Hr2].
  { split; intros st; unfold Part000.stopRecognition; [reflexivity|].
    cbn [snd]. destruct (recognitionRef st); unfold without; simpl; rewrite ?H6; reflexivity. }
  assert (forall v, preserves f (pure (setState v))) as P1
    by (intros v; apply preserves_pure, H1).
  assert (forall v, preserves f (pure (setErrorMessage v))) as P2
    by (intros v; apply preserves_pure, H2).
  assert (preserves f (pure openContexts)) as P3 by (apply preserves_pure, H3).
  assert (silent p (emit ConsoleError)) as S1 by (apply silent_emit, H4).
  assert (forall ms, silent p (emit (SetTimeout ms))) as S2
    by (intros ms; apply silent_emit, H5).
  destruct Hc as [-> | ->];
    cbn [c_startConversation c_sessionRejected c_onerror AppTsx Part000Tsx];
    unfold App.sessionRejected, Part000.sessionRejected, App.startConversation,
      Part000.startConversation, App.startFailed, Part000.startFailed,
      App.onerror, Part000.onerror;
    (split; [destruct outcome|split; intros]); split; auto 15 with frame.
Qed.

Lemma cleanupSegment_frame seg st :
  nextStartTimeRef (fst (cleanupSegment seg st)) = nextStartTimeRef st /\
  transcripts (fst (cleanupSegment seg st)) = transcripts st /\
  without isSourceStart (snd (cleanupSegment seg st)).
Proof.
  destruct seg; unfold cleanupSegment, cleanup_enter, cleanup_input, cleanup_output,
    cleanup_exit; cbn.
  - destruct (sessionRef st); repeat split.
  - destruct (audioContextRef st); repeat split.
  - destruct (outputAudioContextRef st); repeat split.
  - repeat split. apply without_stops. reflexivity.
Qed.

(** Outside [onmessage], no callback of either file moves the cursor or
    starts a buffer. *)
Lemma step_keeps_cursor c ev st :
  isFile c ->
  isMessage ev = false ->
  nextStartTimeRef (fst (step c ev st)) = nextStartTimeRef st /\
  without isSourceStart (snd (step c ev st)).
Proof.
  intros Hc Hm.
  assert (preserves nextStartTimeRef cleanupResources) as Hcl by auto with frame.
  assert (silent isSourceStart cleanupResources) as Hsl by auto with frame.
  pose proof (fun outcome =>
                startConversation_frame nextStartTimeRef isSourceStart c outcome Hc Hcl Hsl
                  (fun _ _ => eq_refl) (fun _ _ => eq_refl) (fun _ => eq_refl)
                  eq_refl (fun _ => eq_refl) (fun _ => eq_refl)) as Hstart.
  pose proof (fun supported id =>
                toggleStandby_frame nextStartTimeRef isSourceStart c supported id Hc
                  (fun _ _ => eq_refl) (fun _ _ => eq_refl) (fun _ _ => eq_refl)
                  (fun _ => eq_refl) (fun _ => eq_refl)) as Htoggle.
  destruct ev; try discriminate Hm; cbn [step].
  - destruct (Hstart outcome) as ((A & B) & _). split; [apply A | apply B].
  - destruct Hc as [-> | ->]; split; reflexivity.
  - destruct (Hstart MissingApiKey) as (_ & H & _).
    destruct (H message) as (A & B). split; [apply A | apply B].
  - assert (preserves nextStartTimeRef (stopConversation forceSleep) /\
            silent isSourceStart (stopConversation forceSleep)) as (A & B).
    { unfold stopConversation. destruct forceSleep; split; auto 12 with frame. }
    split; [apply A | apply B].
  - split; reflexivity.
  - split; reflexivity.
  - split; [reflexivity|]. cbn [snd]. unfold sendWhenReady.
    destruct session, (isClosingRef st); reflexivity.
  - split; [apply onended_frame | reflexivity].
  - destruct (Hstart MissingApiKey) as (_ & _ & H).
    destruct (H err) as (A & B). split; [apply A | apply B].
  - split; [apply onclose_frame | reflexivity].
  - destruct (Htoggle supported id) as (A & B). split; [apply A | apply B].
  - split; [reflexivity|]. cbn [snd].
    destruct Hc as [-> | ->]; apply onresultWith_silent; reflexivity.
  - split; [reflexivity|]. cbn [snd]. unfold onend.
    destruct (AppState_eqb _ _); reflexivity.
  - split; reflexivity.
  - split; reflexivity.
  - split; reflexivity.
  - destruct (cleanupSegment_frame seg st) as (H1 & _ & H3). split; assumption.
Qed.

(** Outside [onmessage] and the CLEAR button, no callback of either file
    writes the Transcript Log. *)
Lemma step_keeps_log c ev st :
  isFile c ->
  isMessage ev = false ->
  isClear ev = false ->
  transcripts (fst (step c ev st)) = transcripts st.
Proof.
  intros Hc Hm Hcr.
  assert (preserves transcripts cleanupResources) as Hcl by auto with frame.
  assert (silent isSourceStart cleanupResources) as Hsl by auto with frame.
  pose proof (fun outcome =>
                startConversation_frame transcripts isSourceStart c outcome Hc Hcl Hsl
                  (fun _ _ => eq_refl) (fun _ _ => eq_refl) (fun _ => eq_refl)
                  eq_refl (fun _ => eq_refl) (fun _ => eq_refl)) as Hstart.
  pose proof (fun supported id =>
                toggleStandby_frame transcripts isSourceStart c supported id Hc
                  (fun _ _ => eq_refl) (fun _ _ => eq_refl) (fun _ _ => eq_refl)
                  (fun _ => eq_refl) (fun _ => eq_refl)) as Htoggle.
  destruct ev; try discriminate Hm; try discriminate Hcr; cbn [step].
  - destruct (Hstart outcome) as ((A & _) & _). apply A.
  - destruct Hc as [-> | ->]; reflexivity.
  - destruct (Hstart MissingApiKey) as (_ & H & _). apply (H message).
  - assert (preserves transcripts (stopConversation forceSleep)) as A.
    { unfold stopConversation. destruct forceSleep; auto 12 with frame. }
    apply A.
  - reflexivity.
  - reflexivity.
  - reflexivity.
  - apply onended_frame.
  - destruct (Hstart MissingApiKey) as (_ & _ & H). apply (H err).
  - apply onclose_frame.
  - destruct (Htoggle supported id) as (A & _). apply A.
  - reflexivity.
  - reflexivity.
  - reflexivity.
  - reflexivity.
  - apply cleanupSegment_frame.
Qed.

Lemma andThen_eq (a b : Action) st :
  andThen a b st = (fst (b (fst (a st))), (snd (a st) ++ snd (b (fst (a st))))%list).
Proof. unfold andThen. destruct (a st) as [st1 e1]. simpl. destruct (b st1). reflexivity. Qed.

Lemma step_schedules ev st :
  isInterruption ev = false -> schedules st (step AppTsx ev st).
Proof.
  intros Hi. destruct (isMessage ev) eqn:Hm.
  - destruct ev; try discriminate Hm. apply App_onmessage_schedules, Hi.
  - destruct (step_keeps_cursor AppTsx ev st (or_introl eq_refl) Hm) as [H1 H2].
    apply schedules_idle; assumption.
Qed.

(** Over a run with no interruption the cursor never goes back and the
    buffers started never overlap. *)
Lemma run_schedules evs st :
  forallb (fun ev => negb (isInterruption ev)) evs = true ->
  schedules st (run AppTsx evs st).
Proof.
  revert st. induction evs as [|ev rest IH]; intros st H; simpl in *.
  - apply schedules_refl.
  - apply andb_prop in H as [H1 H2]. apply negb_true_iff in H1.
    rewrite andThen_eq. apply schedules_andThen.
    + apply step_schedules, H1.
    + apply IH, H2.
Qed.

Lemma playOutcome_truthy a raw b : playOutcome a = Built raw b -> Js.truthy a = true.
Proof. destruct a; [discriminate | reflexivity]. Qed.

(** One playable chunk on an open session: the buffer starts at
    [max(cursor, now)], the cursor moves to its end, the session stays
    open. *)
Lemma App_onmessage_audio env a raw b st :
  sessionOpen st ->
  playOutcome a = Built raw b ->
  fault env = None ->
  let start := Z.max (nextStartTimeRef st) (currentTime env) in
  let r := App.onmessage env (audioMessage a) st in
  snd r = [SourceStart (nextSourceId st) b start] /\
  nextStartTimeRef (fst r) = (start + AudioUtils.duration b)%Z /\
  sourcesRef (fst r) = (sourcesRef st ++ [nextSourceId st])%list /\
  sessionOpen (fst r).
Proof.
  intros Hopen Ho Hf. cbv zeta.
  rewrite App_onmessage_open by assumption. cbv zeta.
  unfold toolMood, audioMessage, handleToolCall, skip. cbn [functionCalls serverContent fst snd].
  rewrite setMood_same.
  unfold App.accumulate, audioStep, audioDataOf, handleTurnEnd.
  cbn [inlineData outputTranscription inputTranscription turnComplete interrupted].
  rewrite (playOutcome_truthy a raw b Ho), App_play_cases, Ho.
  rewrite scheduleBuffer_ok by assumption. cbn [fst snd app].
  destruct Hopen as [Hcl Hctx]. repeat split; assumption.
Qed.

(** On an open session, a run of playable chunks is scheduled as the spec
    has it. *)
Lemma run_audio_refines chunks st :
  sessionOpen st ->
  forallb playable chunks = true ->
  let r := run AppTsx (audioEvents chunks) st in
  intervals (snd r) = specSchedule (nextStartTimeRef st) (map arrival chunks) /\
  nextStartTimeRef (fst r) =
    endOf (nextStartTimeRef st) (specSchedule (nextStartTimeRef st) (map arrival chunks)).
Proof.
  revert st. induction chunks as [|[env a] rest IH]; intros st Hopen Hp; simpl in *.
  - split; reflexivity.
  - apply andb_prop in Hp as [Hp1 Hp2]. unfold playable in Hp1. cbn [fst snd] in Hp1.
    destruct (playOutcome a) as [| | |raw b] eqn:Ho; try discriminate.
    destruct (fault env) eqn:Hf; [discriminate|].
    destruct (App_onmessage_audio env a raw b st Hopen Ho Hf) as (He & Hc & _ & Hopen').
    rewrite andThen_eq. cbn [fst snd step AppTsx c_onmessage].
    destruct (IH _ Hopen' Hp2) as [IH1 IH2].
    rewrite intervals_app, He, IH1, IH2, Hc.
    unfold arrival at 1 3. unfold chunkDuration. cbn [fst snd]. rewrite Ho.
    split; reflexivity.
Qed.

Lemma specSchedule_inOrder cursor arrivals :
  Forall (fun x => (0 <= snd x)%Z) arrivals ->
  inOrder cursor (specSchedule cursor arrivals).
Proof.
  revert cursor. induction arrivals as [|[now d] rest IH]; intros cursor H; simpl; [trivial|].
  inversion H; subst. simpl in *. repeat split; try lia. apply IH. assumption.
Qed.

(** C6, as stated, fails: a buffer that arrives after the device clock
    has passed the cursor starts at the clock reading, not at the end of
    the buffer before it.  Three buffers of one frame each, the first
    scheduled at clock 0 and the others at clock 5, start at 0, 5 and 6. *)
Lemma late_buffer_starts_at_clock :
  let chunks := [(quietEnv 0, "AAA="); (quietEnv 5, "AAA="); (quietEnv 5, "AAA=")] in
  let t := Z.max (nextStartTimeRef openedSession) 0 in
  let d := chunkDuration "AAA=" in
  startTimes (snd (run AppTsx (audioEvents chunks) openedSession)) = [0; 5; 6]%Z /\
  startTimes (snd (run AppTsx (audioEvents chunks) openedSession)) <>
  [t; t + d; t + d + d]%Z.
Proof. split; [reflexivity | discriminate]. Qed.

(** C6 (amended): each buffer starts at [max(cursor, deviceClockNow)] and
    the cursor then advances by its duration, so a run of buffers is
    scheduled as [specSchedule] has it; over any run without an
    interruption the cursor never goes back and the buffers started never
    overlap, each one starting no earlier than the end of the one before;
    three buffers start at [t], [t + d1] and [t + d1 + d2] when the device
    clock has not passed the cursor as the second and the third are
    scheduled. *)
Theorem playback_schedule_in_order :
  (forall evs st,
     forallb (fun ev => negb (isInterruption ev)) evs = true ->
     let r := run AppTsx evs st in
     (nextStartTimeRef st <= nextStartTimeRef (fst r))%Z /\
     inOrder (nextStartTimeRef st) (intervals (snd r))) /\
  (forall chunks st,
     sessionOpen st ->
     forallb playable chunks = true ->
     intervals (snd (run AppTsx (audioEvents chunks) st)) =
     specSchedule (nextStartTimeRef st) (map arrival chunks)) /\
  (forall c1 c2 c3 st,
     sessionOpen st ->
     forallb playable [c1; c2; c3] = true ->
     let t := Z.max (nextStartTimeRef st) (currentTime (fst c1)) in
     let d1 := chunkDuration (snd c1) in
     let d2 := chunkDuration (snd c2) in
     (currentTime (fst c2) <= t + d1)%Z ->
     (currentTime (fst c3) <= t + d1 + d2)%Z ->
     startTimes (snd (run AppTsx (audioEvents [c1; c2; c3]) st)) =
     [t; t + d1; t + d1 + d2]%Z).
Proof.
  split; [|split].
  - intros evs st H. cbv zeta.
    destruct (run_schedules evs st H) as (H1 & H2 & _). split; assumption.
  - intros chunks st Hopen Hp. apply (run_audio_refines chunks st Hopen Hp).
  - intros c1 c2 c3 st Hopen Hp. cbv zeta. intros H2 H3.
    unfold startTimes.
    destruct (run_audio_refines [c1; c2; c3] st Hopen Hp) as [-> _].
    simpl. unfold arrival. cbn [fst snd].
    rewrite (Z.max_l _ _ H2), (Z.max_l _ _ H3). reflexivity.
Qed.

Lemma playback_schedule_in_order_witness :
  let c := (quietEnv 0, "AAA=") in
  startTimes (snd (run AppTsx (audioEvents [c; c; c]) openedSession)) = [0; 1; 2]%Z /\
  inOrder 0 (intervals (snd (run AppTsx (audioEvents [c; (quietEnv 5, "AAA="); c])
                               openedSession))).
Proof.
  destruct playback_schedule_in_order as (H1 & _ & H3).
  split.
  - apply (H3 (quietEnv 0, "AAA=") (quietEnv 0, "AAA=") (quietEnv 0, "AAA=") openedSession).
    + split; [reflexivity | discriminate].
    + reflexivity.
    + cbv. discriminate.
    + cbv. discriminate.
  - apply (H1 (audioEvents [(quietEnv 0, "AAA="); (quietEnv 5, "AAA="); (quietEnv 0, "AAA=")])
             openedSession).
    reflexivity.
Defined.

(** ** The Transcript Log *)

Lemma handleTurnEnd_log env sc st :
  exists added, transcripts (fst (handleTurnEnd env sc st)) = (transcripts st ++ added)%list.
Proof.
  unfold handleTurnEnd. destruct sc as [c|]; [|exists []; symmetry; apply app_nil_r].
  assert (exists added, transcripts (handleTurnComplete env st) = (transcripts st ++ added)%list)
    as [added Ha].
  { destruct (handleTurnComplete_text env st) as (H & _). cbv zeta in H. rewrite H.
    destruct (Js.truthy _); eexists; [reflexivity | symmetry; apply app_nil_r]. }
  destruct (turnComplete c), (interrupted c); cbn [fst handleInterrupted];
    first [ exists added; exact Ha | exists []; symmetry; apply app_nil_r ].
Qed.

(** [onmessage] only ever appends to the Transcript Log. *)
Lemma onmessageWith_log wrap accumulate resume play env message st :
  (forall sc s, transcripts (accumulate sc s) = transcripts s) ->
  (forall a s, transcripts (fst (play a s)) = transcripts s) ->
  exists added,
    transcripts (fst (onmessageWith wrap accumulate (playAudio resume play) env message st)) =
    (transcripts st ++ added)%list.
Proof.
  intros Hacc Hplay.
  destruct (isClosingRef st) eqn:Hcl.
  - unfold onmessageWith. rewrite Hcl. exists []. symmetry. apply app_nil_r.
  - rewrite onmessageWith_cases by assumption. cbv zeta.
    set (st2 := accumulate (serverContent message)
                  (setMood (toolMood wrap message st) st)).
    assert (transcripts st2 = transcripts st) as H2 by (unfold st2; rewrite Hacc; reflexivity).
    assert (transcripts (fst (fst (playAudio resume play (serverContent message) st2))) =
            transcripts st2) as H3.
    { apply (playAudio_cases (fun s r => transcripts (fst r) = transcripts s)).
      - reflexivity.
      - intros a _. rewrite Hplay. reflexivity. }
    destruct (snd (playAudio resume play (serverContent message) st2)); cbn [fst].
    + destruct (handleTurnEnd_log env (serverContent message)
                  (fst (fst (playAudio resume play (serverContent message) st2))))
        as [added Ha].
      exists added. rewrite Ha, H3, H2. reflexivity.
    + exists []. rewrite H3, H2. symmetry. apply app_nil_r.
Qed.

Lemma step_log c ev st :
  isFile c ->
  isClear ev = false ->
  exists added, transcripts (fst (step c ev st)) = (transcripts st ++ added)%list.
Proof.
  intros Hc Hcr. destruct (isMessage ev) eqn:Hm.
  - destruct ev; try discriminate Hm. cbn [step].
    destruct Hc as [-> | ->]; cbn [c_onmessage AppTsx Part000Tsx];
      apply onmessageWith_log; intros;
      first [ apply App_accumulate_frame | apply Part000_accumulate_frame
            | apply App_play_frame | apply Part000_play_frame ].
  - exists []. rewrite app_nil_r. apply step_keeps_log; assumption.
Qed.

(** C10, as stated, fails: the CLEAR button empties the Transcript Log, so
    an entry that was in the log before that operation is not in it
    afterward. *)
Lemma clear_button_empties_log :
  In (modelEntry "Kumusta") (transcripts afterOneTurn) /\
  ~ In (modelEntry "Kumusta") (transcripts (fst (step AppTsx EvClear afterOneTurn))).
Proof. split; [left; reflexivity | intros []]. Qed.

(** C10 (amended): over any sequence of operations of either file that
    does not include the CLEAR button, the Transcript Log only grows at
    its end: the entries it held are still there, unchanged and in the
    same positions.  The CLEAR button replaces the log by the empty
    list. *)
Theorem transcript_log_append_only (c : Component) (evs : list Event) (st : St) :
  isFile c ->
  forallb (fun ev => negb (isClear ev)) evs = true ->
  (exists added, transcripts (fst (run c evs st)) = (transcripts st ++ added)%list) /\
  transcripts (fst (step c EvClear (fst (run c evs st)))) = [].
Proof.
  intros Hc H. split; [|reflexivity].
  revert st. induction evs as [|ev rest IH]; intros st; simpl in *.
  - exists []. symmetry. apply app_nil_r.
  - apply andb_prop in H as [H1 H2]. apply negb_true_iff in H1.
    rewrite andThen_fst.
    destruct (step_log c ev st Hc H1) as [a1 Ha1].
    destruct (IH H2 (fst (step c ev st))) as [a2 Ha2].
    exists (a1 ++ a2)%list. rewrite Ha2, Ha1, app_assoc. reflexivity.
Qed.

Lemma transcript_log_append_only_witness :
  exists added,
    transcripts
      (fst (run Part000Tsx
              [EvMessage (quietEnv 2) (contentMessage (turnCompleteContent "Salamat"));
               EvError {| err_message := Some "503" |};
               EvStartConversation ConnectCalled]
              afterOneTurn)) =
    (transcripts afterOneTurn ++ added)%list.
Proof.
  apply (transcript_log_append_only Part000Tsx
           [EvMessage (quietEnv 2) (contentMessage (turnCompleteContent "Salamat"));
            EvError {| err_message := Some "503" |};
            EvStartConversation ConnectCalled]
           afterOneTurn).
  - right. reflexivity.
  - reflexivity.
Defined.

(** * Further properties of the code *)

(** ** JavaScript strings *)

Lemma append_nil_r (s : string) : s ++ "" = s.
Proof. induction s as [|c s IH]; simpl; [reflexivity | rewrite IH; reflexivity]. Qed.

Lemma append_assoc_js (a b c : string) : (a ++ b) ++ c = a ++ (b ++ c).
Proof. induction a as [|x a IH]; simpl; [reflexivity | rewrite IH; reflexivity]. Qed.

Lemma prefix_spec (t s : string) :
  String.prefix t s = true <-> exists q, s = t ++ q.
Proof.
  revert s. induction t as [|c t IH]; intros s; simpl.
  - split; [intros _; exists s; reflexivity | destruct s; reflexivity].
  - destruct s as [|d s]; simpl.
    + split; [discriminate | intros [q Hq]; discriminate].
    + destruct (ascii_dec c d) as [-> | Hne].
      * split.
        -- intros H. apply IH in H as [q Hq]. exists q. rewrite Hq. reflexivity.
        -- intros [q Hq]. apply IH. exists q. injection Hq as ->. reflexivity.
      * split; [discriminate | intros [q Hq]]. injection Hq as -> _. contradiction.
Qed.

Lemma includes_unfold (s t : string) :
  Js.includes s t =
  if String.prefix t s then true
  else match s with
       | EmptyString => false
       | String _ s' => Js.includes s' t
       end.
Proof. destruct s; reflexivity. Qed.

(** [s.includes(t)] holds exactly when [t] occurs in [s]. *)
Lemma includes_spec (s t : string) :
  Js.includes s t = true <-> exists p q, s = p ++ t ++ q.
Proof.
  induction s as [|c s IH]; rewrite includes_unfold.
  - destruct (String.prefix t "") eqn:Hp.
    + split; [intros _|reflexivity]. apply prefix_spec in Hp as [q Hq].
      exists "", q. exact Hq.
    + split; [discriminate|]. intros (p & q & H).
      destruct p; [|discriminate]. simpl in H.
      assert (String.prefix t "" = true) as Hp' by (apply prefix_spec; exists q; exact H).
      rewrite Hp in Hp'. discriminate.
  - destruct (String.prefix t (String c s)) eqn:Hp.
    + split; [intros _|reflexivity]. apply prefix_spec in Hp as [q Hq].
      exists "", q. exact Hq.
    + split.
      * intros H. apply IH in H as (p & q & ->). exists (String c p), q. reflexivity.
      * intros (p & q & H). apply IH. destruct p as [|d p].
        -- simpl in H.
           assert (String.prefix t (String c s) = true) as Hp'
             by (apply prefix_spec; exists q; exact H).
           rewrite Hp in Hp'. discriminate.
        -- injection H as -> ->. exists p, q. reflexivity.
Qed.

Lemma includes_suffix (s a b : string) :
  Js.includes s (a ++ b) = true -> Js.includes s b = true.
Proof.
  intros H. apply includes_spec in H as (p & q & ->). apply includes_spec.
  exists (p ++ a), q. rewrite !append_assoc_js. reflexivity.
Qed.

Lemma lowerChar_idem (c : ascii) : Js.lowerChar (Js.lowerChar c) = Js.lowerChar c.
Proof.
  destruct c as [[] [] [] [] [] [] [] []]; reflexivity.
Qed.

Lemma toLowerCase_idem (s : string) : Js.toLowerCase (Js.toLowerCase s) = Js.toLowerCase s.
Proof.
  induction s as [|c s IH]; simpl; [reflexivity|]. rewrite lowerChar_idem, IH. reflexivity.
Qed.

Lemma trimStart_head (s : string) :
  match Js.trimStart s with
  | EmptyString => True
  | String c _ => Js.isWhiteSpace c = false
  end.
Proof.
  induction s as [|c s IH]; simpl; [trivial|].
  destruct (Js.isWhiteSpace c) eqn:Hc; [exact IH | exact Hc].
Qed.

Lemma trimStart_fixed (s : string) :
  match s with
  | EmptyString => True
  | String c _ => Js.isWhiteSpace c = false
  end ->
  Js.trimStart s = s.
Proof. destruct s as [|c s]; simpl; [reflexivity|]. intros ->. reflexivity. Qed.

Lemma trimEnd_head (c : ascii) (s : string) :
  Js.isWhiteSpace c = false -> exists r, Js.trimEnd (String c s) = String c r.
Proof.
  intros Hc. simpl. destruct (Js.trimEnd s) as [|d r].
  - rewrite Hc. exists "". reflexivity.
  - exists (String d r). reflexivity.
Qed.

Lemma trimEnd_idem (s : string) : Js.trimEnd (Js.trimEnd s) = Js.trimEnd s.
Proof.
  induction s as [|c s IH]; simpl; [reflexivity|].
  destruct (Js.trimEnd s) as [|d r] eqn:E.
  - destruct (Js.isWhiteSpace c) eqn:Hc; simpl; [reflexivity|]. rewrite Hc. reflexivity.
  - simpl in *. rewrite IH. reflexivity.
Qed.

(** [trim] is idempotent: a trimmed text has nothing left to trim. *)
Lemma trim_idem (s : string) : Js.trim (Js.trim s) = Js.trim s.
Proof.
  unfold Js.trim.
  assert (Js.trimStart (Js.trimEnd (Js.trimStart s)) = Js.trimEnd (Js.trimStart s)) as ->.
  { apply trimStart_fixed. pose proof (trimStart_head s) as H.
    destruct (Js.trimStart s) as [|c r]; simpl; [trivial|].
    destruct (trimEnd_head c r H) as [r' Hr]. simpl in Hr. rewrite Hr. exact H. }
  apply trimEnd_idem.
Qed.

(** ** Teardown, stop and start *)

(** X1: [cleanupResources] is idempotent.  The first teardown leaves the
    cells of the session cleared (no transport, no input or output
    context, an empty Active Playback Set, the closing flag clear); a
    second teardown right after it makes no call and changes nothing; and
    a teardown writes no cell other than those: the phase, the Mood, the
    log, the error message, the cursor, the accumulators and the
    recogniser are as they were.  (The [MediaStream] of [getUserMedia] is
    a local constant of [startConversation], not a cell of the component:
    the teardown has no hold on it and this statement says nothing of
    it.) *)
Theorem cleanupResources_idempotent (st : St) :
  let once := cleanupResources st in
  cleanupResources (fst once) = (fst once, []) /\
  tornDown (fst once) /\
  sameOutside st (fst once).
Proof.
  cbv zeta. split; [|split].
  - apply injective_projections.
    + rewrite cleanupResources_state. cbn [fst]. rewrite cleanupResources_state.
      reflexivity.
    + rewrite cleanupResources_effects. cbn [snd]. rewrite cleanupResources_state.
      reflexivity.
  - apply cleanupResources_tornDown.
  - rewrite cleanupResources_state. repeat split.
Qed.

(** X2: a stop tears the session down and leaves the log alone.  The
    plain stop ends in [IDLE] with the Mood back to [NEUTRAL]; the stop
    with [forceSleep] ends in [SLEEP] with the Mood untouched and one
    timer of 5000 ms, and once that timer has run the state is the one the
    plain stop gives. *)
Theorem stopConversation_sleep_then_idle (st : St) :
  let plain := stopConversation false st in
  let sleepy := stopConversation true st in
  (state (fst plain) = IDLE /\ mood (fst plain) = MoodOf NEUTRAL /\
   tornDown (fst plain) /\ transcripts (fst plain) = transcripts st /\
   snd plain = snd (cleanupResources st)) /\
  (state (fst sleepy) = SLEEP /\ mood (fst sleepy) = mood st /\
   tornDown (fst sleepy) /\ transcripts (fst sleepy) = transcripts st /\
   snd sleepy = (snd (cleanupResources st) ++ [SetTimeout 5000])%list) /\
  sleepTimeout (fst sleepy) = fst plain.
Proof.
  cbv zeta. unfold stopConversation. cbv iota.
  rewrite !andThen_eq. cbn [fst snd pure emit].
  rewrite cleanupResources_state, app_nil_r. repeat split.
Qed.

(** X3: a start that fails, at whatever step, ends in [ERROR] with the
    cells of the session cleared (no transport, no input or output
    context, the ones it had opened included, an empty Active Playback
    Set, the closing flag clear) and with the Mood and the log untouched;
    of the [MediaStream] that [getUserMedia] may have returned by then,
    which is held in no cell, nothing is said.  [src/App.tsx] shows the
    message of the
    error as it is (none when the error has none);
    [src/unnamed/part_000] always shows a text, the message behind a fixed
    prefix or [Service is busy]. *)
Theorem startConversation_failure (outcome : StartOutcome) (st : St) :
  startFails outcome = true ->
  let a := fst (App.startConversation outcome st) in
  let p := fst (Part000.startConversation outcome st) in
  (state a = ERROR /\ tornDown a /\ errorMessage a = appStartError outcome /\
   mood a = mood st /\ transcripts a = transcripts st) /\
  (state p = ERROR /\ tornDown p /\
   errorMessage p = Some (part000StartError outcome) /\
   mood p = mood st /\ transcripts p = transcripts st).
Proof.
  intros Hf. cbv zeta.
  unfold App.startConversation, Part000.startConversation, App.startFailed,
    Part000.startFailed, Part000.stopRecognition.
  destruct outcome as [|m|m|]; try discriminate Hf;
    repeat (rewrite andThen_fst; cbn [fst pure emit]);
    rewrite !cleanupResources_state; repeat split.
Qed.

(** X4: a start that reaches [connect] has first torn down whatever was
    there (the calls of the teardown are the first calls it makes), and
    leaves the phase [CONNECTING], no error message, a 16 kHz input
    context and a 24 kHz output context, no transport yet and an empty
    Active Playback Set.  The cursor, the Mood and the log of the session
    before carry over. *)
Theorem startConversation_connecting (st : St) :
  let a := App.startConversation ConnectCalled st in
  let p := Part000.startConversation ConnectCalled st in
  (snd a = snd (cleanupResources st) /\
   snd p = (snd (cleanupResources st) ++ SetTimeout 100 ::
            optionEffects RecognitionStop (recognitionRef st))%list) /\
  fst a = fst p /\
  state (fst a) = CONNECTING /\ errorMessage (fst a) = None /\
  sessionRef (fst a) = None /\
  audioContextRef (fst a) = Some {| sampleRate := 16000 |} /\
  outputAudioContextRef (fst a) = Some {| sampleRate := 24000 |} /\
  sourcesRef (fst a) = [] /\ isClosingRef (fst a) = false /\
  nextStartTimeRef (fst a) = nextStartTimeRef st /\
  mood (fst a) = mood st /\ transcripts (fst a) = transcripts st.
Proof.
  cbv zeta.
  unfold App.startConversation, Part000.startConversation, Part000.stopRecognition.
  repeat (rewrite andThen_eq; cbn [fst snd pure emit]).
  rewrite !cleanupResources_state. cbn [recognitionRef set_isClosingRef set_sourcesRef
    set_outputAudioContextRef set_audioContextRef set_sessionRef setState setErrorMessage].
  rewrite !app_nil_r. repeat split.
Qed.

(** ** Tool calls, once more *)

Lemma handleFunctionCalls_acks wrap fcs st :
  snd (handleFunctionCalls wrap fcs st) =
  map (fun fc => SendToolResponse (wrap (acknowledgement fc))) (filter isSetMood fcs).
Proof.
  revert st. induction fcs as [|fc rest IH]; intro st; simpl; [reflexivity|].
  rewrite andThen_snd, IH. unfold handleFunctionCall.
  destruct (isSetMood fc); reflexivity.
Qed.

Lemma handleToolCall_acks wrap message st :
  snd (handleToolCall wrap message st) = acknowledgements wrap message.
Proof.
  unfold handleToolCall, acknowledgements, callsOf.
  destruct (functionCalls message); [apply handleFunctionCalls_acks | reflexivity].
Qed.

Lemma acknowledgements_filter wrap message :
  filter isToolResponse (acknowledgements wrap message) = acknowledgements wrap message.
Proof.
  unfold acknowledgements.
  induction (filter isSetMood (callsOf message)) as [|fc rest IH]; simpl;
    [reflexivity | rewrite IH; reflexivity].
Qed.

Lemma handleFunctionCalls_other wrap fcs st :
  filter isSetMood fcs = [] -> fst (handleFunctionCalls wrap fcs st) = st.
Proof.
  revert st. induction fcs as [|fc rest IH]; intro st; simpl; [reflexivity|].
  rewrite andThen_fst. unfold handleFunctionCall.
  destruct (isSetMood fc); [discriminate|]. cbn [fst]. apply IH.
Qed.

Lemma scheduleBuffer_no_response env buffer st :
  filter isToolResponse (snd (scheduleBuffer env buffer st)) = [].
Proof. unfold scheduleBuffer. destruct (fault env) as [[]|]; reflexivity. Qed.

Lemma play_no_response env a st :
  filter isToolResponse (snd (App.play env a st)) = [] /\
  filter isToolResponse (snd (Part000.play env a st)) = [].
Proof.
  rewrite App_play_cases, Part000_play_cases.
  destruct (playOutcome a); split; try reflexivity; apply scheduleBuffer_no_response.
Qed.

Lemma handleTurnEnd_no_response env sc st :
  filter isToolResponse (snd (handleTurnEnd env sc st)) = [].
Proof.
  unfold handleTurnEnd, handleInterrupted. destruct sc as [c|]; [|reflexivity].
  destruct (interrupted c); [|reflexivity]. cbn [snd].
  induction (sourcesRef _) as [|h hs IH]; [reflexivity | exact IH].
Qed.

Lemma onmessageWith_acks wrap accumulate resume play env message st :
  isClosingRef st = false ->
  (forall a s, filter isToolResponse (snd (play a s)) = []) ->
  filter isToolResponse
    (snd (onmessageWith wrap accumulate (playAudio resume play) env message st)) =
  acknowledgements wrap message.
Proof.
  intros Hcl Hplay. rewrite onmessageWith_cases by assumption. cbv zeta.
  set (st2 := accumulate (serverContent message) (setMood (toolMood wrap message st) st)).
  assert (filter isToolResponse
            (snd (fst (playAudio resume play (serverContent message) st2))) = []) as H3.
  { apply (playAudio_cases (fun s r => filter isToolResponse (snd r) = [])).
    - reflexivity.
    - intros a _. apply Hplay. }
  rewrite handleToolCall_acks.
  destruct (snd (playAudio resume play (serverContent message) st2)); cbn [snd];
    rewrite !filter_app, ?H3, ?handleTurnEnd_no_response, ?app_nil_r;
    apply acknowledgements_filter.
Qed.

Lemma handleTurnEnd_mood env sc st : mood (fst (handleTurnEnd env sc st)) = mood st.
Proof.
  unfold handleTurnEnd, handleInterrupted, handleTurnComplete.
  destruct sc as [c|]; [|reflexivity].
  destruct (turnComplete c), (interrupted c); cbn [fst];
    try destruct (Js.truthy _); cbn; try destruct (sourcesRef _); reflexivity.
Qed.

(** The Mood a message leaves is decided by its tool calls alone. *)
Lemma onmessageWith_mood wrap accumulate resume play env message st :
  (forall sc s, mood (accumulate sc s) = mood s) ->
  (forall a s, mood (fst (play a s)) = mood s) ->
  mood (fst (onmessageWith wrap accumulate (playAudio resume play) env message st)) =
  if isClosingRef st then mood st else toolMood wrap message st.
Proof.
  intros Hacc Hplay. destruct (isClosingRef st) eqn:Hcl.
  - unfold onmessageWith. rewrite Hcl. reflexivity.
  - rewrite onmessageWith_cases by assumption. cbv zeta.
    set (st2 := accumulate (serverContent message) (setMood (toolMood wrap message st) st)).
    assert (mood st2 = toolMood wrap message st) as H2 by (unfold st2; rewrite Hacc; reflexivity).
    assert (mood (fst (fst (playAudio resume play (serverContent message) st2))) = mood st2)
      as H3.
    { apply (playAudio_cases (fun s r => mood (fst r) = mood s)); [reflexivity|].
      intros a _. rewrite Hplay. reflexivity. }
    destruct (snd (playAudio resume play (serverContent message) st2)); cbn [fst];
      rewrite ?handleTurnEnd_mood; congruence.
Qed.

Lemma toolMood_other wrap message st :
  filter isSetMood (callsOf message) = [] -> toolMood wrap message st = mood st.
Proof.
  intros Hno. unfold toolMood, handleToolCall, callsOf in *.
  destruct (functionCalls message) as [fcs|]; [|reflexivity].
  rewrite handleFunctionCalls_other by assumption. reflexivity.
Qed.

Lemma onmessage_mood c env message st :
  isFile c ->
  filter isSetMood (callsOf message) = [] ->
  mood (fst (c_onmessage c env message st)) = mood st.
Proof.
  intros [-> | ->] Hno; cbn [c_onmessage AppTsx Part000Tsx];
    unfold App.onmessage, Part000.onmessage;
    rewrite onmessageWith_mood, toolMood_other by
      (try exact Hno; intros;
       first [apply App_accumulate_frame | apply Part000_accumulate_frame
             | apply App_play_frame | apply Part000_play_frame]);
    destruct (isClosingRef st); reflexivity.
Qed.

(** The tool responses [onmessage] sends for a message whose calls have
    their [args]: the acknowledgements of its calls named [setMood]. *)
Lemma onmessage_acks env message st :
  let a := App.onmessage env message st in
  let p := Part000.onmessage env message st in
  (isClosingRef st = false ->
   filter isToolResponse (snd a) = acknowledgements ResponseObject message /\
   filter isToolResponse (snd p) = acknowledgements (fun r => ResponseArray [r]) message) /\
  (isClosingRef st = true -> snd a = [] /\ snd p = []) /\
  (filter isSetMood (callsOf message) = [] ->
   mood (fst a) = mood st /\ mood (fst p) = mood st).
Proof.
  cbv zeta. split; [|split].
  - intros Hcl. split; apply onmessageWith_acks; try assumption;
      intros; apply play_no_response.
  - intros Hcl. unfold App.onmessage, Part000.onmessage, onmessageWith. rewrite Hcl.
    split; reflexivity.
  - intros Hno. split.
    + apply (onmessage_mood AppTsx env message st (or_introl eq_refl) Hno).
    + apply (onmessage_mood Part000Tsx env message st (or_intror eq_refl) Hno).
Qed.

(** The loop over the calls of the SDK is the loop over the calls it gets
    through, and it completes when no call throws. *)
Lemma handleSdkCalls_handled wrap fcs st :
  handleSdkCalls wrap fcs st =
  (fst (handleFunctionCalls wrap (handledCalls fcs) st),
   snd (handleFunctionCalls wrap (handledCalls fcs) st),
   negb (existsb throws fcs)).
Proof.
  revert st. induction fcs as [|fc rest IH]; intro st; [reflexivity|].
  cbn [handleSdkCalls handledCalls existsb].
  destruct (throws fc); [reflexivity|].
  cbn [handleFunctionCalls orb]. rewrite andThen_eq.
  destruct (handleFunctionCall wrap (withArgs fc) st) as [st1 e1]. cbn [fst snd].
  rewrite IH. reflexivity.
Qed.

Lemma onmessageSdkWith_handled wrap accumulate resume play env message st :
  (forall s, accumulate None s = s) ->
  onmessageSdkWith wrap accumulate (playAudio resume play) env message st =
  onmessageWith wrap accumulate (playAudio resume play) env (handledPart message) st.
Proof.
  intros Hacc. unfold onmessageSdkWith, onmessageWith, handledPart, handleToolCall.
  destruct (isClosingRef st); [reflexivity|].
  destruct (sdk_functionCalls message) as [fcs|]; cbn [functionCalls serverContent].
  - rewrite handleSdkCalls_handled.
    destruct (existsb throws fcs); cbn [negb functionCalls serverContent].
    + destruct (handleFunctionCalls wrap (handledCalls fcs) st) as [st1 e1].
      cbn [fst snd]. rewrite Hacc. unfold playAudio. cbn. rewrite app_nil_r. reflexivity.
    + destruct (handleFunctionCalls wrap (handledCalls fcs) st) as [st1 e1].
      reflexivity.
  - reflexivity.
Qed.

(** X5: a call named [setMood] that has no [args] makes the handler throw
    at [(fc.args as any).mood].  Of a message of the SDK [onmessage]
    therefore handles the part before the first such call, as it would
    handle a message made of that part: the calls before it are applied
    and acknowledged, and the later calls, the transcript fragments, the
    audio and the turn-end signals of that message are not handled.  When
    every [setMood] call has its [args] the whole message is handled.
    The tool responses sent are the acknowledgements of the [setMood]
    calls of the handled part, one for each, in the order of the calls;
    calls of any other name are not acknowledged, and a handled part
    without a [setMood] call leaves the Mood as it is.  While the closing
    flag is set nothing is acknowledged. *)
Theorem acknowledgements_sent (env : Env) (message : SdkMessage) (st : St) :
  let a := App.onmessageSdk env message st in
  let p := Part000.onmessageSdk env message st in
  let handled := handledPart message in
  (a = App.onmessage env handled st /\ p = Part000.onmessage env handled st) /\
  (isClosingRef st = false ->
   filter isToolResponse (snd a) = acknowledgements ResponseObject handled /\
   filter isToolResponse (snd p) = acknowledgements (fun r => ResponseArray [r]) handled) /\
  (isClosingRef st = true -> snd a = [] /\ snd p = []) /\
  (filter isSetMood (callsOf handled) = [] ->
   mood (fst a) = mood st /\ mood (fst p) = mood st).
Proof.
  cbv zeta.
  assert (App.onmessageSdk env message st = App.onmessage env (handledPart message) st)
    as Ha by (apply onmessageSdkWith_handled; reflexivity).
  assert (Part000.onmessageSdk env message st =
          Part000.onmessage env (handledPart message) st)
    as Hp by (apply onmessageSdkWith_handled; reflexivity).
  rewrite Ha, Hp. split; [split; reflexivity|].
  apply onmessage_acks.
Qed.

Lemma acknowledgements_sent_witness :
  let r := App.onmessageSdk (quietEnv 1) argsMissingMessage openedSession in
  snd r =
    [SendToolResponse
       (ResponseObject {| fr_id := Some "call-1"; fr_name := Some "setMood";
                          fr_result := "ok" |})] /\
  mood (fst r) = MoodOf HAPPY /\
  transcripts (fst r) = [].
Proof.
  cbv zeta.
  destruct (acknowledgements_sent (quietEnv 1) argsMissingMessage openedSession)
    as ((H & _) & _).
  rewrite H. repeat split.
Defined.

(** ** Transcript fragments and the log *)

Lemma run_app c evs1 evs2 st :
  run c (evs1 ++ evs2) st = andThen (run c evs1) (run c evs2) st.
Proof.
  revert st. induction evs1 as [|ev rest IH]; intro st; simpl.
  - unfold andThen, skip. destruct (run c evs2 st). reflexivity.
  - rewrite !andThen_eq, IH, !andThen_eq. cbn [fst snd]. rewrite app_assoc. reflexivity.
Qed.

Lemma onmessage_fragment c env fragment st :
  isFile c ->
  isClosingRef st = false ->
  c_onmessage c env (fragmentMessage fragment) st =
  (set_currentOutputTranscription (currentOutputTranscription st ++ fragment) st, []).
Proof.
  intros [-> | ->] Hcl; cbn [c_onmessage AppTsx Part000Tsx];
    unfold App.onmessage, Part000.onmessage, onmessageWith; rewrite Hcl; reflexivity.
Qed.

Lemma run_fragments c env fragments st :
  isFile c ->
  isClosingRef st = false ->
  run c (fragmentEvents env fragments) st =
  (set_currentOutputTranscription (currentOutputTranscription st ++ joined fragments) st, []).
Proof.
  intros Hc. revert st. induction fragments as [|f rest IH]; intros st Hcl; simpl.
  - rewrite append_nil_r. destruct st; reflexivity.
  - rewrite andThen_eq. cbn [step]. rewrite (onmessage_fragment c env f st Hc Hcl).
    cbn [fst snd]. rewrite IH by exact Hcl. cbn [fst snd app].
    cbn [currentOutputTranscription set_currentOutputTranscription].
    rewrite append_assoc_js. reflexivity.
Qed.

(** X6: the fragments of the model's transcript that arrive one message
    after the other are accumulated in the order of arrival, and the
    turn-complete signal that follows writes them to the log as one entry:
    the fragments joined and then trimmed, or no entry when that text is
    empty.  Both files do so. *)
Theorem fragments_joined_in_order
    (c : Component) (env env' : Env) (fragments : list string) (st : St) :
  isFile c ->
  isClosingRef st = false ->
  let said := Js.trim (currentOutputTranscription st ++ joined fragments) in
  let r := run c (fragmentEvents env fragments ++ [EvMessage env' turnCompleteMessage]) st in
  transcripts (fst r) =
  (if Js.truthy said
   then transcripts st ++
        [{| role := RoleModel; text := said; timestamp := dateNow env';
            entry_mood := moodRef st |}]
   else transcripts st)%list /\
  currentOutputTranscription (fst r) = EmptyString /\
  snd r = [].
Proof.
  intros Hc Hcl. cbv zeta. rewrite run_app, andThen_eq.
  rewrite (run_fragments c env fragments st Hc Hcl). cbn [fst snd run app].
  rewrite andThen_eq. cbn [fst snd skip step].
  set (st1 := set_currentOutputTranscription _ st).
  assert (isClosingRef st1 = false) as Hcl1 by exact Hcl.
  destruct Hc as [-> | ->]; cbn [c_onmessage AppTsx Part000Tsx];
    unfold App.onmessage, Part000.onmessage, onmessageWith; rewrite Hcl1;
    cbn [handleToolCall turnCompleteMessage contentMessage functionCalls serverContent
         skip fst snd App.accumulate Part000.accumulate outputTranscription
         inputTranscription playAudio audioDataOf inlineData handleTurnEnd turnComplete
         interrupted app];
    destruct (handleTurnComplete_text env' st1) as (H1 & _ & H3);
    cbv zeta in H1, H3; rewrite H1, H3; repeat split.
Qed.

(** ** An invariant of the log *)

Lemma handleTurnComplete_wellFormed env st :
  Forall wellFormedEntry (transcripts st) ->
  Forall wellFormedEntry (transcripts (handleTurnComplete env st)).
Proof.
  intros H. destruct (handleTurnComplete_text env st) as (Ht & _). cbv zeta in Ht.
  rewrite Ht. destruct (Js.truthy (Js.trim (currentOutputTranscription st))) eqn:E;
    [|exact H].
  apply Forall_app. split; [exact H|]. constructor; [|constructor].
  repeat split; cbn [role text]; [exact E | apply trim_idem].
Qed.

Lemma handleTurnEnd_wellFormed env sc st :
  Forall wellFormedEntry (transcripts st) ->
  Forall wellFormedEntry (transcripts (fst (handleTurnEnd env sc st))).
Proof.
  intros H. unfold handleTurnEnd, handleInterrupted. destruct sc as [c|]; [|exact H].
  destruct (turnComplete c), (interrupted c); cbn [fst];
    try apply handleTurnComplete_wellFormed; exact H.
Qed.

Lemma onmessageWith_wellFormed wrap accumulate resume play env message st :
  (forall sc s, transcripts (accumulate sc s) = transcripts s) ->
  (forall a s, transcripts (fst (play a s)) = transcripts s) ->
  Forall wellFormedEntry (transcripts st) ->
  Forall wellFormedEntry
    (transcripts (fst (onmessageWith wrap accumulate (playAudio resume play) env message st))).
Proof.
  intros Hacc Hplay H.
  destruct (isClosingRef st) eqn:Hcl.
  - unfold onmessageWith. rewrite Hcl. exact H.
  - rewrite onmessageWith_cases by assumption. cbv zeta.
    set (st2 := accumulate (serverContent message)
                  (setMood (toolMood wrap message st) st)).
    assert (transcripts st2 = transcripts st) as H2 by (unfold st2; rewrite Hacc; reflexivity).
    assert (transcripts (fst (fst (playAudio resume play (serverContent message) st2))) =
            transcripts st2) as H3.
    { apply (playAudio_cases (fun s r => transcripts (fst r) = transcripts s)).
      - reflexivity.
      - intros a _. rewrite Hplay. reflexivity. }
    destruct (snd (playAudio resume play (serverContent message) st2)); cbn [fst].
    + apply handleTurnEnd_wellFormed. rewrite H3, H2. exact H.
    + rewrite H3, H2. exact H.
Qed.

Lemma step_wellFormed c ev st :
  isFile c ->
  Forall wellFormedEntry (transcripts st) ->
  Forall wellFormedEntry (transcripts (fst (step c ev st))).
Proof.
  intros Hc H. destruct (isMessage ev) eqn:Hm.
  - destruct ev; try discriminate Hm. cbn [step].
    destruct Hc as [-> | ->]; cbn [c_onmessage AppTsx Part000Tsx];
      apply onmessageWith_wellFormed; try exact H; intros;
      first [ apply App_accumulate_frame | apply Part000_accumulate_frame
            | apply App_play_frame | apply Part000_play_frame ].
  - destruct (isClear ev) eqn:Hcr.
    + destruct ev; try discriminate Hcr. constructor.
    + rewrite step_keeps_log by assumption. exact H.
Qed.

Lemma reachable_wellFormed c st :
  isFile c -> reachable c st -> Forall wellFormedEntry (transcripts st).
Proof.
  intros Hc H. induction H as [|ev st H IH].
  - constructor.
  - apply step_wellFormed; assumption.
Qed.

(** X7: in every state either file can reach, each entry of the
    Transcript Log is an entry of the model whose text is not empty and
    carries no white space at its ends.  The transcript of the user's own
    speech is never written to the log. *)
Theorem log_entries_wellFormed (c : Component) (st : St) :
  isFile c ->
  reachable c st ->
  Forall wellFormedEntry (transcripts st).
Proof. apply reachable_wellFormed. Qed.

Lemma translations_all entries :
  Forall wellFormedEntry entries -> Transcript.translations entries = entries.
Proof.
  unfold Transcript.translations.
  induction 1 as [|e rest (Hr & _) _ IH]; simpl; [reflexivity|].
  unfold Transcript.isModel at 1. rewrite Hr, IH. reflexivity.
Qed.

(** X8: the transcript view leaves out no entry of a log the component
    can produce: its list of translations is the whole log, in the order
    of the log, and it shows the placeholder exactly when the log is
    empty. *)
Theorem transcript_view_shows_log (c : Component) (st : St) :
  isFile c ->
  reachable c st ->
  Transcript.translations (transcripts st) = transcripts st /\
  (Transcript.showsPlaceholder (transcripts st) = true <-> transcripts st = []).
Proof.
  intros Hc H. unfold Transcript.showsPlaceholder.
  rewrite translations_all by (apply (reachable_wellFormed c); assumption).
  split; [reflexivity|].
  destruct (transcripts st); split; try reflexivity; discriminate.
Qed.

(** ** The wake word, once more *)

Lemma hasTrigger_salin r :
  hasTrigger App.triggers r = hasTrigger ["salin"] r /\
  hasTrigger Part000.triggers r = hasTrigger ["salin"] r.
Proof.
  unfold hasTrigger, App.triggers, Part000.triggers, Js.some. simpl.
  set (s := Js.toLowerCase (transcript r)).
  pose proof (includes_suffix s "hoy " "salin") as H1.
  pose proof (includes_suffix s "hey " "salin") as H2.
  pose proof (includes_suffix s "hi " "salin") as H3.
  simpl in H1, H2, H3.
  destruct (Js.includes s "salin"); [split; reflexivity|].
  destruct (Js.includes s "hoy salin"); [discriminate (H1 eq_refl)|].
  destruct (Js.includes s "hey salin"); [discriminate (H2 eq_refl)|].
  destruct (Js.includes s "hi salin"); [discriminate (H3 eq_refl)|].
  split; reflexivity.
Qed.

Lemma existsb_ext_eq {A} (f g : A -> bool) l :
  (forall x, f x = g x) -> existsb f l = existsb g l.
Proof. intros H. induction l as [|x l IH]; simpl; [reflexivity | rewrite H, IH; reflexivity]. Qed.

(** X9: the recogniser's [onresult] wakes the component exactly when a
    final result, from [event.resultIndex] on, contains [salin] once
    lower-cased.  The longer trigger phrases of either file never change
    the outcome, so the two files wake on the same events. *)
Theorem wake_word_is_salin (recognition : Recognition) (event : SpeechRecognitionEvent) :
  App.onresult recognition event = onresultWith ["salin"] recognition event /\
  Part000.onresult recognition event = onresultWith ["salin"] recognition event /\
  (wakes (App.onresult recognition event) recognition <->
   exists r, In r (skipn (resultIndex event) (results event)) /\ isFinal r = true /\
             Js.includes (Js.toLowerCase (transcript r)) "salin" = true).
Proof.
  unfold App.onresult, Part000.onresult. rewrite !onresult_spec.
  rewrite (existsb_ext_eq (hasTrigger App.triggers) (hasTrigger ["salin"]))
    by (intros; apply hasTrigger_salin).
  rewrite (existsb_ext_eq (hasTrigger Part000.triggers) (hasTrigger ["salin"]))
    by (intros; apply hasTrigger_salin).
  split; [reflexivity|]. split; [reflexivity|].
  unfold wakes.
  destruct (existsb (hasTrigger ["salin"]) (skipn (resultIndex event) (results event)))
    eqn:E.
  - split; [intros _|reflexivity].
    apply existsb_exists in E as (r & Hin & Hr). exists r.
    unfold hasTrigger, Js.some in Hr. simpl in Hr. rewrite orb_false_r in Hr.
    apply andb_prop in Hr as [Hf Hi]. auto.
  - split; [discriminate|]. intros (r & Hin & Hf & Hi).
    assert (existsb (hasTrigger ["salin"]) (skipn (resultIndex event) (results event)) = true)
      as E'.
    { apply existsb_exists. exists r. split; [exact Hin|].
      unfold hasTrigger, Js.some. simpl. rewrite Hf, Hi. reflexivity. }
    rewrite E in E'. discriminate.
Qed.

(** ** What survives a teardown *)

Lemma messageOwned_step {A} (f : St -> A) c ev st :
  isFile c ->
  messageOwned f ->
  isMessage ev = false ->
  f (fst (step c ev st)) = f st.
Proof.
  intros Hc (H1 & H2 & H3 & H4 & H5 & H6 & H7 & H8 & H9 & H10 & H11) Hm.
  assert (preserves f cleanupResources) as Hcl.
  { apply preserves_cleanupResources; assumption. }
  assert (silent isSourceStart cleanupResources) as Hsl by auto with frame.
  assert (forall st, f (openContexts st) = f st) as Ho.
  { intros s. unfold openContexts. rewrite H8, H7. reflexivity. }
  pose proof (fun outcome =>
                startConversation_frame f isSourceStart c outcome Hc Hcl Hsl
                  H1 H4 Ho eq_refl (fun _ => eq_refl) (fun _ => eq_refl)) as Hstart.
  pose proof (fun supported id =>
                toggleStandby_frame f isSourceStart c supported id Hc
                  H1 H10 H4 (fun _ => eq_refl) (fun _ => eq_refl)) as Htoggle.
  destruct ev; try discriminate Hm; cbn [step].
  - destruct (Hstart outcome) as ((A0 & _) & _). apply A0.
  - destruct Hc as [-> | ->]; cbn; apply H6.
  - destruct (Hstart MissingApiKey) as (_ & H & _). apply (H message).
  - unfold stopConversation. rewrite andThen_fst, <- (Hcl st).
    destruct forceSleep.
    + rewrite andThen_fst. cbn [pure emit fst]. apply H1.
    + cbn [pure fst]. rewrite H2. apply H1.
  - cbn [pure fst]. unfold sleepTimeout. rewrite H2. apply H1.
  - cbn [pure fst]. apply H1.
  - reflexivity.
  - cbn [pure fst]. unfold onended.
    destruct (sourcesRef (set_sourcesRef _ st));
      [destruct (negb (isClosingRef _))|]; rewrite ?H1, H9; reflexivity.
  - destruct (Hstart MissingApiKey) as (_ & _ & H). apply (H err).
  - cbn [pure fst]. destruct captured; cbn [onclose]; rewrite ?H1; reflexivity.
  - destruct (Htoggle supported id) as (A0 & _). apply A0.
  - reflexivity.
  - reflexivity.
  - cbn [pure fst]. apply H3.
  - cbn [pure fst]. apply H4.
  - cbn [pure fst]. apply H5.
  - destruct seg; cbn [cleanupSegment]; unfold cleanup_enter, cleanup_input,
      cleanup_output, cleanup_exit.
    + destruct (sessionRef (set_isClosingRef true st)); cbn [fst]; rewrite ?H6, H11;
        reflexivity.
    + destruct (audioContextRef st); cbn [fst]; rewrite ?H7; reflexivity.
    + destruct (outputAudioContextRef st); cbn [fst]; rewrite ?H8; reflexivity.
    + cbn [fst]. rewrite H11, H9. reflexivity.
Qed.

Lemma turnCells_owned : messageOwned turnCells.
Proof. repeat split. Qed.

(** X10: the playback cursor and the two transcript accumulators are
    written by [onmessage] alone.  Whatever else happens in either file (a
    stop, a transport error, a teardown, a new start, the wake-word
    toggle) leaves them as they are and starts no buffer; a new session
    therefore begins with the cursor and the accumulated text of the
    session before. *)
Theorem turn_cells_survive (c : Component) (evs : list Event) (st : St) :
  isFile c ->
  forallb (fun ev => negb (isMessage ev)) evs = true ->
  turnCells (fst (run c evs st)) = turnCells st /\
  without isSourceStart (snd (run c evs st)).
Proof.
  intros Hc. revert st. induction evs as [|ev rest IH]; intros st H; simpl in *.
  - split; reflexivity.
  - apply andb_prop in H as [H1 H2]. apply negb_true_iff in H1.
    rewrite andThen_eq. cbn [fst snd].
    destruct (IH (fst (step c ev st)) H2) as [IH1 IH2]. split.
    + rewrite IH1. apply (messageOwned_step turnCells c ev st Hc turnCells_owned H1).
    + apply without_app; [|exact IH2]. apply step_keeps_cursor; assumption.
Qed.

(** ** The audio block, once more *)

Lemma handleTurnEnd_none env sc st :
  match sc with Some c => turnComplete c || interrupted c | None => false end = false ->
  handleTurnEnd env sc st = (st, []).
Proof.
  unfold handleTurnEnd. destruct sc as [c|]; [|reflexivity].
  intros H. apply orb_false_elim in H as [-> ->]. reflexivity.
Qed.

(** X11: on an open session a message with a non-empty audio payload and
    no turn-end flag leaves the phase [SPEAKING], whatever becomes of the
    chunk: [setState(SPEAKING)] comes before the [try] block, so a chunk
    that fails to decode moves the phase as well.  In
    [src/unnamed/part_000] this holds once the output context runs. *)
Theorem audio_arrival_speaks (env : Env) (message : LiveServerMessage) (st : St) :
  sessionOpen st ->
  hasAudio message = true ->
  endsTurn message = false ->
  state (fst (App.onmessage env message st)) = SPEAKING /\
  (Part000.resumed env = true ->
   state (fst (Part000.onmessage env message st)) = SPEAKING).
Proof.
  intros Hopen Ha He. unfold hasAudio in Ha. unfold endsTurn in He.
  destruct (audioDataOf (serverContent message)) as [a|] eqn:Haud; [|discriminate].
  assert (match serverContent message with
          | Some c => turnComplete c || interrupted c
          | None => false
          end = false) as He' by exact He.
  split; [|intros Hr].
  - rewrite App_onmessage_open by assumption. cbv zeta.
    rewrite handleTurnEnd_none by exact He'. cbn [fst].
    unfold audioStep. rewrite Haud, Ha.
    destruct (App_play_frame env a
                (setState SPEAKING
                   (App.accumulate (serverContent message)
                      (setMood (toolMood ResponseObject message st) st))))
      as (_ & _ & Hs & _).
    exact Hs.
  - rewrite Part000_onmessage_open by assumption. cbv zeta.
    rewrite handleTurnEnd_none by exact He'. cbn [fst].
    unfold audioStep. rewrite Haud, Ha.
    destruct (Part000_play_frame env a
                (setState SPEAKING
                   (Part000.accumulate (serverContent message)
                      (setMood (toolMood (fun r => ResponseArray [r]) message st) st))))
      as (_ & _ & Hs & _).
    exact Hs.
Qed.

Lemma onmessageWith_returns wrap accumulate resume play env message st :
  isClosingRef st = false ->
  hasAudio message = true ->
  (forall sc s, isClosingRef (accumulate sc s) = isClosingRef s) ->
  (forall sc s, outputAudioContextRef (accumulate sc s) = outputAudioContextRef s) ->
  outputAudioContextRef st = None \/ resume = false ->
  onmessageWith wrap accumulate (playAudio resume play) env message st =
  (accumulate (serverContent message) (fst (handleToolCall wrap message st)),
   acknowledgements wrap message).
Proof.
  intros Hcl Ha Hc Ho Hwhy. rewrite onmessageWith_cases by assumption. cbv zeta.
  rewrite handleToolCall_acks, handleToolCall_state.
  set (st2 := accumulate (serverContent message) (setMood (toolMood wrap message st) st)).
  assert (playAudio resume play (serverContent message) st2 = (st2, [], false)) as ->.
  { unfold playAudio, hasAudio in *.
    destruct (audioDataOf (serverContent message)) as [a|]; [|discriminate].
    rewrite Ha. unfold st2. rewrite Hc, Ho. cbn [isClosingRef setMood outputAudioContextRef].
    rewrite Hcl. cbn [negb andb].
    destruct Hwhy as [-> | ->]; [reflexivity|].
    destruct (outputAudioContextRef st); reflexivity. }
  cbn [fst snd]. rewrite app_nil_r. reflexivity.
Qed.

(** X12: when the output context is gone, a message with a non-empty
    audio payload is handled up to the accumulation of the transcript
    fragments and no further: the handler returns before the turn-complete
    and the interrupted blocks, so no entry is written, the accumulators
    are not emptied, no handle is stopped and the phase stays.  Both files
    do so; the acknowledgements of the message are still sent. *)
Theorem audio_without_output_context (env : Env) (message : LiveServerMessage) (st : St) :
  isClosingRef st = false ->
  outputAudioContextRef st = None ->
  hasAudio message = true ->
  let a := App.onmessage env message st in
  let p := Part000.onmessage env message st in
  (a = (App.accumulate (serverContent message)
          (fst (handleToolCall ResponseObject message st)),
        acknowledgements ResponseObject message) /\
   p = (Part000.accumulate (serverContent message)
          (fst (handleToolCall (fun r => ResponseArray [r]) message st)),
        acknowledgements (fun r => ResponseArray [r]) message)) /\
  (state (fst a) = state st /\ transcripts (fst a) = transcripts st /\
   sourcesRef (fst a) = sourcesRef st /\ nextStartTimeRef (fst a) = nextStartTimeRef st) /\
  (state (fst p) = state st /\ transcripts (fst p) = transcripts st /\
   sourcesRef (fst p) = sourcesRef st /\ nextStartTimeRef (fst p) = nextStartTimeRef st).
Proof.
  intros Hcl Ho Ha. cbv zeta.
  unfold App.onmessage, Part000.onmessage.
  rewrite !onmessageWith_returns; try assumption; try (left; assumption);
    try (intros; first [apply App_accumulate_frame | apply Part000_accumulate_frame]).
  split; [split; reflexivity|]. cbn [fst]. rewrite !handleToolCall_state.
  split.
  - destruct (App_accumulate_frame (serverContent message)
                (setMood (toolMood ResponseObject message st) st))
      as (_ & Hs & _ & _ & Ht & Hsrc & Hcur).
    repeat split; assumption.
  - destruct (Part000_accumulate_frame (serverContent message)
                (setMood (toolMood (fun r => ResponseArray [r]) message st) st))
      as (_ & Hs & _ & _ & Ht & Hsrc & Hcur).
    repeat split; assumption.
Qed.

(** X13: in [src/unnamed/part_000] the handler awaits [ctx.resume()] when
    the output context is not running, outside the [try] block.  When
    that promise rejects, a message with a non-empty audio payload is
    handled up to the accumulation of the fragments and no further: the
    phase does not become [SPEAKING], nothing is scheduled or logged, and
    the turn-complete and interrupted blocks of that message are not
    run. *)
Theorem resume_rejected_abandons_message
    (env : Env) (message : LiveServerMessage) (st : St) :
  isClosingRef st = false ->
  ctxRunning env = false ->
  resumeRejects env = true ->
  hasAudio message = true ->
  let p := Part000.onmessage env message st in
  p = (Part000.accumulate (serverContent message)
         (fst (handleToolCall (fun r => ResponseArray [r]) message st)),
       acknowledgements (fun r => ResponseArray [r]) message) /\
  state (fst p) = state st /\ transcripts (fst p) = transcripts st /\
  sourcesRef (fst p) = sourcesRef st /\ nextStartTimeRef (fst p) = nextStartTimeRef st.
Proof.
  intros Hcl Hrun Hrej Ha. cbv zeta. unfold Part000.onmessage.
  rewrite onmessageWith_returns; try assumption;
    try (intros; apply Part000_accumulate_frame).
  - split; [reflexivity|]. cbn [fst]. rewrite handleToolCall_state.
    destruct (Part000_accumulate_frame (serverContent message)
                (setMood (toolMood (fun r => ResponseArray [r]) message st) st))
      as (_ & Hs & _ & _ & Ht & Hsrc & Hcur).
    repeat split; assumption.
  - right. unfold Part000.resumed. rewrite Hrun, Hrej. reflexivity.
Qed.

(** ** Callbacks that arrive late *)

Lemma stopConversation_plain_state st :
  fst (stopConversation false st) =
  setMood (MoodOf NEUTRAL) (setState IDLE (fst (cleanupResources st))).
Proof. unfold stopConversation. cbv iota. rewrite andThen_fst. reflexivity. Qed.

Lemma onended_after_teardown source st :
  tornDown st -> state (onended source st) = LISTENING.
Proof.
  intros (_ & _ & _ & Hs & Hc). apply onended_drained; [exact Hc|].
  unfold onended. cbn. rewrite Hs, Hc. reflexivity.
Qed.

(** X14: the playback-completion callback removes its own handle, keeps
    the other handles in their order, and looks at nothing but the size of
    the set and the closing flag: when the set is left empty and no
    teardown is in progress it sets [LISTENING], also when a stop or a
    transport error has already put the phase to [IDLE] or [ERROR]; while
    the closing flag is set it does not touch the phase. *)
Theorem onended_ignores_phase (source : SourceId) (err : TransportError) (st : St) :
  sourcesRef (onended source st) =
    filter (fun h => negb (h =? source)%nat) (sourcesRef st) /\
  (isClosingRef st = true -> state (onended source st) = state st) /\
  state (onended source (fst (stopConversation false st))) = LISTENING /\
  state (onended source (fst (App.onerror err st))) = LISTENING /\
  state (onended source (fst (Part000.onerror err st))) = LISTENING.
Proof.
  split; [|split; [|split; [|split]]].
  - unfold onended. cbn.
    destruct (filter (fun h => negb (h =? source)%nat) (sourcesRef st)); [|reflexivity].
    destruct (negb (isClosingRef st)); reflexivity.
  - intros Hcl. unfold onended. cbn.
    destruct (filter (fun h => negb (h =? source)%nat) (sourcesRef st)); [|reflexivity].
    rewrite Hcl. reflexivity.
  - apply onended_after_teardown. rewrite stopConversation_plain_state.
    rewrite cleanupResources_state. repeat split.
  - apply onended_after_teardown. unfold App.onerror.
    apply (onerror_state "Network stability issues. Reconnecting..." st).
  - apply onended_after_teardown. unfold Part000.onerror.
    match goal with
    | |- context [setErrorMessage (Some ?m)] => apply (onerror_state m st)
    end.
Qed.

(** X15: the close callback of the transport tests the [state] constant
    of the render that created [startConversation], not the phase of the
    moment.  When that constant is [SLEEP] or [ERROR] the callback does
    nothing; otherwise it sets [IDLE] whatever the phase is, so that after
    a transport error the phase [ERROR] gives way to [IDLE] while the
    error message stays on display. *)
Theorem onclose_overrides_error
    (captured : AppState) (err : TransportError) (st : St) :
  (captured = SLEEP \/ captured = ERROR -> onclose captured st = st) /\
  (captured <> SLEEP -> captured <> ERROR ->
   onclose captured st = setState IDLE st /\
   state (onclose captured (fst (App.onerror err st))) = IDLE /\
   errorMessage (onclose captured (fst (App.onerror err st))) =
     Some "Network stability issues. Reconnecting..." /\
   state (onclose captured (fst (Part000.onerror err st))) = IDLE /\
   errorMessage (onclose captured (fst (Part000.onerror err st))) <> None).
Proof.
  split.
  - intros [-> | ->]; reflexivity.
  - intros H1 H2.
    assert (forall s, onclose captured s = setState IDLE s) as Hc.
    { intros s. destruct captured; try reflexivity; contradiction. }
    rewrite !Hc. split; [reflexivity|]. cbn [state setState errorMessage].
    unfold App.onerror, Part000.onerror.
    destruct (onerror_state "Network stability issues. Reconnecting..." st)
      as (_ & Hm & _).
    match goal with
    | |- context [setErrorMessage (Some (if ?b then ?x else ?y))] =>
        destruct (onerror_state (if b then x else y) st) as (_ & Hm' & _)
    end.
    cbv zeta in Hm, Hm'. rewrite Hm, Hm'. repeat split. discriminate.
Qed.

(** ** What the callbacks never do *)

Lemma Forall_app_intro {A} (P : A -> Prop) l1 l2 :
  Forall P l1 -> Forall P l2 -> Forall P (l1 ++ l2).
Proof. intros H1 H2. apply Forall_app. split; assumption. Qed.

Lemma acknowledgements_alphabet wrap message :
  Forall (fun e => isMessageEffect e = true) (acknowledgements wrap message).
Proof.
  unfold acknowledgements.
  induction (filter isSetMood (callsOf message)); simpl; constructor;
    [reflexivity | assumption].
Qed.

Lemma scheduleBuffer_alphabet env buffer st :
  Forall (fun e => isMessageEffect e = true) (snd (scheduleBuffer env buffer st)).
Proof.
  unfold scheduleBuffer. destruct (fault env) as [[]|]; repeat constructor.
Qed.

Lemma play_alphabet env a st :
  Forall (fun e => isMessageEffect e = true) (snd (App.play env a st)) /\
  Forall (fun e => isMessageEffect e = true) (snd (Part000.play env a st)).
Proof.
  rewrite App_play_cases, Part000_play_cases.
  destruct (playOutcome a); split; try apply scheduleBuffer_alphabet; repeat constructor.
Qed.

Lemma handleTurnEnd_alphabet env sc st :
  Forall (fun e => isMessageEffect e = true) (snd (handleTurnEnd env sc st)).
Proof.
  unfold handleTurnEnd, handleInterrupted. destruct sc as [c|]; [|constructor].
  destruct (interrupted c); [|constructor]. cbn [snd].
  induction (sourcesRef _); simpl; constructor; [reflexivity | assumption].
Qed.

Lemma onmessageWith_alphabet wrap accumulate resume play env message st :
  (forall a s, Forall (fun e => isMessageEffect e = true) (snd (play a s))) ->
  Forall (fun e => isMessageEffect e = true)
    (snd (onmessageWith wrap accumulate (playAudio resume play) env message st)).
Proof.
  intros Hplay. destruct (isClosingRef st) eqn:Hcl.
  - unfold onmessageWith. rewrite Hcl. constructor.
  - rewrite onmessageWith_cases by assumption. cbv zeta.
    set (st2 := accumulate (serverContent message) (setMood (toolMood wrap message st) st)).
    assert (Forall (fun e => isMessageEffect e = true)
              (snd (fst (playAudio resume play (serverContent message) st2)))) as H3.
    { apply (playAudio_cases
               (fun s r => Forall (fun e => isMessageEffect e = true) (snd r))).
      - constructor.
      - intros a _. apply Hplay. }
    rewrite handleToolCall_acks.
    destruct (snd (playAudio resume play (serverContent message) st2)); cbn [snd];
      repeat apply Forall_app_intro;
      auto using acknowledgements_alphabet, handleTurnEnd_alphabet.
Qed.

Lemma alphabet_without p eff :
  (forall e, isMessageEffect e = true -> p e = false) ->
  Forall (fun e => isMessageEffect e = true) eff -> without p eff.
Proof.
  intros Hp H. unfold without. induction H as [|e l He _ IH]; simpl; [reflexivity|].
  rewrite (Hp e He), IH. reflexivity.
Qed.

(** X16: [onmessage] makes none of the calls of the other callbacks, in
    either file: it never closes the transport or a device context, never
    sends captured audio, never starts or stops the recogniser, sets no
    timer and never starts a conversation. *)
Theorem onmessage_no_foreign_call
    (c : Component) (env : Env) (message : LiveServerMessage) (st : St) :
  isFile c ->
  without isForeignCall (snd (c_onmessage c env message st)).
Proof.
  intros Hc. apply alphabet_without.
  - intros []; simpl; congruence.
  - destruct Hc as [-> | ->]; cbn [c_onmessage AppTsx Part000Tsx];
      apply onmessageWith_alphabet; intros; apply play_alphabet.
Qed.

Lemma step_silent p c ev st :
  isFile c ->
  (forall e, isMessageEffect e = true -> p e = false) ->
  (forall s, p (SessionClose s) = false) ->
  (forall x, p (AudioContextClose x) = false) ->
  (forall ms, p (SetTimeout ms) = false) ->
  (forall r, p (RecognitionStart r) = false) ->
  (forall r, p (RecognitionStop r) = false) ->
  (forall b, p (SendRealtimeInput b) = false) ->
  isResult ev = false ->
  without p (snd (step c ev st)).
Proof.
  intros Hc Hm H1 H2 H3 H4 H5 H6 Hr.
  assert (p ConsoleError = false) as Hce by (apply Hm; reflexivity).
  assert (forall h, p (SourceStop h) = false) as Hst by (intros; apply Hm; reflexivity).
  assert (preserves nextStartTimeRef cleanupResources) as Hcl by auto with frame.
  assert (silent p cleanupResources) as Hsl
    by (apply silent_cleanupResources; assumption).
  pose proof (fun outcome =>
                startConversation_frame nextStartTimeRef p c outcome Hc Hcl Hsl
                  (fun _ _ => eq_refl) (fun _ _ => eq_refl) (fun _ => eq_refl)
                  Hce H3 H5) as Hstart.
  pose proof (fun supported id =>
                toggleStandby_frame nextStartTimeRef p c supported id Hc
                  (fun _ _ => eq_refl) (fun _ _ => eq_refl) (fun _ _ => eq_refl)
                  H4 H5) as Htoggle.
  destruct ev; try discriminate Hr; cbn [step].
  - destruct (Hstart outcome) as ((_ & B) & _). apply B.
  - reflexivity.
  - destruct (Hstart MissingApiKey) as (_ & H & _). apply (H message).
  - unfold stopConversation. rewrite andThen_snd. apply without_app; [apply Hsl|].
    destruct forceSleep; [|reflexivity].
    rewrite andThen_snd. cbn [pure emit fst snd app]. unfold without. simpl.
    rewrite H3. reflexivity.
  - reflexivity.
  - reflexivity.
  - cbn [snd]. unfold sendWhenReady.
    destruct session, (isClosingRef st); try reflexivity.
    unfold without. simpl. rewrite H6. reflexivity.
  - apply alphabet_without; [exact Hm|].
    destruct Hc as [-> | ->]; cbn [c_onmessage AppTsx Part000Tsx];
      apply onmessageWith_alphabet; intros; apply play_alphabet.
  - reflexivity.
  - destruct (Hstart MissingApiKey) as (_ & _ & H). apply (H err).
  - reflexivity.
  - destruct (Htoggle supported id) as (_ & B). apply B.
  - cbn [snd]. unfold onend. destruct (AppState_eqb _ _); [|reflexivity].
    unfold without. simpl. rewrite H4. reflexivity.
  - reflexivity.
  - reflexivity.
  - reflexivity.
  - destruct seg; cbn [cleanupSegment]; unfold cleanup_enter, cleanup_input,
      cleanup_output, cleanup_exit.
    + destruct (sessionRef (set_isClosingRef true st)); cbn [snd]; [|reflexivity].
      unfold without. simpl. rewrite H1. reflexivity.
    + destruct (audioContextRef st); cbn [snd]; [|reflexivity].
      unfold without. simpl. rewrite H2. reflexivity.
    + destruct (outputAudioContextRef st); cbn [snd]; [|reflexivity].
      unfold without. simpl. rewrite H2. reflexivity.
    + cbn [snd]. apply without_stops, Hst.
Qed.

(** X17: no callback of either file starts a conversation on its own.
    Over any sequence of events without a recogniser result, the start
    sequence is never called: not after a transport error, not after a
    close, not from a timer.  A start is a user action or the wake word. *)
Theorem no_automatic_restart (c : Component) (evs : list Event) (st : St) :
  isFile c ->
  forallb (fun ev => negb (isResult ev)) evs = true ->
  without isStartCall (snd (run c evs st)).
Proof.
  intros Hc. revert st. induction evs as [|ev rest IH]; intros st H; simpl in *.
  - reflexivity.
  - apply andb_prop in H as [H1 H2]. apply negb_true_iff in H1.
    rewrite andThen_snd. apply without_app; [|apply IH, H2].
    apply step_silent; try assumption; try (intros; reflexivity).
    intros e He. destruct e; try discriminate He; reflexivity.
Qed.

(** ** The Mood *)

Lemma onended_frame_mood source st : mood (onended source st) = mood st.
Proof.
  unfold onended. cbn.
  destruct (filter (fun h => negb (h =? source)%nat) (sourcesRef st));
    [destruct (negb (isClosingRef st))|]; reflexivity.
Qed.

Lemma step_keeps_mood c ev st :
  isFile c ->
  writesMood ev = false ->
  mood (fst (step c ev st)) = mood st.
Proof.
  intros Hc Hw.
  assert (preserves mood cleanupResources) as Hcl by auto with frame.
  assert (silent isSourceStart cleanupResources) as Hsl by auto with frame.
  pose proof (fun outcome =>
                startConversation_frame mood isSourceStart c outcome Hc Hcl Hsl
                  (fun _ _ => eq_refl) (fun _ _ => eq_refl) (fun _ => eq_refl)
                  eq_refl (fun _ => eq_refl) (fun _ => eq_refl)) as Hstart.
  pose proof (fun supported id =>
                toggleStandby_frame mood isSourceStart c supported id Hc
                  (fun _ _ => eq_refl) (fun _ _ => eq_refl) (fun _ _ => eq_refl)
                  (fun _ => eq_refl) (fun _ => eq_refl)) as Htoggle.
  destruct ev; try discriminate Hw; cbn [step].
  - destruct (Hstart outcome) as ((A & _) & _). apply A.
  - destruct Hc as [-> | ->]; reflexivity.
  - destruct (Hstart MissingApiKey) as (_ & H & _). apply (H message).
  - destruct forceSleep; [|discriminate Hw].
    unfold stopConversation. rewrite !andThen_fst. cbn [pure emit fst].
    apply (Hcl st).
  - reflexivity.
  - reflexivity.
  - apply onended_frame_mood.
  - destruct (Hstart MissingApiKey) as (_ & _ & H). apply (H err).
  - destruct captured; reflexivity.
  - destruct (Htoggle supported id) as (A & _). apply A.
  - reflexivity.
  - reflexivity.
  - reflexivity.
  - reflexivity.
  - reflexivity.
  - destruct seg; cbn [cleanupSegment]; unfold cleanup_enter, cleanup_input,
      cleanup_output, cleanup_exit.
    + destruct (sessionRef (set_isClosingRef true st)); reflexivity.
    + destruct (audioContextRef st); reflexivity.
    + destruct (outputAudioContextRef st); reflexivity.
    + reflexivity.
Qed.

Lemma filter_none {A} (p : A -> bool) l :
  forallb (fun x => negb (p x)) l = true -> filter p l = [].
Proof.
  induction l as [|x l IH]; simpl; [reflexivity|].
  destruct (p x); simpl; [discriminate | exact IH].
Qed.

(** X18: the Mood persists.  It is written by a [setMood] call, by the
    plain stop and by the timer of the stop with [forceSleep], and by
    nothing else: over any run of other events in either file (transport
    errors, teardowns, new starts, messages without a [setMood] call,
    interruptions, the wake-word toggle) it stays what it was. *)
Theorem mood_persists (c : Component) (evs : list Event) (st : St) :
  isFile c ->
  forallb keepsMood evs = true ->
  mood (fst (run c evs st)) = mood st.
Proof.
  intros Hc. revert st. induction evs as [|ev rest IH]; intros st H; simpl in *.
  - reflexivity.
  - apply andb_prop in H as [H1 H2]. rewrite andThen_fst, IH by exact H2.
    destruct (isMessage ev) eqn:Hm.
    + destruct ev; try discriminate Hm. cbn [step keepsMood] in *.
      apply onmessage_mood; [exact Hc | apply filter_none, H1].
    + apply step_keeps_mood; [exact Hc|].
      destruct ev; try discriminate Hm; cbn [keepsMood] in H1;
        apply negb_true_iff in H1; exact H1.
Qed.

(** ** The standby toggle *)

(** X19: the standby toggle goes there and back.  Pressed in a phase
    other than [STANDBY], with a recogniser at hand, it builds one,
    starts it and sets [STANDBY]; pressed again it stops that same
    recogniser and sets [IDLE].  It writes nothing else: the session
    cells, the log and the Mood are as they were.  Without a recogniser
    in the browser [src/App.tsx] does nothing at all, while
    [src/unnamed/part_000] shows a message and leaves the phase. *)
Theorem toggleStandby_there_and_back
    (c : Component) (id id' : nat) (supported' : bool) (st : St) :
  isFile c ->
  state st <> STANDBY ->
  let recognition := {| rec_id := id; rec_state := state st |} in
  let on := c_toggleStandby c true id st in
  let off := c_toggleStandby c supported' id' (fst on) in
  on = (setState STANDBY (set_recognitionRef (Some recognition) st),
        [RecognitionStart recognition]) /\
  off = (setState IDLE (set_recognitionRef (Some recognition) st),
         [RecognitionStop recognition]) /\
  App.toggleStandby false id st = (st, []) /\
  Part000.toggleStandby false id st =
    (setErrorMessage (Some "Wake word not supported in this browser.") st, []).
Proof.
  intros Hc Hs. cbv zeta.
  assert (AppState_eqb (state st) STANDBY = false) as Hb.
  { destruct (AppState_eqb (state st) STANDBY) eqn:E; [|reflexivity].
    apply AppState_eqb_eq in E. contradiction. }
  destruct Hc as [-> | ->]; cbn [c_toggleStandby AppTsx Part000Tsx];
    unfold App.toggleStandby, Part000.toggleStandby, App.enableWakeWord,
      Part000.enableWakeWord; rewrite Hb; cbn; repeat split.
Qed.

(** ** The schedule, once more *)

Lemma specSchedule_backToBack arrivals cursor :
  Forall (fun x => (fst x <= cursor)%Z /\ (0 <= snd x)%Z) arrivals ->
  map fst (specSchedule cursor arrivals) = backToBack cursor (map snd arrivals).
Proof.
  revert cursor. induction arrivals as [|[now d] rest IH]; intros cursor H; simpl;
    [reflexivity|].
  inversion H as [|x l [Hn Hd] Hrest]; subst. cbn [fst snd] in *.
  rewrite (Z.max_l _ _ Hn). f_equal. apply IH.
  eapply Forall_impl; [|exact Hrest]. intros [n' d'] [H1 H2]. cbn [fst snd] in *.
  split; lia.
Qed.

Lemma playable_duration c : playable c = true -> (0 <= chunkDuration (snd c))%Z.
Proof.
  unfold playable, chunkDuration. destruct (playOutcome (snd c)) eqn:Ho; try discriminate.
  intros _. eapply playOutcome_duration, Ho.
Qed.

(** X20: a burst of any number of playable chunks plays back to back.
    When the first chunk is scheduled at [t = max(cursor, now)] and every
    later chunk is handled while the device clock has not passed [t], the
    buffers start at [t], [t + d1], [t + d1 + d2] and so on, each at the
    end of the one before, with no gap and no overlap. *)
Theorem burst_plays_back_to_back (first : Chunk) (rest : list Chunk) (st : St) :
  sessionOpen st ->
  forallb playable (first :: rest) = true ->
  let t := Z.max (nextStartTimeRef st) (currentTime (fst first)) in
  Forall (fun c => (currentTime (fst c) <= t)%Z) rest ->
  startTimes (snd (run AppTsx (audioEvents (first :: rest)) st)) =
  backToBack t (map (fun c => chunkDuration (snd c)) (first :: rest)).
Proof.
  intros Hopen Hp. cbv zeta. intros Hrest. unfold startTimes.
  destruct (run_audio_refines (first :: rest) st Hopen Hp) as [-> _].
  cbn [map specSchedule arrival fst snd backToBack].
  set (t := Z.max (nextStartTimeRef st) (currentTime (fst first))) in *.
  f_equal.
  simpl in Hp. apply andb_prop in Hp as [Hp1 Hp2].
  pose proof (playable_duration first Hp1) as Hd.
  rewrite specSchedule_backToBack.
  - rewrite map_map. reflexivity.
  - apply Forall_forall. intros x Hx. apply in_map_iff in Hx as (c & <- & Hc).
    unfold arrival. cbn [fst snd]. split.
    + rewrite Forall_forall in Hrest. specialize (Hrest c Hc). lia.
    + apply playable_duration. rewrite forallb_forall in Hp2. apply Hp2, Hc.
Qed.

Lemma App_onmessage_interrupts env message st :
  sessionOpen st ->
  interrupts message = true ->
  let st' := fst (App.onmessage env message st) in
  sessionOpen st' /\ nextStartTimeRef st' = 0%Z /\ sourcesRef st' = [].
Proof.
  intros Hopen Hi. cbv zeta. split.
  - assert (sameSession st (fst (App.onmessage env message st))) as (_ & _ & Ho & Hc & _).
    { apply onmessageWith_session; intros;
        [apply App_accumulate_frame | apply App_play_session]. }
    destruct Hopen as [Hcl Hctx]. split; [rewrite Hc; exact Hcl | rewrite Ho; exact Hctx].
  - rewrite App_onmessage_open by assumption. cbv zeta. cbn [fst].
    unfold interrupts in Hi. destruct (serverContent message) as [sc|]; [|discriminate].
    destruct (handleTurnEnd_interrupted env sc
                (fst (audioStep (App.play env) (Some sc)
                        (App.accumulate (Some sc)
                           (setMood (toolMood ResponseObject message st) st)))) Hi)
      as (Hs & Hc & _).
    split; assumption.
Qed.

(** X21: after an interruption the next buffer starts at the device
    clock.  The interruption has put the cursor back to 0, so the first
    playable chunk that follows is started at the clock reading of its
    arrival, and the cursor moves to that reading plus its duration. *)
Theorem after_interruption_starts_at_clock
    (env env' : Env) (message : LiveServerMessage) (audioData : string)
    (raw : AudioUtils.Uint8Array) (buffer : AudioUtils.AudioBuffer) (st : St) :
  sessionOpen st ->
  interrupts message = true ->
  playOutcome audioData = Built raw buffer ->
  fault env' = None ->
  (0 <= currentTime env')%Z ->
  let st1 := fst (App.onmessage env message st) in
  let r := App.onmessage env' (audioMessage audioData) st1 in
  snd r = [SourceStart (nextSourceId st1) buffer (currentTime env')] /\
  nextStartTimeRef (fst r) = (currentTime env' + AudioUtils.duration buffer)%Z /\
  sourcesRef (fst r) = [nextSourceId st1].
Proof.
  intros Hopen Hi Ho Hf Hnow. cbv zeta.
  destruct (App_onmessage_interrupts env message st Hopen Hi) as (Hopen1 & Hc1 & Hs1).
  cbv zeta in *.
  destruct (App_onmessage_audio env' audioData raw buffer
              (fst (App.onmessage env message st)) Hopen1 Ho Hf)
    as (He & Hc & Hs & _).
  cbv zeta in *. rewrite Hc1 in He, Hc. rewrite Hs1 in Hs.
  rewrite (Z.max_r _ _ Hnow) in He, Hc. repeat split; assumption.
Qed.

(** ** Events that arrive during a teardown *)

Lemma guarded_closing c ev st :
  isFile c ->
  isGuarded ev = true ->
  isClosingRef st = true ->
  step c ev st = (st, []).
Proof.
  intros Hc Hg Hcl. destruct ev; try discriminate Hg; cbn [step].
  - unfold sendWhenReady. rewrite Hcl. destruct session; reflexivity.
  - destruct Hc as [-> | ->]; cbn [c_onmessage AppTsx Part000Tsx];
      unfold App.onmessage, Part000.onmessage, onmessageWith; rewrite Hcl; reflexivity.
Qed.

Lemma run_guarded_closing c evs st :
  isFile c ->
  forallb isGuarded evs = true ->
  isClosingRef st = true ->
  run c evs st = (st, []).
Proof.
  intros Hc. induction evs as [|ev rest IH]; intros H Hcl; simpl in *; [reflexivity|].
  apply andb_prop in H as [H1 H2].
  rewrite andThen_eq, (guarded_closing c ev st Hc H1 Hcl). cbn [fst snd].
  rewrite IH by assumption. reflexivity.
Qed.

Lemma run_cons c ev evs st :
  run c (ev :: evs) st =
  (fst (run c evs (fst (step c ev st))),
   (snd (step c ev st) ++ snd (run c evs (fst (step c ev st))))%list).
Proof. simpl. apply andThen_eq. Qed.

(** X22: inbound messages and queued sends that arrive while a teardown
    is in flight do not change its outcome.  With any number of them
    between the segments of [cleanupResources], after it has set the
    closing flag and before it clears it, the state and the calls are the
    ones of the teardown run without interruption. *)
Theorem teardown_ignores_late_events
    (c : Component) (late1 late2 late3 : list Event) (st : St) :
  isFile c ->
  forallb isGuarded (late1 ++ late2 ++ late3) = true ->
  run c (EvCleanup SegEnter :: late1 ++
         EvCleanup SegInput :: late2 ++
         EvCleanup SegOutput :: late3 ++ [EvCleanup SegExit]) st =
  cleanupResources st.
Proof.
  intros Hc H. rewrite !forallb_app in H.
  apply andb_prop in H as [H1 H]. apply andb_prop in H as [H2 H3].
  assert (isClosingRef (fst (cleanup_enter st)) = true) as C1.
  { unfold cleanup_enter. destruct (sessionRef (set_isClosingRef true st)); reflexivity. }
  assert (forall s, isClosingRef (fst (cleanup_input s)) = isClosingRef s) as C2.
  { intros s. unfold cleanup_input. destruct (audioContextRef s); reflexivity. }
  assert (forall s, isClosingRef (fst (cleanup_output s)) = isClosingRef s) as C3.
  { intros s. unfold cleanup_output. destruct (outputAudioContextRef s); reflexivity. }
  rewrite run_cons, run_app, andThen_eq. cbn [step cleanupSegment].
  rewrite (run_guarded_closing c late1 _ Hc H1 C1). cbn [fst snd app].
  rewrite run_cons, run_app, andThen_eq. cbn [step cleanupSegment].
  rewrite (run_guarded_closing c late2 _ Hc H2) by (rewrite C2; exact C1).
  cbn [fst snd app].
  rewrite run_cons, run_app, andThen_eq. cbn [step cleanupSegment].
  rewrite (run_guarded_closing c late3 _ Hc H3) by (rewrite C3, C2; exact C1).
  cbn [fst snd app run]. rewrite andThen_eq. cbn [skip fst snd step cleanupSegment].
  unfold cleanupResources. rewrite !andThen_eq. cbn [fst snd].
  rewrite !app_nil_r. reflexivity.
Qed.

(** ** The tag of an entry *)

Lemma onended_frame_moodRef source st : moodRef (onended source st) = moodRef st.
Proof.
  unfold onended. cbn.
  destruct (filter (fun h => negb (h =? source)%nat) (sourcesRef st));
    [destruct (negb (isClosingRef st))|]; reflexivity.
Qed.

Lemma step_keeps_moodRef c ev st :
  isFile c ->
  isMessage ev = false ->
  betweenRenders ev = true ->
  moodRef (fst (step c ev st)) = moodRef st.
Proof.
  intros Hc Hm Hb.
  assert (preserves moodRef cleanupResources) as Hcl by auto with frame.
  assert (silent isSourceStart cleanupResources) as Hsl by auto with frame.
  pose proof (fun outcome =>
                startConversation_frame moodRef isSourceStart c outcome Hc Hcl Hsl
                  (fun _ _ => eq_refl) (fun _ _ => eq_refl) (fun _ => eq_refl)
                  eq_refl (fun _ => eq_refl) (fun _ => eq_refl)) as Hstart.
  pose proof (fun supported id =>
                toggleStandby_frame moodRef isSourceStart c supported id Hc
                  (fun _ _ => eq_refl) (fun _ _ => eq_refl) (fun _ _ => eq_refl)
                  (fun _ => eq_refl) (fun _ => eq_refl)) as Htoggle.
  destruct ev; try discriminate Hm; try discriminate Hb; cbn [step].
  - destruct (Hstart outcome) as ((A & _) & _). apply A.
  - destruct Hc as [-> | ->]; reflexivity.
  - destruct (Hstart MissingApiKey) as (_ & H & _). apply (H message).
  - unfold stopConversation. rewrite andThen_fst, <- (Hcl st).
    destruct forceSleep; [rewrite andThen_fst|]; reflexivity.
  - reflexivity.
  - reflexivity.
  - reflexivity.
  - apply onended_frame_moodRef.
  - destruct (Hstart MissingApiKey) as (_ & _ & H). apply (H err).
  - destruct captured; reflexivity.
  - destruct (Htoggle supported id) as (A & _). apply A.
  - reflexivity.
  - reflexivity.
  - reflexivity.
  - destruct seg; cbn [cleanupSegment]; unfold cleanup_enter, cleanup_input,
      cleanup_output, cleanup_exit.
    + destruct (sessionRef (set_isClosingRef true st)); reflexivity.
    + destruct (audioContextRef st); reflexivity.
    + destruct (outputAudioContextRef st); reflexivity.
    + reflexivity.
Qed.

Lemma handleTurnEnd_tagged env sc st :
  exists added,
    transcripts (fst (handleTurnEnd env sc st)) = (transcripts st ++ added)%list /\
    Forall (fun e => entry_mood e = moodRef st) added /\
    moodRef (fst (handleTurnEnd env sc st)) = moodRef st.
Proof.
  assert (exists added,
            transcripts (handleTurnComplete env st) = (transcripts st ++ added)%list /\
            Forall (fun e => entry_mood e = moodRef st) added /\
            moodRef (handleTurnComplete env st) = moodRef st) as (added & Ha & Hf & Hm).
  { unfold handleTurnComplete.
    destruct (Js.truthy _); cbn; destruct (sourcesRef st); cbn;
      eexists; (split; [reflexivity || (symmetry; apply app_nil_r)|]);
      split; try reflexivity; repeat constructor. }
  unfold handleTurnEnd, handleInterrupted.
  destruct sc as [c|]; [|exists []; rewrite app_nil_r; repeat split; constructor].
  destruct (turnComplete c), (interrupted c); cbn [fst];
    first [ exists added; repeat split; assumption
          | exists []; rewrite app_nil_r; repeat split; constructor ].
Qed.

Lemma onmessageWith_tagged wrap accumulate resume play env message st :
  (forall sc s, transcripts (accumulate sc s) = transcripts s /\
                moodRef (accumulate sc s) = moodRef s) ->
  (forall a s, transcripts (fst (play a s)) = transcripts s /\
               moodRef (fst (play a s)) = moodRef s) ->
  let st' := fst (onmessageWith wrap accumulate (playAudio resume play) env message st) in
  exists added,
    transcripts st' = (transcripts st ++ added)%list /\
    Forall (fun e => entry_mood e = moodRef st) added /\
    moodRef st' = moodRef st.
Proof.
  intros Hacc Hplay. cbv zeta.
  destruct (isClosingRef st) eqn:Hcl.
  - unfold onmessageWith. rewrite Hcl. exists []. rewrite app_nil_r.
    repeat split. constructor.
  - rewrite onmessageWith_cases by assumption. cbv zeta.
    set (st2 := accumulate (serverContent message)
                  (setMood (toolMood wrap message st) st)).
    assert (transcripts st2 = transcripts st /\ moodRef st2 = moodRef st) as [T2 M2].
    { unfold st2. destruct (Hacc (serverContent message)
                              (setMood (toolMood wrap message st) st)) as [-> ->].
      split; reflexivity. }
    assert (transcripts (fst (fst (playAudio resume play (serverContent message) st2))) =
            transcripts st2 /\
            moodRef (fst (fst (playAudio resume play (serverContent message) st2))) =
            moodRef st2) as [T3 M3].
    { apply (playAudio_cases
               (fun s r => transcripts (fst r) = transcripts s /\
                           moodRef (fst r) = moodRef s)).
      - split; reflexivity.
      - intros a _. destruct (Hplay a (setState SPEAKING st2)) as [-> ->].
        split; reflexivity. }
    destruct (snd (playAudio resume play (serverContent message) st2)); cbn [fst].
    + destruct (handleTurnEnd_tagged env (serverContent message)
                  (fst (fst (playAudio resume play (serverContent message) st2))))
        as (added & Ha & Hf & Hm).
      exists added. rewrite Ha, Hm, T3, T2, M3, M2. repeat split.
      rewrite M3, M2 in Hf. exact Hf.
    + exists []. rewrite app_nil_r, T3, T2, M3, M2. repeat split. constructor.
Qed.

Lemma step_tagged c ev st :
  isFile c ->
  betweenRenders ev = true ->
  exists added,
    transcripts (fst (step c ev st)) = (transcripts st ++ added)%list /\
    Forall (fun e => entry_mood e = moodRef st) added /\
    moodRef (fst (step c ev st)) = moodRef st.
Proof.
  intros Hc Hb. destruct (isMessage ev) eqn:Hm.
  - destruct ev; try discriminate Hm. cbn [step].
    destruct Hc as [-> | ->]; cbn [c_onmessage AppTsx Part000Tsx];
      apply onmessageWith_tagged; intros; split;
      first [ apply App_accumulate_frame | apply Part000_accumulate_frame
            | apply App_play_frame | apply Part000_play_frame ].
  - exists []. rewrite app_nil_r. repeat split; [|constructor|].
    + apply step_keeps_log; try assumption. destruct ev; try reflexivity; discriminate Hb.
    + apply step_keeps_moodRef; assumption.
Qed.

(** X23: an entry is tagged with the Mood of the last render.  Between
    two runs of the render effect nothing writes [moodRef], so every
    entry appended in between, by either file, carries the Mood that was
    rendered before: a [setMood] call reaches the tags only after the
    next render. *)
Theorem entries_tagged_with_rendered_mood (c : Component) (evs : list Event) (st : St) :
  isFile c ->
  forallb betweenRenders evs = true ->
  exists added,
    transcripts (fst (run c evs st)) = (transcripts st ++ added)%list /\
    Forall (fun e => entry_mood e = moodRef st) added /\
    moodRef (fst (run c evs st)) = moodRef st /\
    moodRef (syncMoodRef (fst (run c evs st))) = mood (fst (run c evs st)).
Proof.
  intros Hc. revert st. induction evs as [|ev rest IH]; intros st H; simpl in *.
  - exists []. rewrite app_nil_r. repeat split. constructor.
  - apply andb_prop in H as [H1 H2]. rewrite andThen_fst.
    destruct (step_tagged c ev st Hc H1) as (a1 & Ha1 & Hf1 & Hm1).
    destruct (IH (fst (step c ev st)) H2) as (a2 & Ha2 & Hf2 & Hm2 & _).
    exists (a1 ++ a2)%list. rewrite Ha2, Ha1, app_assoc, Hm2, Hm1. repeat split.
    apply Forall_app. split; [exact Hf1|]. rewrite Hm1 in Hf2. exact Hf2.
Qed.

(** ** The cursor is never negative *)

Lemma scheduleBuffer_nonneg env buffer st :
  (0 <= AudioUtils.duration buffer)%Z ->
  (0 <= nextStartTimeRef st)%Z ->
  (0 <= nextStartTimeRef (fst (scheduleBuffer env buffer st)))%Z /\
  startsFromZero (snd (scheduleBuffer env buffer st)).
Proof.
  intros Hd Hc. unfold scheduleBuffer, startsFromZero.
  destruct (fault env) as [[]|]; cbn; split; try lia; repeat constructor; cbn; lia.
Qed.

Lemma play_nonneg env a st :
  (0 <= nextStartTimeRef st)%Z ->
  ((0 <= nextStartTimeRef (fst (App.play env a st)))%Z /\
   startsFromZero (snd (App.play env a st))) /\
  ((0 <= nextStartTimeRef (fst (Part000.play env a st)))%Z /\
   startsFromZero (snd (Part000.play env a st))).
Proof.
  intros Hc. rewrite App_play_cases, Part000_play_cases.
  destruct (playOutcome a) eqn:Ho; split;
    try (split; [exact Hc | constructor]);
    apply scheduleBuffer_nonneg; try exact Hc; try (simpl; lia);
    eapply playOutcome_duration, Ho.
Qed.

Lemma startsFromZero_app e1 e2 :
  startsFromZero e1 -> startsFromZero e2 -> startsFromZero (e1 ++ e2).
Proof.
  unfold startsFromZero. intros H1 H2. rewrite intervals_app. apply Forall_app.
  split; assumption.
Qed.

Lemma startsFromZero_without eff : without isSourceStart eff -> startsFromZero eff.
Proof. intros H. unfold startsFromZero. rewrite (intervals_without _ H). constructor. Qed.

Lemma handleTurnEnd_nonneg env sc st :
  (0 <= nextStartTimeRef st)%Z ->
  (0 <= nextStartTimeRef (fst (handleTurnEnd env sc st)))%Z.
Proof.
  intros Hc. unfold handleTurnEnd, handleInterrupted, handleTurnComplete.
  destruct sc as [c|]; [|exact Hc].
  destruct (turnComplete c), (interrupted c); cbn [fst];
    try destruct (Js.truthy _); cbn; try destruct (sourcesRef _); cbn; lia.
Qed.

Lemma onmessageWith_nonneg wrap accumulate resume play env message st :
  (forall sc s, nextStartTimeRef (accumulate sc s) = nextStartTimeRef s) ->
  (forall a s, (0 <= nextStartTimeRef s)%Z ->
               (0 <= nextStartTimeRef (fst (play a s)))%Z /\
               startsFromZero (snd (play a s))) ->
  (0 <= nextStartTimeRef st)%Z ->
  let r := onmessageWith wrap accumulate (playAudio resume play) env message st in
  (0 <= nextStartTimeRef (fst r))%Z /\ startsFromZero (snd r).
Proof.
  intros Hacc Hplay Hc. cbv zeta.
  destruct (isClosingRef st) eqn:Hcl.
  - unfold onmessageWith. rewrite Hcl. split; [exact Hc | constructor].
  - rewrite onmessageWith_cases by assumption. cbv zeta.
    set (st2 := accumulate (serverContent message)
                  (setMood (toolMood wrap message st) st)).
    assert (0 <= nextStartTimeRef st2)%Z as H2 by (unfold st2; rewrite Hacc; exact Hc).
    assert ((0 <= nextStartTimeRef
                    (fst (fst (playAudio resume play (serverContent message) st2))))%Z /\
            startsFromZero (snd (fst (playAudio resume play (serverContent message) st2))))
      as [H3 E3].
    { apply (playAudio_cases
               (fun s r => (0 <= nextStartTimeRef s)%Z ->
                           (0 <= nextStartTimeRef (fst r))%Z /\ startsFromZero (snd r)));
        [intros H; split; [exact H | constructor] | intros a _ H; apply Hplay; exact H
        | exact H2]. }
    pose proof (startsFromZero_without _
                  (handleToolCall_effects isSourceStart wrap message st
                     (conj (fun _ => eq_refl) (fun _ => eq_refl)))) as E1.
    destruct (snd (playAudio resume play (serverContent message) st2)); cbn [fst snd].
    + split; [apply handleTurnEnd_nonneg, H3|].
      repeat apply startsFromZero_app; try assumption.
      apply startsFromZero_without, handleTurnEnd_effects. split; reflexivity.
    + split; [exact H3|]. apply startsFromZero_app; assumption.
Qed.

Lemma step_nonneg c ev st :
  isFile c ->
  (0 <= nextStartTimeRef st)%Z ->
  (0 <= nextStartTimeRef (fst (step c ev st)))%Z /\ startsFromZero (snd (step c ev st)).
Proof.
  intros Hc H. destruct (isMessage ev) eqn:Hm.
  - destruct ev; try discriminate Hm. cbn [step].
    destruct Hc as [-> | ->]; cbn [c_onmessage AppTsx Part000Tsx];
      apply onmessageWith_nonneg; try exact H; intros;
      first [ apply App_accumulate_frame | apply Part000_accumulate_frame
            | apply play_nonneg; assumption ].
  - destruct (step_keeps_cursor c ev st Hc Hm) as [H1 H2]. rewrite H1.
    split; [exact H | apply startsFromZero_without, H2].
Qed.

(** X24: the playback cursor is never negative, and no buffer is ever
    started at a negative time, whatever the device clock reads (even a
    negative reading): from the initial state, over any sequence of
    events of either file, [source.start] is called with a time that is
    at least 0. *)
Theorem start_times_never_negative (c : Component) (evs : list Event) :
  isFile c ->
  (0 <= nextStartTimeRef (fst (run c evs initial)))%Z /\
  startsFromZero (snd (run c evs initial)).
Proof.
  intros Hc.
  assert (forall st, (0 <= nextStartTimeRef st)%Z ->
                     (0 <= nextStartTimeRef (fst (run c evs st)))%Z /\
                     startsFromZero (snd (run c evs st))) as H.
  { induction evs as [|ev rest IH]; intros st Hst; simpl.
    - split; [exact Hst | constructor].
    - rewrite andThen_eq. cbn [fst snd].
      destruct (step_nonneg c ev st Hc Hst) as [H1 E1].
      destruct (IH _ H1) as [H2 E2].
      split; [exact H2 | apply startsFromZero_app; assumption]. }
  apply H. simpl. lia.
Qed.

(** ** Captured frames *)

(** X25: a captured frame reaches the transport exactly when the closing
    flag is clear both when the frame is captured and when the session
    promise hands it on, and the promise has resolved to a session; it
    is then sent once, as the blob [createPcmBlob] made of it.  A frame
    captured just before a teardown and handed on during it is dropped,
    and dropping is silent: no other call is made and no cell is
    written. *)
Theorem frame_sent_when_not_closing
    (Float32Array : Type) (createPcmBlob : Float32Array -> PcmBlob)
    (inputData : Float32Array) (session : option Session) (st st' : St) :
  let sent :=
    match onaudioprocess Float32Array createPcmBlob inputData st with
    | Some pcmBlob => sendWhenReady session pcmBlob st'
    | None => []
    end in
  sent =
  if negb (isClosingRef st) && negb (isClosingRef st')
     && match session with Some _ => true | None => false end
  then [SendRealtimeInput (createPcmBlob inputData)] else [].
Proof.
  cbv zeta. unfold onaudioprocess, sendWhenReady.
  destruct (isClosingRef st), (isClosingRef st'), session; reflexivity.
Qed.

(** ** The transcript of the user *)

Lemma forgetInput_eq s1 s2 :
  forgetInput s1 = forgetInput s2 ->
  s1 = set_currentInputTranscription (currentInputTranscription s1) s2.
Proof.
  destruct s1, s2. unfold forgetInput, set_currentInputTranscription. cbn.
  intros H. injection H as -> -> -> -> -> -> -> -> -> -> -> -> -> ->. reflexivity.
Qed.

Lemma inputBlind_andThen a b : inputBlind a -> inputBlind b -> inputBlind (andThen a b).
Proof.
  intros Ha Hb st x. destruct (Ha st x) as [Ha1 Ha2].
  rewrite !andThen_eq. cbn [fst snd].
  rewrite (forgetInput_eq _ _ Ha2).
  destruct (Hb (fst (a st))
              (currentInputTranscription (fst (a (set_currentInputTranscription x st)))))
    as [Hb1 Hb2].
  rewrite Ha1, Hb1, Hb2. split; reflexivity.
Qed.

Lemma inputBlind_pure f :
  (forall st x, forgetInput (f (set_currentInputTranscription x st)) = forgetInput (f st)) ->
  inputBlind (pure f).
Proof. intros H st x. split; [reflexivity | apply H]. Qed.

Lemma inputBlind_emit e : inputBlind (emit e).
Proof. intros st x. split; reflexivity. Qed.

Lemma inputBlind_skip : inputBlind skip.
Proof. intros st x. split; reflexivity. Qed.

Lemma inputBlind_cleanupResources : inputBlind cleanupResources.
Proof.
  intros st x. rewrite !cleanupResources_effects, !cleanupResources_state.
  split; reflexivity.
Qed.

Lemma handleFunctionCalls_reads_mood wrap fcs st1 st2 :
  mood st1 = mood st2 ->
  mood (fst (handleFunctionCalls wrap fcs st1)) =
  mood (fst (handleFunctionCalls wrap fcs st2)).
Proof.
  revert st1 st2. induction fcs as [|fc rest IH]; intros st1 st2 H; simpl; [exact H|].
  rewrite !andThen_fst. apply IH.
  unfold handleFunctionCall, applyDetectedMood.
  destruct (isSetMood fc); cbn [fst]; [|exact H].
  destruct (fc_mood fc) as [k|]; [|exact H].
  destruct (Js.truthy k); [|exact H].
  destruct (Mood_get k); try exact H; reflexivity.
Qed.

Lemma toolMood_blind wrap message st x :
  toolMood wrap message (set_currentInputTranscription x st) = toolMood wrap message st.
Proof.
  unfold toolMood, handleToolCall. destruct (functionCalls message); [|reflexivity].
  apply handleFunctionCalls_reads_mood. reflexivity.
Qed.

Lemma scheduleBuffer_blind env buffer : inputBlind (scheduleBuffer env buffer).
Proof.
  intros st x. unfold scheduleBuffer. destruct (fault env) as [[]|]; split; reflexivity.
Qed.

Lemma play_blind env a : inputBlind (App.play env a) /\ inputBlind (Part000.play env a).
Proof.
  split; intros st x; rewrite ?App_play_cases, ?Part000_play_cases;
    destruct (playOutcome a); try (split; reflexivity); apply scheduleBuffer_blind.
Qed.

Lemma handleTurnEnd_blind env sc : inputBlind (handleTurnEnd env sc).
Proof.
  intros st x. unfold handleTurnEnd, handleInterrupted, handleTurnComplete.
  destruct sc as [c|]; [|split; reflexivity].
  destruct (turnComplete c), (interrupted c); cbn;
    try destruct (Js.truthy _); cbn; try destruct (sourcesRef st); split; reflexivity.
Qed.

Lemma playAudio_blind resume play sc st x :
  (forall a, inputBlind (play a)) ->
  let r := playAudio resume play sc st in
  let r' := playAudio resume play sc (set_currentInputTranscription x st) in
  snd r' = snd r /\ snd (fst r') = snd (fst r) /\
  forgetInput (fst (fst r')) = forgetInput (fst (fst r)).
Proof.
  intros Hplay. cbv zeta. unfold playAudio.
  destruct (audioDataOf sc) as [a|]; [|repeat split].
  cbn [isClosingRef set_currentInputTranscription outputAudioContextRef].
  destruct (Js.truthy a && negb (isClosingRef st)); [|repeat split].
  destruct (outputAudioContextRef st); [|repeat split].
  destruct resume; [|repeat split].
  destruct (Hplay a (setState SPEAKING st) x) as [H1 H2].
  change (setState SPEAKING (set_currentInputTranscription x st))
    with (set_currentInputTranscription x (setState SPEAKING st)).
  destruct (play a (set_currentInputTranscription x (setState SPEAKING st))) as [s1 e1].
  destruct (play a (setState SPEAKING st)) as [s2 e2].
  cbn [fst snd] in *. repeat split; assumption.
Qed.

Lemma onmessageWith_blind wrap accumulate resume play env message :
  (forall sc st x,
     forgetInput (accumulate sc (set_currentInputTranscription x st)) =
     forgetInput (accumulate sc st)) ->
  (forall a, inputBlind (play a)) ->
  inputBlind (onmessageWith wrap accumulate (playAudio resume play) env message).
Proof.
  intros Hacc Hplay st x.
  destruct (isClosingRef st) eqn:Hcl.
  - unfold onmessageWith. cbn [isClosingRef set_currentInputTranscription].
    rewrite Hcl. split; reflexivity.
  - rewrite !onmessageWith_cases by (try exact Hcl; cbn; exact Hcl). cbv zeta.
    rewrite !handleToolCall_acks, toolMood_blind.
    set (m := toolMood wrap message st).
    change (setMood m (set_currentInputTranscription x st))
      with (set_currentInputTranscription x (setMood m st)).
    pose proof (Hacc (serverContent message) (setMood m st) x) as H2.
    rewrite (forgetInput_eq _ _ H2).
    set (st2 := accumulate (serverContent message) (setMood m st)).
    set (y := currentInputTranscription
                (accumulate (serverContent message)
                   (set_currentInputTranscription x (setMood m st)))).
    destruct (playAudio_blind resume play (serverContent message) st2 y Hplay)
      as (Hc & He & Hs).
    cbv zeta in Hc, He, Hs. rewrite Hc, He.
    destruct (snd (playAudio resume play (serverContent message) st2)); cbn [fst snd].
    + rewrite (forgetInput_eq _ _ Hs).
      destruct (handleTurnEnd_blind env (serverContent message)
                  (fst (fst (playAudio resume play (serverContent message) st2)))
                  (currentInputTranscription
                     (fst (fst (playAudio resume play (serverContent message)
                                  (set_currentInputTranscription y st2))))))
        as [H5 H6].
      rewrite H5, H6. split; reflexivity.
    + split; [reflexivity | exact Hs].
Qed.

Lemma accumulate_blind sc st x :
  forgetInput (App.accumulate sc (set_currentInputTranscription x st)) =
    forgetInput (App.accumulate sc st) /\
  forgetInput (Part000.accumulate sc (set_currentInputTranscription x st)) =
    forgetInput (Part000.accumulate sc st).
Proof.
  unfold App.accumulate, Part000.accumulate.
  destruct sc as [c|]; [|split; reflexivity].
  destruct (outputTranscription c), (inputTranscription c); split; reflexivity.
Qed.

Create HintDb blind.

#[local] Hint Resolve inputBlind_andThen inputBlind_emit inputBlind_skip
  inputBlind_cleanupResources : blind.
#[local] Hint Extern 1 (inputBlind (pure _)) =>
  apply inputBlind_pure; intros; reflexivity : blind.
#[local] Hint Extern 2 (inputBlind (if ?b then _ else _)) => destruct b : blind.
#[local] Hint Extern 2 (inputBlind (match ?o with _ => _ end)) => destruct o : blind.

Lemma step_blind c ev : isFile c -> inputBlind (step c ev).
Proof.
  intros Hc. destruct ev; cbn [step].
  - destruct Hc as [-> | ->]; cbn [c_startConversation AppTsx Part000Tsx];
      unfold App.startConversation, Part000.startConversation, App.startFailed,
        Part000.startFailed; destruct outcome; auto 15 with blind;
      repeat (apply inputBlind_andThen; auto 15 with blind);
      intros st x; unfold Part000.stopRecognition; split; reflexivity.
  - destruct Hc as [-> | ->]; auto with blind.
  - destruct Hc as [-> | ->]; cbn [c_sessionRejected AppTsx Part000Tsx];
      unfold App.sessionRejected, Part000.sessionRejected, App.startFailed,
        Part000.startFailed; auto 15 with blind.
  - unfold stopConversation. destruct forceSleep; auto 15 with blind.
  - auto with blind.
  - auto with blind.
  - intros st x. split; reflexivity.
  - destruct Hc as [-> | ->]; cbn [c_onmessage AppTsx Part000Tsx];
      unfold App.onmessage, Part000.onmessage; apply onmessageWith_blind;
      intros; first [apply accumulate_blind | apply play_blind].
  - apply inputBlind_pure. intros st x. unfold onended. cbn.
    destruct (filter (fun h => negb (h =? source)%nat) (sourcesRef st));
      [destruct (negb (isClosingRef st))|]; reflexivity.
  - destruct Hc as [-> | ->]; cbn [c_onerror AppTsx Part000Tsx];
      unfold App.onerror, Part000.onerror; auto 15 with blind.
  - apply inputBlind_pure. intros st x. destruct captured; reflexivity.
  - intros st x. destruct Hc as [-> | ->]; cbn [c_toggleStandby AppTsx Part000Tsx];
      unfold App.toggleStandby, Part000.toggleStandby, App.enableWakeWord,
        Part000.enableWakeWord; cbn [state set_currentInputTranscription];
      destruct (AppState_eqb (state st) STANDBY), supported; split; reflexivity.
  - intros st x. split; reflexivity.
  - intros st x. split; reflexivity.
  - auto with blind.
  - auto with blind.
  - auto with blind.
  - intros st x. destruct seg; cbn [cleanupSegment]; unfold cleanup_enter, cleanup_input,
      cleanup_output, cleanup_exit; cbn.
    + destruct (sessionRef st); split; reflexivity.
    + destruct (audioContextRef st); split; reflexivity.
    + destruct (outputAudioContextRef st); split; reflexivity.
    + split; reflexivity.
Qed.

(** X26: the transcript of the user's own speech is accumulated and
    never used.  Whatever text [currentInputTranscription] holds, every
    run of either file makes the same calls and leaves the same state in
    every other cell: the log, the phase, the Mood, the schedule and the
    traffic on the transport do not depend on it. *)
Theorem input_transcript_never_read (c : Component) (evs : list Event) (st : St) (x : string) :
  isFile c ->
  snd (run c evs (set_currentInputTranscription x st)) = snd (run c evs st) /\
  forgetInput (fst (run c evs (set_currentInputTranscription x st))) =
  forgetInput (fst (run c evs st)).
Proof.
  intros Hc. revert st x.
  change (inputBlind (run c evs)).
  induction evs as [|ev rest IH]; simpl.
  - apply inputBlind_skip.
  - apply inputBlind_andThen; [apply step_blind, Hc | exact IH].
Qed.

(** ** Witnesses of the further properties *)

Lemma reachable_run c evs st : reachable c st -> reachable c (fst (run c evs st)).
Proof.
  revert st. induction evs as [|ev rest IH]; intros st H; simpl; [exact H|].
  rewrite andThen_fst. apply IH. apply reachable_step. exact H.
Qed.

Lemma openedSession_reachable : reachable AppTsx openedSession.
Proof. unfold openedSession. apply reachable_run, reachable_initial. Qed.

Lemma afterOneTurn_reachable : reachable AppTsx afterOneTurn.
Proof. unfold afterOneTurn. apply reachable_step, openedSession_reachable. Qed.

Lemma openedSession_open : sessionOpen openedSession.
Proof. split; [reflexivity | discriminate]. Qed.

Lemma speakingSession_open : sessionOpen speakingSession.
Proof. split; [vm_compute; reflexivity | vm_compute; discriminate]. Qed.

Lemma startConversation_failure_witness :
  state (fst (App.startConversation MissingApiKey speakingSession)) = ERROR /\
  errorMessage (fst (Part000.startConversation (ThrowsAfterContexts None) speakingSession)) =
  Some (part000StartError (ThrowsAfterContexts None)).
Proof.
  destruct (startConversation_failure MissingApiKey speakingSession eq_refl)
    as ((A & _) & _).
  destruct (startConversation_failure (ThrowsAfterContexts None) speakingSession eq_refl)
    as (_ & (_ & _ & B & _)).
  split; [exact A | exact B].
Defined.

Lemma fragments_joined_in_order_witness :
  transcripts
    (fst (run AppTsx
            (fragmentEvents (quietEnv 1) [" Magandang"; " umaga "; "po. "] ++
             [EvMessage (quietEnv 2) turnCompleteMessage])
            openedSession)) =
  [{| role := RoleModel; text := "Magandang umaga po."; timestamp := 1700000000000%Z;
      entry_mood := MoodOf NEUTRAL |}].
Proof.
  destruct (fragments_joined_in_order AppTsx (quietEnv 1) (quietEnv 2)
              [" Magandang"; " umaga "; "po. "] openedSession
              (or_introl eq_refl) eq_refl) as (H & _).
  rewrite H. reflexivity.
Defined.

Lemma log_entries_wellFormed_witness : Forall wellFormedEntry (transcripts afterOneTurn).
Proof.
  exact (log_entries_wellFormed AppTsx afterOneTurn (or_introl eq_refl)
           afterOneTurn_reachable).
Defined.

Lemma transcript_view_shows_log_witness :
  Transcript.translations (transcripts afterOneTurn) = transcripts afterOneTurn.
Proof.
  exact (proj1 (transcript_view_shows_log AppTsx afterOneTurn (or_introl eq_refl)
                  afterOneTurn_reachable)).
Defined.

Lemma turn_cells_survive_witness :
  turnCells (fst (run AppTsx errorAndRestart speakingSession)) = turnCells speakingSession /\
  nextStartTimeRef speakingSession = 2%Z.
Proof.
  split; [|reflexivity].
  exact (proj1 (turn_cells_survive AppTsx errorAndRestart speakingSession
                  (or_introl eq_refl) eq_refl)).
Defined.

Lemma audio_arrival_speaks_witness :
  chunkFails (quietEnv 0) "!!!!" = true /\
  state (fst (App.onmessage (quietEnv 0) (audioMessage "!!!!") openedSession)) = SPEAKING.
Proof.
  split; [reflexivity|].
  exact (proj1 (audio_arrival_speaks (quietEnv 0) (audioMessage "!!!!") openedSession
                  openedSession_open eq_refl eq_refl)).
Defined.

Lemma audio_without_output_context_witness :
  transcripts (fst (App.onmessage (quietEnv 0) (lastChunkMessage "AAA=") stoppedMidTurn)) = [] /\
  currentOutputTranscription stoppedMidTurn = "Salamat".
Proof.
  destruct (audio_without_output_context (quietEnv 0) (lastChunkMessage "AAA=")
              stoppedMidTurn eq_refl eq_refl eq_refl) as (_ & (_ & A & _) & _).
  split; [|reflexivity]. rewrite A. reflexivity.
Defined.

Lemma resume_rejected_abandons_message_witness :
  state (fst (Part000.onmessage rejectingEnv (lastChunkMessage "AAA=") openedSession)) =
  state openedSession.
Proof.
  destruct (resume_rejected_abandons_message rejectingEnv (lastChunkMessage "AAA=")
              openedSession eq_refl eq_refl eq_refl eq_refl) as (_ & A & _).
  exact A.
Defined.

Lemma onmessage_no_foreign_call_witness :
  without isForeignCall
    (snd (c_onmessage Part000Tsx (quietEnv 0) (lastChunkMessage "AAA=") speakingSession)).
Proof.
  exact (onmessage_no_foreign_call Part000Tsx (quietEnv 0) (lastChunkMessage "AAA=")
           speakingSession (or_intror eq_refl)).
Defined.

Lemma no_automatic_restart_witness :
  without isStartCall (snd (run Part000Tsx errorAndRestart speakingSession)).
Proof.
  exact (no_automatic_restart Part000Tsx errorAndRestart speakingSession
           (or_intror eq_refl) eq_refl).
Defined.

Lemma mood_persists_witness :
  mood (fst (run AppTsx errorAndRestart happySession)) = MoodOf HAPPY.
Proof.
  rewrite (mood_persists AppTsx errorAndRestart happySession (or_introl eq_refl) eq_refl).
  reflexivity.
Defined.

Lemma toggleStandby_there_and_back_witness :
  state (fst (c_toggleStandby AppTsx true 7 initial)) = STANDBY /\
  state (fst (c_toggleStandby AppTsx false 8 (fst (c_toggleStandby AppTsx true 7 initial)))) =
  IDLE.
Proof.
  assert (H : state initial <> STANDBY) by discriminate.
  destruct (toggleStandby_there_and_back AppTsx 7 8 false initial (or_introl eq_refl) H)
    as (A & B & _).
  split; [rewrite A | rewrite B]; reflexivity.
Defined.

Lemma burst_plays_back_to_back_witness :
  startTimes
    (snd (run AppTsx
            (audioEvents [(quietEnv 5, "AAA="); (quietEnv 5, "AAAAAA=="); (quietEnv 4, "AAA=")])
            openedSession)) = [5; 6; 8]%Z.
Proof.
  assert (H : Forall (fun c : Chunk => (currentTime (fst c) <= 5)%Z)
                [(quietEnv 5, "AAAAAA=="); (quietEnv 4, "AAA=")])
    by (repeat constructor; cbv; discriminate).
  pose proof (burst_plays_back_to_back (quietEnv 5, "AAA=")
                [(quietEnv 5, "AAAAAA=="); (quietEnv 4, "AAA=")] openedSession
                openedSession_open eq_refl H) as B.
  etransitivity; [exact B | reflexivity].
Defined.

Lemma after_interruption_starts_at_clock_witness :
  nextStartTimeRef
    (fst (App.onmessage (quietEnv 9) (audioMessage "AAA=")
            (fst (App.onmessage (quietEnv 3) (contentMessage interruptedContent)
                    speakingSession)))) = 10%Z.
Proof.
  assert (H : (0 <= currentTime (quietEnv 9))%Z) by (cbv; discriminate).
  destruct (after_interruption_starts_at_clock (quietEnv 3) (quietEnv 9)
              (contentMessage interruptedContent) "AAA="
              [Byte.x00; Byte.x00] {| AudioUtils.duration := 1 |} speakingSession
              speakingSession_open eq_refl eq_refl eq_refl H) as (_ & A & _).
  rewrite A. reflexivity.
Defined.

Lemma teardown_ignores_late_events_witness :
  run AppTsx (EvCleanup SegEnter :: lateEvents ++
              EvCleanup SegInput :: lateEvents ++
              EvCleanup SegOutput :: [] ++ [EvCleanup SegExit]) speakingSession =
  cleanupResources speakingSession.
Proof.
  exact (teardown_ignores_late_events AppTsx lateEvents lateEvents [] speakingSession
           (or_introl eq_refl) eq_refl).
Defined.

Lemma entries_tagged_with_rendered_mood_witness :
  mood (fst (run AppTsx oneTurn openedSession)) = MoodOf HAPPY /\
  exists added,
    transcripts (fst (run AppTsx oneTurn openedSession)) =
      (transcripts openedSession ++ added)%list /\
    Forall (fun e => entry_mood e = MoodOf NEUTRAL) added.
Proof.
  split; [reflexivity|].
  destruct (entries_tagged_with_rendered_mood AppTsx oneTurn openedSession
              (or_introl eq_refl) eq_refl) as (added & A & B & _).
  exists added. split; [exact A | exact B].
Defined.

Lemma start_times_never_negative_witness :
  startsFromZero
    (snd (run AppTsx
            [EvStartConversation ConnectCalled; EvSessionResolved aSession; EvOpen;
             EvMessage earlyEnv (audioMessage "AAA=")]
            initial)).
Proof.
  exact (proj2 (start_times_never_negative AppTsx
                  [EvStartConversation ConnectCalled; EvSessionResolved aSession; EvOpen;
                   EvMessage earlyEnv (audioMessage "AAA=")]
                  (or_introl eq_refl))).
Defined.

Lemma input_transcript_never_read_witness :
  snd (run Part000Tsx oneTurn (set_currentInputTranscription "kumusta" openedSession)) =
  snd (run Part000Tsx oneTurn openedSession).
Proof.
  exact (proj1 (input_transcript_never_read Part000Tsx oneTurn openedSession "kumusta"
                  (or_intror eq_refl))).
Defined.
